(** * SE-Sync: the Riemannian Staircase controller and its saddle escape

    A shallow embedding of [SESync] and [escape_saddle] of
    [C++/SE-Sync/src/SESync.cpp].

    - A C++ [double] is a primitive binary64 float of the kernel
      ([PrimFloat.float]): the comparisons, the division and the
      multiplication below are the IEEE 754 ones, NaN and infinities included.
    - An [unsigned int] is a [Z] in [0, 2^32) and its increment wraps.
    - An Eigen matrix is its two dimensions and the list of its rows.
    - The problem object, the trust-region solver, Eigen's norm and the
      stopwatch live outside the file: they are the fields of a record of
      collaborators, and every statement quantifies over them.
    - The two loops take a bound on their number of iterations and answer
      [None] when it is exhausted.
    - What the statements of [SESync] write to [std::cout] is modelled
      apart, in [Console]; [omp_set_num_threads] is not modelled. *)

From Stdlib Require Import ZArith List Bool Lia Floats.
From Stdlib Require Uint63.
From Stdlib Require String.
Import ListNotations.

Set Warnings "-inexact-float".

(** ** Numbers *)

Module Num.

(** [unsigned int]: 32 bits, wrapping. *)
Definition UINT_MAX : Z := 2 ^ 32 - 1.

Definition uint (z : Z) : Z := z mod 2 ^ 32.

Definition is_uint (z : Z) : Prop := (0 <= z <= UINT_MAX)%Z.

(** Conversion of a (non-negative) [int] constant to [double]. *)
Definition int_to_double (z : Z) : float := of_uint63 (Uint63.of_Z z).

(** [a > b] on doubles is [b < a]. *)
Definition gt (a b : float) : bool := (b <? a)%float.

(** [alpha /= 2]. *)
Definition halve (alpha : float) : float := (alpha / int_to_double 2)%float.

(** [alpha] after [k] executions of [alpha /= 2]. *)
Fixpoint halvings (k : nat) (alpha : float) : float :=
  match k with
  | O => alpha
  | S k' => halvings k' (halve alpha)
  end.

Definition is_nan (x : float) : bool := negb (x =? x)%float.

End Num.

(** ** Eigen matrices *)

Module Eigen.

Record Matrix : Type := mkMatrix {
  rows : nat;
  cols : nat;
  coeff : list (list float)   (* the rows, top to bottom *)
}.

(** A column vector. *)
Definition Vector : Type := list float.

(** [Matrix M;] : the default constructor of a dynamic matrix, 0 x 0. *)
Definition empty : Matrix := mkMatrix 0 0 [].

Definition size (M : Matrix) : nat := rows M * cols M.

(** The coefficient list has the shape the dimensions announce. *)
Definition well_formed (M : Matrix) : Prop :=
  length (coeff M) = rows M /\ Forall (fun row => length row = cols M) (coeff M).

(** [Matrix::Zero(r, c)]. *)
Definition Zero (r c : nat) : Matrix :=
  mkMatrix r c (repeat (repeat 0%float c) r).

(** [M.topRows(k) = Y;] Eigen requires [Y] to be [k x cols M]; on such a
    [Y] the first [k] rows of [M] become the rows of [Y]. *)
Definition assign_topRows (M : Matrix) (k : nat) (Y : Matrix) : Matrix :=
  mkMatrix (rows M) (cols M) (firstn k (coeff Y) ++ skipn k (coeff M)).

(** [M.bottomRows<1>() = v.transpose();] Eigen requires [M] to have a row
    and [v] to have [cols M] entries. *)
Definition assign_bottomRow (M : Matrix) (v : Vector) : Matrix :=
  match coeff M with
  | [] => M
  | _ :: _ => mkMatrix (rows M) (cols M) (removelast (coeff M) ++ [v])
  end.

(** [alpha * M]. *)
Definition scale (alpha : float) (M : Matrix) : Matrix :=
  mkMatrix (rows M) (cols M) (map (map (fun c => (alpha * c)%float)) (coeff M)).

(** [M.block(i, j, p, q)]: the [p x q] block whose top left corner is at
    row [i], column [j]. Eigen requires the block to lie inside [M]
    ([block_inside]); for any other block the program has no defined result,
    and the value given here has no counterpart in it. *)
Definition block (M : Matrix) (i j p q : nat) : Matrix :=
  mkMatrix p q (map (fun row => firstn q (skipn j row)) (firstn p (skipn i (coeff M)))).

(** What Eigen requires of [M.block(i, j, p, q)]: rows [i .. i + p - 1] and
    columns [j .. j + q - 1] are rows and columns of [M]. *)
Definition block_inside (M : Matrix) (i j p q : nat) : Prop :=
  well_formed M /\ i + p <= rows M /\ j + q <= cols M.

End Eigen.

Import Num Eigen.

(** ** The problem object *)

(** [SESyncProblem]. The only part of the problem object that the controller
    changes is its relaxation rank, so a method is a function of the rank in
    force when it is called (first argument) and of its own arguments. *)
Record SESyncProblem : Type := {
  evaluate_objective : Z -> Matrix -> float;
  Euclidean_gradient : Z -> Matrix -> Matrix;
  Riemannian_gradient : Z -> Matrix -> Matrix;
  Riemannian_gradient_at : Z -> Matrix -> Matrix -> Matrix;
  Riemannian_Hessian_vector_product : Z -> Matrix -> Matrix -> Matrix -> Matrix;
  retract : Z -> Matrix -> Matrix -> Matrix;
  precondition : Z -> Matrix -> Matrix -> Matrix;
  chordal_initialization : Z -> Matrix;
  random_sample : Z -> Matrix;
  (* compute_S_minus_Lambda_min_eig(Y, lambda_min, v_min, max_iterations,
     tol, num_Lanczos_vectors): the two out-parameters come in with their
     former contents; the answer is the convergence flag and their contents
     on return. *)
  compute_S_minus_Lambda_min_eig :
    Z -> Matrix -> float -> Vector -> Z -> float -> Z -> bool * float * Vector;
  round_solution : Z -> Matrix -> Matrix;
  num_poses : nat;
  dimension : nat
}.

(** ** [escape_saddle] *)

Section EscapeSaddle.

(** Eigen's [norm()] of a matrix. *)
Variable norm : Matrix -> float.

Variable problem : SESyncProblem.

(** [problem.relaxation_rank()] during the call. *)
Variable relaxation_rank : Z.

Variable Y : Matrix.
Variable lambda_min : float.
Variable v_min : Vector.
Variable gradient_tolerance : float.

Definition FY : float := evaluate_objective problem relaxation_rank Y.

Definition Y_augmented : Matrix :=
  let r := relaxation_rank in
  assign_topRows (Zero (Z.to_nat r) (cols Y)) (Z.to_nat (uint (r - 1))) Y.

Definition Ydot : Matrix :=
  let r := relaxation_rank in
  assign_bottomRow (Zero (Z.to_nat r) (cols Y)) v_min.

Definition alpha_init : float :=
  (int_to_double (2 * 100) * gradient_tolerance / abs lambda_min)%float.

Definition alpha_min : float := 1e-6%float.

(** The trial point for a step length. *)
Definition trial (alpha : float) : Matrix :=
  retract problem relaxation_rank Y_augmented (scale alpha Ydot).

(** The test in the body of the [do ... while]. *)
Definition accepted (Ytest : Matrix) : bool :=
  let FY_test := evaluate_objective problem relaxation_rank Ytest in
  let FY_test_gradnorm := norm (Riemannian_gradient problem relaxation_rank Ytest) in
  (FY_test <? FY)%float && gt FY_test_gradnorm gradient_tolerance.

(** What the line search leaves behind: [escape_success], [Ytest], and
    (a ghost) the arguments of every call of [problem.retract], oldest
    first. *)
Record LineSearch : Type := {
  escape_success : bool;
  Ytest_final : Matrix;
  retractions : list (Matrix * Matrix)
}.

(** [do { alpha /= 2; ... } while (!escape_success && (alpha > alpha_min))],
    entered with [alpha]; [n] bounds the number of iterations. *)
Fixpoint line_search (n : nat) (alpha : float) (calls : list (Matrix * Matrix))
  : option LineSearch :=
  match n with
  | O => None
  | S n' =>
      let alpha := halve alpha in
      let Ytest := trial alpha in
      let calls := calls ++ [(Y_augmented, scale alpha Ydot)] in
      let escape_success := accepted Ytest in
      if negb escape_success && gt alpha alpha_min
      then line_search n' alpha calls
      else Some {| escape_success := escape_success;
                   Ytest_final := Ytest;
                   retractions := calls |}
  end.

(** [escape_saddle(problem, Y, lambda_min, v_min, gradient_tolerance, Yplus)]:
    the returned flag and the contents of [Yplus] on return. *)
Definition escape_saddle (n : nat) (Yplus : Matrix) : option (bool * Matrix) :=
  match line_search n alpha_init [] with
  | None => None
  | Some ls =>
      if escape_success ls then Some (true, Ytest_final ls) else Some (false, Yplus)
  end.

End EscapeSaddle.

(** ** Options, results and the trust-region solver *)

Inductive Formulation : Type := Simplified | Explicit.

Module Preconditioner.
Inductive t : Type := None | Jacobi | IncompleteCholesky.
End Preconditioner.

Record SESyncOpts : Type := {
  grad_norm_tol : float;
  rel_func_decrease_tol : float;
  stepsize_tol : float;
  max_iterations : Z;
  max_tCG_iterations : Z;
  formulation : Formulation;
  r0 : Z;
  rmax : Z;
  max_eig_iterations : Z;
  min_eig_num_tol : float;
  num_Lanczos_vectors : Z;
  use_Cholesky : bool;
  precon : Preconditioner.t;
  use_chordal_initialization : bool;
  log_iterates : bool;
  verbose : bool;
  num_threads : Z
}.

(** Modelled from the spec: [SESync/SESync_types.h], which declares the
    status enumeration, is not among the sources; the four values are the
    ones [SESync] assigns and switches over. In the words of the
    specification they are GLOBAL_OPTIMUM, EIGENVALUE_IMPRECISE,
    SADDLE_ESCAPE_FAILED and RANK_LIMIT_REACHED, in this order. *)
Inductive SESyncStatus : Type :=
  | GLOBAL_OPT
  | EIG_IMPRECISION
  | SADDLE_POINT
  | RS_ITER_LIMIT.

Record SESyncResult : Type := {
  Yopt : Matrix;
  SDPval : float;
  gradnorm : float;
  lambda_min : float;
  v_min : Vector;
  Fxhat : float;
  xhat : Matrix;
  total_computation_time : float;
  initialization_time : float;
  function_values : list (list float);
  gradient_norms : list (list float);
  elapsed_optimization_times : list (list float);
  minimum_eigenvalues : list float;
  minimum_eigenvalue_computation_times : list float;
  iterates : list Matrix;
  status : SESyncStatus
}.

Module TNT.

Record Params : Type := {
  gradient_tolerance : float;
  preconditioned_gradient_tolerance : float;
  relative_decrease_tolerance : float;
  stepsize_tolerance : float;
  max_iterations : Z;
  max_TPCG_iterations : Z;
  verbose : bool
}.

Record Result : Type := {
  x : Matrix;
  f : float;
  objective_values : list float;
  gradient_norms : list float;
  time : list float;
  elapsed_time : float
}.

End TNT.

(** The calls the controller makes on its collaborators, as a ghost log. *)
Inductive Call : Type :=
  | set_relaxation_rank_ (r : Z)
  | chordal_initialization_ (rank : Z)
  | random_sample_ (rank : Z)
  | TNT_ (rank : Z) (Y : Matrix) (x : Matrix)
  | compute_S_minus_Lambda_min_eig_ (rank : Z) (Y : Matrix) (converged : bool) (lambda_min : float)
  | escape_saddle_ (rank : Z) (Y : Matrix) (lambda_min : float) (v_min : Vector)
                   (gradient_tolerance : float) (success : bool)
  | round_solution_ (rank : Z) (Y : Matrix).

(** What lives outside [SESync.cpp]. *)
Record Collaborators (RelativePoseMeasurement : Type) : Type := {
  (* the constructor SESyncProblem(measurements, formulation, use_Cholesky, precon) *)
  SESyncProblem_new :
    list RelativePoseMeasurement -> Formulation -> bool -> Preconditioner.t -> SESyncProblem;
  (* Optimization::Smooth::TNT(F, QM, metric, retraction, Y, NablaF_Y, iterates,
     precon, params, user_function). The function handles are closures over
     the problem object: the solver is given the problem and its rank; it is
     given a preconditioner iff [has_precon] and a user function iff
     [has_user_function]. It answers its result and the contents of the two
     arguments it may write to, NablaF_Y and iterates. *)
  TNT_solve :
    SESyncProblem -> Z -> Matrix -> Matrix -> list Matrix ->
    forall (has_precon : bool) (params : TNT.Params) (has_user_function : bool),
    TNT.Result * Matrix * list Matrix;
  (* Eigen's norm() *)
  norm : Matrix -> float;
  (* Stopwatch::tock: the elapsed time read after a history of calls *)
  Stopwatch_tock : list Call -> float;
  (* the contents of the doubles of the result that were never assigned,
     one per field *)
  indeterminate : nat -> float
}.

Arguments SESyncProblem_new {_} _ _ _ _ _.
Arguments TNT_solve {_} _ _ _ _ _ _ _ _ _.
Arguments norm {_} _ _.
Arguments Stopwatch_tock {_} _ _.
Arguments indeterminate {_} _ _.

(** ** [SESync] *)

(** The local variables of [SESync] that outlive an iteration of the
    staircase, the rank of the problem object, and the ghost log (newest call
    first). *)
Record State : Type := {
  Y : Matrix;
  NablaF_Y : Matrix;
  SESyncResults : SESyncResult;
  relaxation_rank : Z;
  calls : list Call
}.

(** The lines that extract the results of the solver (283-295). *)
Definition record_TNT (R : SESyncResult) (T : TNT.Result) (gn : float)
  (its : list Matrix) : SESyncResult :=
  {| Yopt := TNT.x T;
     SDPval := TNT.f T;
     gradnorm := gn;
     lambda_min := lambda_min R;
     v_min := v_min R;
     Fxhat := Fxhat R;
     xhat := xhat R;
     total_computation_time := total_computation_time R;
     initialization_time := initialization_time R;
     function_values := function_values R ++ [TNT.objective_values T];
     gradient_norms := gradient_norms R ++ [TNT.gradient_norms T];
     elapsed_optimization_times := elapsed_optimization_times R ++ [TNT.time T];
     minimum_eigenvalues := minimum_eigenvalues R;
     minimum_eigenvalue_computation_times := minimum_eigenvalue_computation_times R;
     iterates := its;
     status := status R |}.

(** The out-parameters of the eigenvalue computation (314). *)
Definition record_eig (R : SESyncResult) (lam : float) (v : Vector) : SESyncResult :=
  {| Yopt := Yopt R;
     SDPval := SDPval R;
     gradnorm := gradnorm R;
     lambda_min := lam;
     v_min := v;
     Fxhat := Fxhat R;
     xhat := xhat R;
     total_computation_time := total_computation_time R;
     initialization_time := initialization_time R;
     function_values := function_values R;
     gradient_norms := gradient_norms R;
     elapsed_optimization_times := elapsed_optimization_times R;
     minimum_eigenvalues := minimum_eigenvalues R;
     minimum_eigenvalue_computation_times := minimum_eigenvalue_computation_times R;
     iterates := iterates R;
     status := status R |}.

(** The two [push_back] of lines 329-331. *)
Definition push_min_eig (R : SESyncResult) (eig_elapsed_time : float) : SESyncResult :=
  {| Yopt := Yopt R;
     SDPval := SDPval R;
     gradnorm := gradnorm R;
     lambda_min := lambda_min R;
     v_min := v_min R;
     Fxhat := Fxhat R;
     xhat := xhat R;
     total_computation_time := total_computation_time R;
     initialization_time := initialization_time R;
     function_values := function_values R;
     gradient_norms := gradient_norms R;
     elapsed_optimization_times := elapsed_optimization_times R;
     minimum_eigenvalues := minimum_eigenvalues R ++ [lambda_min R];
     minimum_eigenvalue_computation_times :=
       minimum_eigenvalue_computation_times R ++ [eig_elapsed_time];
     iterates := iterates R;
     status := status R |}.

Definition set_status (R : SESyncResult) (st : SESyncStatus) : SESyncResult :=
  {| Yopt := Yopt R;
     SDPval := SDPval R;
     gradnorm := gradnorm R;
     lambda_min := lambda_min R;
     v_min := v_min R;
     Fxhat := Fxhat R;
     xhat := xhat R;
     total_computation_time := total_computation_time R;
     initialization_time := initialization_time R;
     function_values := function_values R;
     gradient_norms := gradient_norms R;
     elapsed_optimization_times := elapsed_optimization_times R;
     minimum_eigenvalues := minimum_eigenvalues R;
     minimum_eigenvalue_computation_times := minimum_eigenvalue_computation_times R;
     iterates := iterates R;
     status := st |}.

Definition set_initialization_time (R : SESyncResult) (t : float) : SESyncResult :=
  {| Yopt := Yopt R;
     SDPval := SDPval R;
     gradnorm := gradnorm R;
     lambda_min := lambda_min R;
     v_min := v_min R;
     Fxhat := Fxhat R;
     xhat := xhat R;
     total_computation_time := total_computation_time R;
     initialization_time := t;
     function_values := function_values R;
     gradient_norms := gradient_norms R;
     elapsed_optimization_times := elapsed_optimization_times R;
     minimum_eigenvalues := minimum_eigenvalues R;
     minimum_eigenvalue_computation_times := minimum_eigenvalue_computation_times R;
     iterates := iterates R;
     status := status R |}.

(** The post-processing assignments (413, 421, 428). *)
Definition record_rounding (R : SESyncResult) (X : Matrix) (FX t : float) : SESyncResult :=
  {| Yopt := Yopt R;
     SDPval := SDPval R;
     gradnorm := gradnorm R;
     lambda_min := lambda_min R;
     v_min := v_min R;
     Fxhat := FX;
     xhat := X;
     total_computation_time := t;
     initialization_time := initialization_time R;
     function_values := function_values R;
     gradient_norms := gradient_norms R;
     elapsed_optimization_times := elapsed_optimization_times R;
     minimum_eigenvalues := minimum_eigenvalues R;
     minimum_eigenvalue_computation_times := minimum_eigenvalue_computation_times R;
     iterates := iterates R;
     status := status R |}.

Section SESync.

Variable RelativePoseMeasurement : Type.
Variable world : Collaborators RelativePoseMeasurement.

Variable measurements : list RelativePoseMeasurement.
Variable options : SESyncOpts.
Variable Y0 : Matrix.

(** Bound on the iterations of one line search. *)
Variable n_search : nat.

(** [SESyncProblem problem(measurements, options.formulation,
    options.use_Cholesky, options.precon)] *)
Definition problem : SESyncProblem :=
  SESyncProblem_new world measurements (formulation options) (use_Cholesky options)
    (precon options).

(** [SESyncResult SESyncResults; SESyncResults.status = RS_ITER_LIMIT;] *)
Definition SESyncResults_new : SESyncResult :=
  {| Yopt := empty;
     SDPval := indeterminate world 0;
     gradnorm := indeterminate world 1;
     lambda_min := indeterminate world 2;
     v_min := [];
     Fxhat := indeterminate world 3;
     xhat := empty;
     total_computation_time := indeterminate world 4;
     initialization_time := indeterminate world 5;
     function_values := [];
     gradient_norms := [];
     elapsed_optimization_times := [];
     minimum_eigenvalues := [];
     minimum_eigenvalue_computation_times := [];
     iterates := [];
     status := RS_ITER_LIMIT |}.

(** [precon] is engaged unless [options.precon == None]. *)
Definition has_precon : bool :=
  match precon options with
  | Preconditioner.None => false
  | _ => true
  end.

Definition params : TNT.Params :=
  {| TNT.gradient_tolerance := grad_norm_tol options;
     TNT.preconditioned_gradient_tolerance := int_to_double 0;
     TNT.relative_decrease_tolerance := rel_func_decrease_tol options;
     TNT.stepsize_tolerance := stepsize_tol options;
     TNT.max_iterations := max_iterations options;
     TNT.max_TPCG_iterations := max_tCG_iterations options;
     TNT.verbose := verbose options |}.

(** Lines 105-236: construction of the problem at rank [r0] and choice of the
    initial iterate. *)
Definition initialize : State :=
  let rank := r0 options in
  let calls := [set_relaxation_rank_ rank] in
  let '(Y, calls) :=
    if negb (size Y0 =? 0)%nat then (Y0, calls)
    else if use_chordal_initialization options
         then (chordal_initialization problem rank, chordal_initialization_ rank :: calls)
         else (random_sample problem rank, random_sample_ rank :: calls) in
  {| Y := Y;
     NablaF_Y := empty;
     SESyncResults := set_initialization_time SESyncResults_new (Stopwatch_tock world calls);
     relaxation_rank := rank;
     calls := calls |}.

(** How an iteration of the [for] loop ends: at its closing brace, or at a
    [break]. *)
Inductive Flow : Type :=
  | Next (s : State)
  | Break (s : State).

Definition with_results (s : State) (R : SESyncResult) : State :=
  {| Y := Y s;
     NablaF_Y := NablaF_Y s;
     SESyncResults := R;
     relaxation_rank := relaxation_rank s;
     calls := calls s |}.

(** [SESyncResults.status = st; break;] *)
Definition break_with (st : SESyncStatus) (s : State) : Flow :=
  Break (with_results s (set_status (SESyncResults s) st)).

(** Lines 277-295: the solver is run from [Y] and its results are recorded. *)
Definition run_TNT (s : State) : State :=
  let rank := relaxation_rank s in
  let '(TNTResults, NablaF_Y', iterates') :=
    TNT_solve world problem rank (Y s) (NablaF_Y s) (iterates (SESyncResults s))
      has_precon params (log_iterates options) in
  {| Y := Y s;
     NablaF_Y := NablaF_Y';
     SESyncResults :=
       record_TNT (SESyncResults s) TNTResults
         (norm world (Riemannian_gradient problem rank (TNT.x TNTResults))) iterates';
     relaxation_rank := rank;
     calls := TNT_ rank (Y s) (TNT.x TNTResults) :: calls s |}.

(** Lines 313-316: the minimum eigenvalue of the certificate matrix at
    [SESyncResults.Yopt]; the flag returned, and the state on return. *)
Definition min_eig (s : State) : bool * State :=
  let rank := relaxation_rank s in
  let R := SESyncResults s in
  let '(eigenvalue_convergence, lam, v) :=
    compute_S_minus_Lambda_min_eig problem rank (Yopt R) (lambda_min R) (v_min R)
      (max_eig_iterations options) (min_eig_num_tol options) (num_Lanczos_vectors options) in
  (eigenvalue_convergence,
   {| Y := Y s;
      NablaF_Y := NablaF_Y s;
      SESyncResults := record_eig R lam v;
      relaxation_rank := rank;
      calls := compute_S_minus_Lambda_min_eig_ rank (Yopt R) eigenvalue_convergence lam :: calls s |}).

(** Line 358: [problem.set_relaxation_rank(r + 1)]. *)
Definition ascend (r : Z) (s : State) : State :=
  let rank := uint (r + 1) in
  {| Y := Y s;
     NablaF_Y := NablaF_Y s;
     SESyncResults := SESyncResults s;
     relaxation_rank := rank;
     calls := set_relaxation_rank_ rank :: calls s |}.

(** Lines 360-374: the call of [escape_saddle] and what follows it. *)
Definition escape (s : State) : option Flow :=
  let R := SESyncResults s in
  match escape_saddle (norm world) problem (relaxation_rank s) (Yopt R) (lambda_min R)
          (v_min R) (grad_norm_tol options) n_search empty with
  | None => None
  | Some (escape_success, Yplus) =>
      let s :=
        {| Y := Y s;
           NablaF_Y := NablaF_Y s;
           SESyncResults := R;
           relaxation_rank := relaxation_rank s;
           calls :=
             escape_saddle_ (relaxation_rank s) (Yopt R) (lambda_min R) (v_min R)
               (grad_norm_tol options) escape_success :: calls s |} in
      if escape_success then
        Some (Next {| Y := Yplus;
                      NablaF_Y := NablaF_Y s;
                      SESyncResults := SESyncResults s;
                      relaxation_rank := relaxation_rank s;
                      calls := calls s |})
      else Some (break_with SADDLE_POINT s)
  end.

(** The body of the [for] loop (lines 263-375) at level [r]. *)
Definition staircase_level (r : Z) (s : State) : option Flow :=
  let s := run_TNT s in
  let '(eigenvalue_convergence, s) := min_eig s in
  let eig_elapsed_time := Stopwatch_tock world (calls s) in
  if negb eigenvalue_convergence then Some (break_with EIG_IMPRECISION s)
  else
    let s := with_results s (push_min_eig (SESyncResults s) eig_elapsed_time) in
    if gt (lambda_min (SESyncResults s)) (- min_eig_num_tol options)%float
    then Some (break_with GLOBAL_OPT s)
    else escape (ascend r s).

(** [for (unsigned int r = ...; r <= options.rmax; r++)], entered with [r];
    [levels] bounds the number of iterations. *)
Fixpoint staircase (levels : nat) (r : Z) (s : State) : option State :=
  if (r <=? rmax options)%Z then
    match levels with
    | O => None
    | S levels' =>
        match staircase_level r s with
        | None => None
        | Some (Break s') => Some s'
        | Some (Next s') => staircase levels' (uint (r + 1)) s'
        end
    end
  else Some s.

(** Lines 410-428: rounding, and the objective at the rounded solution. *)
Definition post_process (s : State) : State :=
  let R := SESyncResults s in
  let rank := relaxation_rank s in
  let X := round_solution problem rank (Yopt R) in
  let calls := round_solution_ rank (Yopt R) :: calls s in
  let FX :=
    match formulation options with
    | Simplified =>
        evaluate_objective problem rank
          (block X 0 (num_poses problem) (dimension problem)
             (dimension problem * num_poses problem))
    | Explicit => evaluate_objective problem rank X
    end in
  {| Y := Y s;
     NablaF_Y := NablaF_Y s;
     SESyncResults := record_rounding R X FX (Stopwatch_tock world calls);
     relaxation_rank := rank;
     calls := calls |}.

(** [SESync(measurements, options, Y0)]: the state at the [return]; the value
    returned is its [SESyncResults]. *)
Definition SESync_run (levels : nat) : option State :=
  option_map post_process (staircase levels (r0 options) initialize).

Definition SESync (levels : nat) : option SESyncResult :=
  option_map SESyncResults (SESync_run levels).

End SESync.

(** ** Reading the log of a run *)

Module Log.

Definition is_TNT (c : Call) : bool :=
  match c with TNT_ _ _ _ => true | _ => false end.

Definition is_min_eig (c : Call) : bool :=
  match c with compute_S_minus_Lambda_min_eig_ _ _ _ _ => true | _ => false end.

Definition is_escape (c : Call) : bool :=
  match c with escape_saddle_ _ _ _ _ _ _ => true | _ => false end.

Definition is_initialization (c : Call) : bool :=
  match c with
  | chordal_initialization_ _ | random_sample_ _ => true
  | _ => false
  end.

(** The eigenvalue computation returned [true]. *)
Definition converged (c : Call) : bool :=
  match c with compute_S_minus_Lambda_min_eig_ _ _ b _ => b | _ => false end.

(** The three causes of a [break]. *)
Definition imprecise (c : Call) : bool :=
  match c with compute_S_minus_Lambda_min_eig_ _ _ b _ => negb b | _ => false end.

Definition certificate (tol : float) (c : Call) : bool :=
  match c with
  | compute_S_minus_Lambda_min_eig_ _ _ b lam => b && gt lam (- tol)%float
  | _ => false
  end.

Definition failed_escape (c : Call) : bool :=
  match c with escape_saddle_ _ _ _ _ _ ok => negb ok | _ => false end.

(** A call after which the staircase goes on. *)
Definition quiet (tol : float) (c : Call) : bool :=
  negb (imprecise c) && negb (certificate tol c) && negb (failed_escape c).

Definition count (p : Call -> bool) (l : list Call) : nat := length (filter p l).

(** The point returned by the most recent call of the solver, if any (the log
    has the newest call first). *)
Fixpoint last_solution (l : list Call) : option Matrix :=
  match l with
  | [] => None
  | TNT_ _ _ x :: _ => Some x
  | _ :: l' => last_solution l'
  end.

(** The point given to the first call of the solver, if any. *)
Fixpoint first_iterate (l : list Call) : option Matrix :=
  match l with
  | [] => None
  | c :: l' =>
      match first_iterate l', c with
      | Some Y, _ => Some Y
      | None, TNT_ _ Y _ => Some Y
      | None, _ => None
      end
  end.

End Log.

(** ** What the statements speak of *)

Module Search.

(** The line search goes on after an iteration at step length [a]: the trial
    is rejected and [a > alpha_min]. *)
Definition goes_on (norm : Matrix -> float) (problem : SESyncProblem) (rank : Z)
  (Y : Matrix) (v_min : Vector) (gradient_tolerance : float) (a : float) : bool :=
  negb (accepted norm problem rank Y gradient_tolerance (trial problem rank Y v_min a))
  && gt a alpha_min.

End Search.

Module Inv.

(** The traces of the results agree with the log. *)
Definition traces_agree (s : State) : Prop :=
  let R := SESyncResults s in
  let l := calls s in
  length (function_values R) = Log.count Log.is_TNT l /\
  length (gradient_norms R) = Log.count Log.is_TNT l /\
  length (elapsed_optimization_times R) = Log.count Log.is_TNT l /\
  length (minimum_eigenvalues R) = Log.count Log.converged l /\
  length (minimum_eigenvalue_computation_times R) = Log.count Log.converged l /\
  Log.count Log.is_TNT l = Log.count Log.converged l + Log.count Log.imprecise l /\
  Yopt R = match Log.last_solution l with Some x => x | None => empty end.

(** Every call of [escape_saddle] in the log follows a converged eigenvalue
    computation at the same point that reported the eigenvalue it is given,
    and that eigenvalue failed the test [lambda_min > -min_eig_num_tol]. *)
Definition escapes_justified (options : SESyncOpts) (l : list Call) : Prop :=
  forall rank Y lam v g ok,
    In (escape_saddle_ rank Y lam v g ok) l ->
    gt lam (- min_eig_num_tol options)%float = false /\
    g = grad_norm_tol options /\
    In (set_relaxation_rank_ rank) l /\
    exists rk, In (compute_S_minus_Lambda_min_eig_ rk Y true lam) l.

(** The state at the head of the loop. *)
Definition running (options : SESyncOpts) (s : State) : Prop :=
  status (SESyncResults s) = RS_ITER_LIMIT /\
  forallb (Log.quiet (min_eig_num_tol options)) (calls s) = true /\
  traces_agree s /\
  escapes_justified options (calls s).

(** The newest call of the log tells why the loop was left. *)
Definition verdict (options : SESyncOpts) (s : State) : Prop :=
  let R := SESyncResults s in
  let tol := min_eig_num_tol options in
  match status R with
  | RS_ITER_LIMIT => forallb (Log.quiet tol) (calls s) = true
  | EIG_IMPRECISION =>
      exists rest,
        calls s = compute_S_minus_Lambda_min_eig_ (relaxation_rank s) (Yopt R) false
                    (lambda_min R) :: rest /\
        forallb (Log.quiet tol) rest = true
  | GLOBAL_OPT =>
      exists rest,
        calls s = compute_S_minus_Lambda_min_eig_ (relaxation_rank s) (Yopt R) true
                    (lambda_min R) :: rest /\
        gt (lambda_min R) (- tol)%float = true /\
        forallb (Log.quiet tol) rest = true
  | SADDLE_POINT =>
      exists rest,
        calls s = escape_saddle_ (relaxation_rank s) (Yopt R) (lambda_min R) (v_min R)
                    (grad_norm_tol options) false :: rest /\
        forallb (Log.quiet tol) rest = true
  end.

Definition stopped (options : SESyncOpts) (s : State) : Prop :=
  verdict options s /\ traces_agree s /\ escapes_justified options (calls s).

(** A call made from inside the loop. *)
Definition loop_call (c : Call) : bool :=
  match c with
  | set_relaxation_rank_ _ | TNT_ _ _ _ | compute_S_minus_Lambda_min_eig_ _ _ _ _
  | escape_saddle_ _ _ _ _ _ _ => true
  | _ => false
  end.

(** The loop adds calls to the log, none of them an initialization or a
    rounding, and the oldest of them is the solver at the incoming iterate. *)
Definition staircase_calls (s s' : State) : Prop :=
  calls s' = calls s \/
  exists new x,
    calls s' = new ++ TNT_ (relaxation_rank s) (Y s) x :: calls s /\
    forallb loop_call new = true.

(** No eigenvalue that sends the controller to [escape_saddle] makes the
    initial step of the line search [+infinity]. *)
Definition steps_finite (RelativePoseMeasurement : Type)
  (world : Collaborators RelativePoseMeasurement)
  (measurements : list RelativePoseMeasurement) (options : SESyncOpts) : Prop :=
  forall rank Y l0 v0,
    let '(converged, lam, _) :=
      compute_S_minus_Lambda_min_eig
        (problem RelativePoseMeasurement world measurements options) rank Y l0 v0
        (max_eig_iterations options) (min_eig_num_tol options)
        (num_Lanczos_vectors options) in
    converged = true -> gt lam (- min_eig_num_tol options)%float = false ->
    (alpha_init lam (grad_norm_tol options) =? infinity)%float = false.

End Inv.

(** Readings of the specification of binary64 ([SpecFloat]). *)
Module Spec.

(** The float with the next exponent, or the infinity past the last one. *)
Definition exp_succ (x : spec_float) : spec_float :=
  match x with
  | S754_finite s m e =>
      if (e + 1 <=? 971)%Z then S754_finite s m (e + 1) else S754_infinity s
  | _ => x
  end.

Definition has_sign (s : bool) (x : spec_float) : Prop :=
  match x with
  | S754_zero s' | S754_infinity s' | S754_finite s' _ _ => s' = s
  | S754_nan => True
  end.

(** What is not above [alpha_min = 1e-6], whose exponent is -72: a NaN, a
    zero, a negative, or a number with a smaller exponent. *)
Definition at_floor (x : spec_float) : Prop :=
  match x with
  | S754_infinity s => s = true
  | S754_finite s _ e => s = true \/ (e < -72)%Z
  | _ => True
  end.

End Spec.

(** ** A small world to run the controller in

    One pose in dimension one; the objective is the sum of the coefficients,
    the manifold is flat (the retraction adds the tangent vector), the solver
    answers the point it is given, and the eigenvalue routine reads its answer
    for the current rank off a script. *)

Module Fixture.

Definition sum (l : list float) : float := fold_right PrimFloat.add 0%float l.

Definition total (M : Matrix) : float := sum (map sum (coeff M)).

Definition add_rows (a b : list float) : list float :=
  map (fun p => (fst p + snd p)%float) (combine a b).

Definition plus (A B : Matrix) : Matrix :=
  mkMatrix (rows A) (cols A) (map (fun p => add_rows (fst p) (snd p)) (combine (coeff A) (coeff B))).

(** The sum of the absolute values of the coefficients stands for the norm. *)
Definition norm1 (M : Matrix) : float := sum (map (fun row => sum (map abs row)) (coeff M)).

Definition constant (r c : nat) (a : float) : Matrix := mkMatrix r c (repeat (repeat a c) r).

Definition problem (script : Z -> bool * float * Vector) : SESyncProblem :=
  {| evaluate_objective := fun _ M => total M;
     Euclidean_gradient := fun _ M => M;
     Riemannian_gradient := fun _ M => M;
     Riemannian_gradient_at := fun _ _ G => G;
     Riemannian_Hessian_vector_product := fun _ _ _ V => V;
     retract := fun _ M V => plus M V;
     precondition := fun _ _ V => V;
     chordal_initialization := fun rank => constant (Z.to_nat rank) 2 1%float;
     random_sample := fun rank => constant (Z.to_nat rank) 2 0.5%float;
     compute_S_minus_Lambda_min_eig := fun rank _ _ _ _ _ _ => script rank;
     round_solution := fun _ M => block M 0 0 1 (cols M);
     num_poses := 1;
     dimension := 1 |}.

Definition solver (P : SESyncProblem) (rank : Z) (Y NablaF_Y : Matrix) (iterates : list Matrix)
  (has_precon : bool) (params : TNT.Params) (has_user_function : bool)
  : TNT.Result * Matrix * list Matrix :=
  ({| TNT.x := Y;
      TNT.f := evaluate_objective P rank Y;
      TNT.objective_values := [evaluate_objective P rank Y];
      TNT.gradient_norms := [norm1 (Riemannian_gradient P rank Y)];
      TNT.time := [0%float];
      TNT.elapsed_time := 0%float |},
   Euclidean_gradient P rank Y,
   if has_user_function then iterates ++ [Y] else iterates).

Definition world (script : Z -> bool * float * Vector) : Collaborators unit :=
  {| SESyncProblem_new := fun _ _ _ _ => problem script;
     TNT_solve := solver;
     norm := norm1;
     Stopwatch_tock := fun calls => int_to_double (Z.of_nat (length calls));
     indeterminate := fun _ => nan |}.

Definition options (r0 rmax : Z) (min_eig_num_tol : float) : SESyncOpts :=
  {| grad_norm_tol := 1e-2;
     rel_func_decrease_tol := 1e-7;
     stepsize_tol := 1e-3;
     max_iterations := 1000;
     max_tCG_iterations := 10000;
     formulation := Simplified;
     r0 := r0;
     rmax := rmax;
     max_eig_iterations := 10000;
     min_eig_num_tol := min_eig_num_tol;
     num_Lanczos_vectors := 20;
     use_Cholesky := true;
     precon := Preconditioner.IncompleteCholesky;
     use_chordal_initialization := true;
     log_iterates := false;
     verbose := false;
     num_threads := 1 |}.

(** A descent direction at every rank: the escape succeeds. *)
Definition always_saddle (lam : float) (rank : Z) : bool * float * Vector :=
  (true, lam, [(-1)%float; (-1)%float]).

(** An ascent direction at every rank: the line search rejects every trial. *)
Definition no_descent (lam : float) (rank : Z) : bool * float * Vector :=
  (true, lam, [1%float; 1%float]).

(** A saddle with a descent direction below rank [k], a positive eigenvalue
    from rank [k] on. *)
Definition saddle_below (k : Z) (rank : Z) : bool * float * Vector :=
  if (rank <? k)%Z then (true, (-1)%float, [(-1)%float; (-1)%float])
  else (true, 0.5%float, [1%float; 0%float]).

(** The eigenvalue routine gives up. *)
Definition no_convergence (rank : Z) : bool * float * Vector :=
  (false, 0%float, []).

(** The state in which the small world enters the loop at rank 2. *)
Definition start_at_2 (script : Z -> bool * float * Vector) (eps : float) : State :=
  initialize unit (world script) [] (options 2 5 eps) empty.

End Fixture.

(** ** The order of the calls of a run *)

Module Trace.

(** The ranks at which the solver was run, oldest first. *)
Fixpoint solver_ranks (l : list Call) : list Z :=
  match l with
  | [] => []
  | TNT_ rank _ _ :: l' => solver_ranks l' ++ [rank]
  | _ :: l' => solver_ranks l'
  end.

(** The eigenvalues that the converged computations reported, oldest first. *)
Fixpoint eigenvalues (l : list Call) : list float :=
  match l with
  | [] => []
  | compute_S_minus_Lambda_min_eig_ _ _ true lam :: l' => eigenvalues l' ++ [lam]
  | _ :: l' => eigenvalues l'
  end.

(** The rank of the most recent run of the solver, if any. *)
Fixpoint last_rank (l : list Call) : option Z :=
  match l with
  | [] => None
  | TNT_ rank _ _ :: _ => Some rank
  | _ :: l' => last_rank l'
  end.

(** The ranks [r, r + 1, ..., r + k - 1]. *)
Definition ranks_from (r : Z) (k : nat) : list Z :=
  map (fun i => (r + Z.of_nat i)%Z) (seq 0 k).

Section Chain.

Variable RelativePoseMeasurement : Type.
Variable world : Collaborators RelativePoseMeasurement.
Variable measurements : list RelativePoseMeasurement.
Variable options : SESyncOpts.
Variable Y0 : Matrix.
Variable n_search : nat.

(** What a call has right before it in a run ([older] is the log at the time
    of the call, newest first): the solver starts from the initial iterate or
    from the point a successful [escape_saddle] has just returned; the
    eigenvalue computation is given the point the solver has just returned;
    the rank is raised after a converged eigenvalue that failed the test, and
    [escape_saddle] is called next. *)
Definition link (c : Call) (older : list Call) : Prop :=
  let start := initialize RelativePoseMeasurement world measurements options Y0 in
  let problem := problem RelativePoseMeasurement world measurements options in
  match c with
  | TNT_ rank Yin x =>
      (older = calls start /\ Yin = Y start /\ rank = r0 options) \/
      (exists Y lam v g rest,
         older = escape_saddle_ rank Y lam v g true :: rest /\
         escape_saddle (norm world) problem rank Y lam v g n_search empty = Some (true, Yin))
  | compute_S_minus_Lambda_min_eig_ rank Y _ _ =>
      exists Yin rest, older = TNT_ rank Yin Y :: rest
  | set_relaxation_rank_ rank =>
      (older = [] /\ rank = r0 options) \/
      (exists rk Y lam rest,
         older = compute_S_minus_Lambda_min_eig_ rk Y true lam :: rest /\
         rank = uint (rk + 1) /\
         gt lam (- min_eig_num_tol options)%float = false)
  | escape_saddle_ rank Y lam v g ok =>
      exists rk Yin rest,
        older = set_relaxation_rank_ rank
                :: compute_S_minus_Lambda_min_eig_ rk Y true lam
                :: TNT_ rk Yin Y :: rest /\
        rank = uint (rk + 1) /\
        gt lam (- min_eig_num_tol options)%float = false /\
        g = grad_norm_tol options
  | chordal_initialization_ rank | random_sample_ rank =>
      older = [set_relaxation_rank_ (r0 options)] /\ rank = r0 options
  | round_solution_ _ _ => True
  end.

(** What a call has right after it: the eigenvalue computation follows the
    solver, at its rank and at the point it returned. *)
Definition next (c : Call) (older : list Call) : Prop :=
  match older with
  | TNT_ rank _ x :: _ => exists conv lam, c = compute_S_minus_Lambda_min_eig_ rank x conv lam
  | _ => True
  end.

Fixpoint chained (l : list Call) : Prop :=
  match l with
  | [] => True
  | c :: older => link c older /\ next c older /\ chained older
  end.

End Chain.

End Trace.

(** ** What [SESync] writes to [std::cout]

    The output of the statements of [SESync.cpp]; what the solver and the
    problem object write themselves is not part of it. *)

Module Console.

Import String.StringSyntax.
Local Open Scope string_scope.
Local Open Scope list_scope.

(** The operands of [std::cout << ...], in the order of their insertion. *)
Inductive Item : Type :=
  | text (s : String.string)
  | double (x : float)
  | integer (z : Z)
  | endl.

(** Lines 321-323. *)
Definition eigenvalue_warning_text : String.string :=
  "WARNING!  EIGENVALUE COMPUTATION DID NOT CONVERGE TO DESIRED PRECISION!".

Definition eigenvalue_warning : list Item := [text eigenvalue_warning_text; endl].

(** Lines 369-371. *)
Definition line_search_warning_text : String.string :=
  "WARNING!  BACKTRACKING LINE SEARCH FAILED TO ESCAPE FROM SADDLE POINT!".

Definition line_search_warning : list Item := [text line_search_warning_text; endl].

(** The [switch] of lines 386-404. *)
Definition status_message (st : SESyncStatus) : String.string :=
  match st with
  | GLOBAL_OPT => "Found global optimum!"
  | EIG_IMPRECISION =>
      "WARNING: Minimum eigenvalue computation did not achieve sufficient accuracy; solution may not be globally optimal!"
  | SADDLE_POINT => "WARNING: Line-search was unable to escape saddle point!"
  | RS_ITER_LIMIT =>
      "WARNING:  Riemannian Staircase reached the maximum level before finding global optimum!"
  end.

Definition level_banner : String.string := "====== RIEMANNIAN STAIRCASE (level r = ".

(** Lines 270-274. *)
Definition level_header (r : Z) : list Item :=
  [endl; endl; text level_banner; integer r; text ") ======"; endl; endl].

(** Lines 299-305. *)
Definition critical_point_found (SDPval elapsed_time : float) : list Item :=
  [endl; text "Found first-order critical point with value F(Y) = "; double SDPval;
   text "!  Elapsed computation time: "; double elapsed_time; text " seconds"; endl; endl;
   text "Checking second order optimality ... "; endl].

(** Lines 337-340. *)
Definition optimum_found (lambda_min eig_elapsed_time : float) : list Item :=
  [text "Found second-order critical point! (minimum eigenvalue = "; double lambda_min;
   text "). Elapsed computation time: "; double eig_elapsed_time; text " seconds"; endl].

(** Lines 348-353. *)
Definition saddle_detected (lambda_min eig_elapsed_time : float) : list Item :=
  [text "Saddle point detected (minimum eigenvalue = "; double lambda_min;
   text "). Elapsed computation time: "; double eig_elapsed_time; text " seconds"; endl;
   text "Computing escape direction ... "; endl].

Section Output.

Variable RelativePoseMeasurement : Type.
Variable world : Collaborators RelativePoseMeasurement.
Variable measurements : list RelativePoseMeasurement.
Variable options : SESyncOpts.
Variable Y0 : Matrix.
Variable n_search : nat.

(** The readings of the stopwatch that are displayed and not kept. *)
Variable problem_construction_elapsed_time : float.
Variable chordal_init_elapsed_time : float.
Variable rounding_elapsed_time : float.

Local Abbreviation problem := (problem RelativePoseMeasurement world measurements options).
Local Abbreviation start := (initialize RelativePoseMeasurement world measurements options Y0).

(** [if (options.verbose) std::cout << ...] *)
Definition when_verbose (out : list Item) : list Item :=
  if verbose options then out else [].

(** Lines 29-89. *)
Definition settings : list Item :=
  when_verbose
    ([text "========= SE-Sync =========="; endl; endl;
      text "ALGORITHM SETTINGS:"; endl; endl;
      text "SE-Sync settings:"; endl;
      text " SE-Sync problem formulation: ";
      match formulation options with
      | Simplified => text "simplified"
      | Explicit => text "explicit"
      end;
      endl;
      text " Initial level of Riemannian staircase: "; integer (r0 options); endl;
      text " Maximum level of Riemannian staircase: "; integer (rmax options); endl;
      text " Number of Lanczos vectors to use in minimum eigenvalue computation: ";
      integer (num_Lanczos_vectors options); endl;
      text " Maximum number of iterations for eigenvalue computation: ";
      integer (max_eig_iterations options); endl;
      text " Tolerance for accepting an eigenvalue as numerically nonnegative in optimality verification: ";
      double (min_eig_num_tol options); endl]
     ++ match formulation options with
        | Simplified =>
            [text " Using "; text (if use_Cholesky options then "Cholseky" else "QR");
             text " decomposition to compute orthogonal projections"; endl]
        | Explicit => []
        end
     ++ [text " Initialization method: ";
         text (if use_chordal_initialization options then "chordal" else "random"); endl]
     ++ (if log_iterates options
         then [text " Logging entire sequence of Riemannian Staircase iterates"; endl]
         else [])
     ++ [text " Running SE-Sync with "; integer (num_threads options); text " threads"; endl;
         endl;
         text "Riemannian trust-region settings:"; endl;
         text " Stopping tolerance for norm of Riemannian gradient: ";
         double (grad_norm_tol options); endl;
         text " Stopping tolerance for relative function decrease: ";
         double (rel_func_decrease_tol options); endl;
         text " Stopping tolerance for the norm of an accepted update step: ";
         double (stepsize_tol options); endl;
         text " Maximum number of trust-region iterations: ";
         integer (max_iterations options); endl;
         text " Maximum number of truncated conjugate gradient iterations per outer iteration: ";
         integer (max_tCG_iterations options); endl;
         text " Preconditioning the truncated conjugate gradient method using ";
         match precon options with
         | Preconditioner.None => text "the identity preconditioner"
         | Preconditioner.Jacobi => text "Jacobi preconditioner"
         | Preconditioner.IncompleteCholesky => text "incomplete Cholesky preconditioner"
         end;
         endl; endl]).

(** Lines 98-113 and 211-246. *)
Definition initialization : list Item :=
  when_verbose [text "INITIALIZATION:"; endl]
  ++ when_verbose [text " Constructing SE-Sync problem instance ... "]
  ++ when_verbose [text "elapsed computation time: ";
                   double problem_construction_elapsed_time; text " seconds"; endl]
  ++ (if negb (size Y0 =? 0)%nat
      then when_verbose [text " Using user-supplied initial iterate Y0"; endl]
      else if use_chordal_initialization options
           then when_verbose [text " Computing chordal initialization ... "]
                ++ when_verbose [text "elapsed computation time: ";
                                 double chordal_init_elapsed_time; text " seconds"; endl]
           else when_verbose [text " Sampling a random initialization ... "; endl])
  ++ when_verbose [text " SE-Sync initialization finished; elapsed time: ";
                   double (initialization_time (SESyncResults start)); text " seconds"; endl;
                   endl]
  ++ when_verbose [text "Initial objective value: ";
                   double (evaluate_objective problem (relaxation_rank start) (Y start)); endl].

(** The body of the loop at level [r], entered in state [s] (lines 269-374);
    nothing when the line search of [escape_saddle] does not return. *)
Definition level_output (r : Z) (s : State) : option (list Item) :=
  let '(TNTResults, _, _) :=
    TNT_solve world problem (relaxation_rank s) (Y s) (NablaF_Y s) (iterates (SESyncResults s))
      (has_precon options) (params options) (log_iterates options) in
  let s := run_TNT RelativePoseMeasurement world measurements options s in
  let solved :=
    when_verbose (level_header r)
    ++ when_verbose (critical_point_found (SDPval (SESyncResults s))
                       (TNT.elapsed_time TNTResults)) in
  let '(eigenvalue_convergence, s) :=
    min_eig RelativePoseMeasurement world measurements options s in
  let eig_elapsed_time := Stopwatch_tock world (calls s) in
  let R := SESyncResults s in
  if negb eigenvalue_convergence then Some (solved ++ eigenvalue_warning)
  else if gt (lambda_min R) (- min_eig_num_tol options)%float
  then Some (solved ++ when_verbose (optimum_found (lambda_min R) eig_elapsed_time))
  else
    let detected := when_verbose (saddle_detected (lambda_min R) eig_elapsed_time) in
    match escape_saddle (norm world) problem (uint (r + 1)) (Yopt R) (lambda_min R) (v_min R)
            (grad_norm_tol options) n_search empty with
    | None => None
    | Some (true, _) => Some (solved ++ detected)
    | Some (false, _) => Some (solved ++ detected ++ line_search_warning)
    end.

(** The loop, entered at level [r] in state [s]. *)
Fixpoint staircase_output (levels : nat) (r : Z) (s : State) : option (list Item) :=
  if (r <=? rmax options)%Z then
    match levels with
    | O => None
    | S levels' =>
        match level_output r s,
              staircase_level RelativePoseMeasurement world measurements options n_search r s
        with
        | Some out, Some (Break _) => Some out
        | Some out, Some (Next s') =>
            option_map (app out) (staircase_output levels' (uint (r + 1)) s')
        | _, _ => None
        end
    end
  else Some [].

(** Lines 380-448; [s] is the state in which the loop was left. *)
Definition post_processing (s : State) : list Item :=
  let R := SESyncResults (post_process RelativePoseMeasurement world measurements options s) in
  when_verbose [endl; endl; text "===== END RIEMANNIAN STAIRCASE ====="; endl; endl;
                text (status_message (status (SESyncResults s))); endl]
  ++ when_verbose [endl; text "Rounding solution ... "]
  ++ when_verbose [text "elapsed computation time: "; double rounding_elapsed_time;
                   text " seconds"; endl]
  ++ when_verbose [text "Value of SDP solution F(Y): "; double (SDPval R); endl;
                   text "Norm of Riemannian gradient grad F(Y): "; double (gradnorm R); endl;
                   text "Minimum eigenvalue of certificate matrix S - Lambda(Y): ";
                   double (lambda_min R); endl;
                   text "Value of rounded pose estimates F(x): "; double (Fxhat R); endl;
                   text "Suboptimality bound of recovered pose estimate: ";
                   double (Fxhat R - SDPval R); endl;
                   text "Total elapsed computation time: "; double (total_computation_time R);
                   text " seconds"; endl; endl;
                   text "===== END SE-SYNC ====="; endl; endl].

(** Everything [SESync] has written when it returns. *)
Definition SESync_output (levels : nat) : option (list Item) :=
  match staircase_output levels (r0 options) start,
        staircase RelativePoseMeasurement world measurements options n_search levels
          (r0 options) start
  with
  | Some out, Some s => Some (settings ++ initialization ++ out ++ post_processing s)
  | _, _ => None
  end.

End Output.

(** The four sentences on the status. *)
Definition is_status_message (i : Item) : bool :=
  match i with
  | text s =>
      String.eqb s (status_message GLOBAL_OPT) || String.eqb s (status_message EIG_IMPRECISION)
      || String.eqb s (status_message SADDLE_POINT) || String.eqb s (status_message RS_ITER_LIMIT)
  | _ => false
  end.

(** The two warnings. *)
Definition is_warning (i : Item) : bool :=
  match i with
  | text s => String.eqb s eigenvalue_warning_text || String.eqb s line_search_warning_text
  | _ => false
  end.

(** The levels that the banners of the loop announce. *)
Fixpoint levels_announced (out : list Item) : list Z :=
  match out with
  | [] => []
  | text s :: out' =>
      match out' with
      | integer r :: _ =>
          if String.eqb s level_banner then r :: levels_announced out' else levels_announced out'
      | _ => levels_announced out'
      end
  | _ :: out' => levels_announced out'
  end.

End Console.

(** ** Variants of the small world *)

Module Variant.

(** The options of the small world, with [verbose] set. *)
Definition verbose_options (r0 rmax : Z) (min_eig_num_tol : float) : SESyncOpts :=
  {| grad_norm_tol := 1e-2;
     rel_func_decrease_tol := 1e-7;
     stepsize_tol := 1e-3;
     max_iterations := 1000;
     max_tCG_iterations := 10000;
     formulation := Simplified;
     r0 := r0;
     rmax := rmax;
     max_eig_iterations := 10000;
     min_eig_num_tol := min_eig_num_tol;
     num_Lanczos_vectors := 20;
     use_Cholesky := true;
     precon := Preconditioner.IncompleteCholesky;
     use_chordal_initialization := true;
     log_iterates := false;
     verbose := true;
     num_threads := 1 |}.

(** The options of the small world, with a NaN for [grad_norm_tol]. *)
Definition nan_gradient_options (r0 rmax : Z) (min_eig_num_tol : float) : SESyncOpts :=
  {| grad_norm_tol := nan;
     rel_func_decrease_tol := 1e-7;
     stepsize_tol := 1e-3;
     max_iterations := 1000;
     max_tCG_iterations := 10000;
     formulation := Simplified;
     r0 := r0;
     rmax := rmax;
     max_eig_iterations := 10000;
     min_eig_num_tol := min_eig_num_tol;
     num_Lanczos_vectors := 20;
     use_Cholesky := true;
     precon := Preconditioner.IncompleteCholesky;
     use_chordal_initialization := true;
     log_iterates := false;
     verbose := false;
     num_threads := 1 |}.

(** A problem whose rounding answers one row of two columns, the shape of
    [[t | R]] for one pose in dimension one. *)
Definition pose_problem (script : Z -> bool * float * Vector) : SESyncProblem :=
  {| evaluate_objective := fun _ M => Fixture.total M;
     Euclidean_gradient := fun _ M => M;
     Riemannian_gradient := fun _ M => M;
     Riemannian_gradient_at := fun _ _ G => G;
     Riemannian_Hessian_vector_product := fun _ _ _ V => V;
     retract := fun _ M V => Fixture.plus M V;
     precondition := fun _ _ V => V;
     chordal_initialization := fun rank => Fixture.constant (Z.to_nat rank) 2 1%float;
     random_sample := fun rank => Fixture.constant (Z.to_nat rank) 2 0.5%float;
     compute_S_minus_Lambda_min_eig := fun rank _ _ _ _ _ _ => script rank;
     round_solution := fun _ M => mkMatrix 1 2 [[Fixture.total M; 1%float]];
     num_poses := 1;
     dimension := 1 |}.

Definition pose_world (script : Z -> bool * float * Vector) : Collaborators unit :=
  {| SESyncProblem_new := fun _ _ _ _ => pose_problem script;
     TNT_solve := Fixture.solver;
     norm := Fixture.norm1;
     Stopwatch_tock := fun calls => int_to_double (Z.of_nat (length calls));
     indeterminate := fun _ => nan |}.

End Variant.

(** * Properties *)

(** ** Order facts on binary64 floats *)

Module FloatFacts.

Lemma SFcompare_antisym (x y : spec_float) :
  SFcompare y x = option_map CompOpp (SFcompare x y).
Proof.
  destruct x as [sx|sx| |sx mx ex], y as [sy|sy| |sy my ey]; simpl;
    try reflexivity;
    try (destruct sx; reflexivity); try (destruct sy; reflexivity);
    try (destruct sx, sy; reflexivity).
  destruct sx, sy; simpl; try reflexivity;
    rewrite (Z.compare_antisym ex ey);
    destruct (ex ?= ey)%Z; simpl; try reflexivity;
    pose proof (Pos.compare_cont_antisym mx my Eq) as H; simpl in H;
    change (PosDef.Pos.compare_cont Eq my mx) with (Pos.compare_cont Eq my mx);
    rewrite <- H; reflexivity.
Qed.

Lemma SFcompare_refl (x : spec_float) :
  x <> S754_nan -> SFcompare x x = Some Eq.
Proof.
  destruct x as [s|s| |s m e]; simpl; intro H; try reflexivity; try congruence.
  - destruct s; reflexivity.
  - rewrite Z.compare_refl.
    change (PosDef.Pos.compare_cont Eq m m) with (Pos.compare_cont Eq m m).
    rewrite Pos.compare_cont_refl. destruct s; reflexivity.
Qed.

Lemma SFcompare_total (x y : spec_float) :
  x <> S754_nan -> y <> S754_nan -> SFcompare x y <> None.
Proof.
  destruct x as [sx|sx| |sx mx ex], y as [sy|sy| |sy my ey]; simpl; congruence.
Qed.

Lemma is_nan_spec (x : float) : is_nan x = false <-> Prim2SF x <> S754_nan.
Proof.
  unfold is_nan. rewrite FloatAxioms.eqb_spec. unfold SFeqb. split.
  - intros H E. rewrite E in H. discriminate.
  - intro H. rewrite SFcompare_refl by exact H. reflexivity.
Qed.

Lemma Prim2SF_zero : Prim2SF 0 = S754_zero false.
Proof. reflexivity. Qed.

Ltac to_spec :=
  unfold gt, is_nan in *;
  repeat rewrite ?FloatAxioms.ltb_spec, ?FloatAxioms.leb_spec, ?FloatAxioms.eqb_spec,
    ?FloatAxioms.opp_spec, ?FloatAxioms.abs_spec, ?Prim2SF_zero in *;
  unfold SFltb, SFleb, SFeqb in *.

(** On numbers, [!(x > y)] is [x <= y]. *)
Lemma not_gt_iff_le (x y : float) :
  is_nan x = false -> is_nan y = false ->
  (gt x y = false <-> (x <=? y)%float = true).
Proof.
  rewrite !is_nan_spec. unfold gt.
  rewrite FloatAxioms.ltb_spec, FloatAxioms.leb_spec.
  intros Hx Hy. unfold SFltb, SFleb.
  rewrite (SFcompare_antisym (Prim2SF x) (Prim2SF y)).
  pose proof (SFcompare_total _ _ Hx Hy) as T.
  destruct (SFcompare (Prim2SF x) (Prim2SF y)) as [[]|]; simpl; try tauto; split; congruence.
Qed.

(** A NaN is greater than nothing. *)
Lemma nan_not_gt (x y : float) : is_nan x = true -> gt x y = false.
Proof.
  intro H. destruct (gt x y) eqn:G; [|reflexivity].
  assert (N : is_nan x = false).
  { apply is_nan_spec. intro E. revert G. unfold gt.
    rewrite FloatAxioms.ltb_spec, E. unfold SFltb.
    destruct (Prim2SF y); discriminate. }
  congruence.
Qed.

Lemma opp_positive (tol : float) :
  (0 <? tol)%float = true -> (- tol <? 0)%float = true.
Proof.
  to_spec. destruct (Prim2SF tol) as [s|s| |s m e]; simpl; try discriminate;
    destruct s; simpl; try discriminate; reflexivity.
Qed.

Lemma opp_positive_not_nan (tol : float) :
  (0 <? tol)%float = true -> is_nan (- tol) = false.
Proof.
  intro H. apply is_nan_spec. revert H. to_spec.
  destruct (Prim2SF tol) as [s|s| |s m e]; simpl; try discriminate; intros _ ?; discriminate.
Qed.

(** With a positive tolerance, an eigenvalue that fails [lam > -tol] is not
    a zero, whatever else it is. *)
Lemma guard_excludes_zero (tol lam : float) :
  (0 <? tol)%float = true -> gt lam (- tol) = false -> (abs lam =? 0)%float = false.
Proof.
  to_spec.
  destruct (Prim2SF tol) as [s|s| |s m e], (Prim2SF lam) as [s'|s'| |s' m' e']; simpl;
    try discriminate; try reflexivity;
    destruct s; simpl; try discriminate; try reflexivity.
Qed.

Lemma below_threshold_divisor_positive (tol lam : float) :
  (0 <? tol)%float = true -> (lam <=? - tol)%float = true -> (0 <? abs lam)%float = true.
Proof.
  to_spec.
  destruct (Prim2SF tol) as [s|s| |s m e], (Prim2SF lam) as [s'|s'| |s' m' e']; simpl;
    try discriminate; try reflexivity;
    destruct s, s'; simpl; try discriminate; try reflexivity.
Qed.

Lemma int_to_double_200 : int_to_double (2 * 100) = 200%float.
Proof. reflexivity. Qed.

Lemma int_to_double_2 : int_to_double 2 = 2%float.
Proof. reflexivity. Qed.

Lemma halvings_succ (k : nat) (a : float) : halvings (S k) a = halve (halvings k a).
Proof.
  revert a. induction k as [|k IH]; intro a; [reflexivity|].
  change (halvings (S (S k)) a) with (halvings (S k) (halve a)).
  rewrite IH. reflexivity.
Qed.

(** *** Halving *)

Local Open Scope Z_scope.

Lemma Prim2SF_two : Prim2SF 2 = S754_finite false 4503599627370496 (-51).
Proof. reflexivity. Qed.

Lemma Prim2SF_alpha_min : Prim2SF alpha_min = S754_finite false 4722366482869645 (-72).
Proof. reflexivity. Qed.

Lemma Prim2SF_infinity : Prim2SF infinity = S754_infinity false.
Proof. reflexivity. Qed.

Lemma halve_div (a : float) : halve a = (a / 2)%float.
Proof. unfold halve. rewrite int_to_double_2. reflexivity. Qed.

Lemma digits2_pos_upper (p : positive) : Z.pos p < 2 ^ Z.pos (digits2_pos p).
Proof.
  induction p as [p IH|p IH|]; cbn [digits2_pos];
    rewrite ?Pos2Z.inj_succ, ?Z.pow_succ_r by lia; try lia.
Qed.

Lemma digits2_pos_le (p : positive) (n : Z) :
  0 <= n -> Z.pos p < 2 ^ n -> Z.pos (digits2_pos p) <= n.
Proof.
  revert n. induction p as [p IH|p IH|]; intros n Hn H; cbn [digits2_pos].
  - assert (1 <= n) by (destruct (Z.eq_dec n 0) as [->|]; [cbn in H; lia|lia]).
    replace n with (Z.succ (n - 1)) in H by lia. rewrite Z.pow_succ_r in H by lia.
    rewrite Pos2Z.inj_succ. specialize (IH (n - 1)). lia.
  - assert (1 <= n) by (destruct (Z.eq_dec n 0) as [->|]; [cbn in H; lia|lia]).
    replace n with (Z.succ (n - 1)) in H by lia. rewrite Z.pow_succ_r in H by lia.
    rewrite Pos2Z.inj_succ. specialize (IH (n - 1)). lia.
  - destruct (Z.eq_dec n 0) as [->|]; [cbn in H; lia|lia].
Qed.

Lemma Zdigits2_le (z : Z) (n : Z) : 0 <= n -> 0 <= z < 2 ^ n -> 0 <= Zdigits2 z <= n.
Proof.
  intros Hn Hz. destruct z as [|p|p]; cbn [Zdigits2]; [lia| |lia].
  split; [lia|]. apply digits2_pos_le; lia.
Qed.

Lemma Zdigits2_nonneg (z : Z) : 0 <= Zdigits2 z.
Proof. destruct z; cbn [Zdigits2]; lia. Qed.

(** The exponent of a float is between -1074 and 971, its mantissa is below
    [2^53], and has 53 digits above the least exponent. *)
Lemma valid_normal (x : float) (s : bool) (m : positive) (e : Z) :
  Prim2SF x = S754_finite s m e ->
  -1074 <= e <= 971 /\ (-1074 < e -> digits2_pos m = 53%positive) /\ Z.pos m < 2 ^ 53.
Proof.
  intro Hx.
  pose proof (FloatAxioms.Prim2SF_valid x) as V. rewrite Hx in V.
  cbn [SpecFloat.valid_binary] in V. unfold bounded, canonical_mantissa in V.
  apply andb_true_iff in V. destruct V as [C V].
  apply Z.leb_le in V. apply Z.eqb_eq in C.
  unfold fexp, emin, prec, emax in *.
  pose proof (digits2_pos_upper m) as U.
  assert (D : Z.pos (digits2_pos m) <= 53) by lia.
  split; [lia|]. split.
  - intro He. assert (Z.pos (digits2_pos m) = 53) by lia. congruence.
  - apply Z.lt_le_trans with (1 := U). apply Z.pow_le_mono_r; lia.
Qed.

(** Halving a normal number takes one from its exponent. *)
Lemma halve_normal (x : float) (s : bool) (m : positive) (e : Z) :
  Prim2SF x = S754_finite s m e ->
  digits2_pos m = 53%positive ->
  -1073 < e ->
  Prim2SF (x / 2)%float = S754_finite s m (e - 1).
Proof.
  intros Hx Hd He.
  destruct (valid_normal x s m e Hx) as (V & _ & _).
  rewrite FloatAxioms.div_spec, Hx, Prim2SF_two.
  unfold FloatAxioms.SF64div, SFdiv, SFdiv_core_binary.
  cbn [Zdigits2]. rewrite Hd.
  change (Z.pos (digits2_pos 4503599627370496)) with 53.
  change IntDef.Z.min with Z.min. change IntDef.Z.div_eucl with Z.div_eucl.
  change IntDef.Z.shiftl with Z.shiftl.
  replace (Z.min (fexp prec emax (53 + e - (53 + -51))) (e - -51)) with (e - 2)
    by (unfold fexp, emin, prec, emax; lia).
  replace (e - -51 - (e - 2)) with 53 by lia.
  rewrite Z.shiftl_mul_pow2 by lia.
  replace (Z.pos m * 2 ^ 53) with (Z.pos m~0 * 4503599627370496) by lia.
  pose proof (Z_div_mod (Z.pos m~0 * 4503599627370496) 4503599627370496 eq_refl) as DM.
  destruct (Z.div_eucl (Z.pos m~0 * 4503599627370496) 4503599627370496) as [q r].
  assert (q = Z.pos m~0 /\ r = 0) as [-> ->] by nia.
  change (new_location 4503599627370496 0) with loc_Exact.
  unfold binary_round_aux, shr_fexp.
  cbn [Zdigits2 digits2_pos]. rewrite Hd.
  change (Z.pos (Pos.succ 53)) with 54.
  replace (fexp prec emax (54 + (e - 2)) - (e - 2)) with 1
    by (unfold fexp, emin, prec, emax; lia).
  cbn [shr shr_record_of_loc iter_pos shr_1 orb shr_m loc_of_shr_record round_nearest_even].
  cbn [Zdigits2]. rewrite Hd.
  replace (fexp prec emax (53 + (e - 2 + 1)) - (e - 2 + 1)) with 0
    by (unfold fexp, emin, prec, emax; lia).
  cbn [shr shr_m shr_record_of_loc].
  replace (e - 2 + 1 <=? emax - prec) with true
    by (symmetry; apply Z.leb_le; unfold prec, emax; lia).
  rewrite xorb_false_r. f_equal. lia.
Qed.

Lemma round_nearest_even_bounds (q : Z) (l : location) :
  q <= round_nearest_even q l <= q + 1.
Proof.
  destruct l as [|[]]; cbn [round_nearest_even]; try lia.
  destruct (Z.even q); lia.
Qed.

Lemma binary_round_aux_sign (s : bool) (m e : Z) (l : location) :
  Spec.has_sign s (binary_round_aux prec emax s m e l).
Proof.
  unfold binary_round_aux.
  destruct (shr_fexp prec emax m e l) as [mrs' e'].
  destruct (shr_fexp prec emax _ e' loc_Exact) as [mrs'' e''].
  destruct (shr_m mrs''); cbn [Spec.has_sign]; auto.
  destruct (e'' <=? emax - prec); cbn [Spec.has_sign]; auto.
Qed.

(** Halving a number at one of the two least exponents gives a zero or a
    number at one of these exponents. *)
Lemma halve_tiny (x : float) (s : bool) (m : positive) (e : Z) :
  Prim2SF x = S754_finite s m e ->
  e <= -1073 ->
  match Prim2SF (x / 2)%float with
  | S754_finite _ _ e' => e' <= -1073
  | S754_infinity _ => False
  | _ => True
  end.
Proof.
  intros Hx He.
  destruct (valid_normal x s m e Hx) as (Hr & _ & Hm).
  rewrite FloatAxioms.div_spec, Hx, Prim2SF_two.
  unfold FloatAxioms.SF64div, SFdiv, SFdiv_core_binary.
  change IntDef.Z.min with Z.min. change IntDef.Z.div_eucl with Z.div_eucl.
  change IntDef.Z.shiftl with Z.shiftl.
  pose proof (Zdigits2_le (Z.pos m) 53 ltac:(lia) ltac:(lia)) as Dm.
  change (Zdigits2 (Z.pos 4503599627370496)) with 53.
  replace (Z.min (fexp prec emax (Zdigits2 (Z.pos m) + e - (53 + -51))) (e - -51))
    with (-1074) by (unfold fexp, emin, prec, emax; lia).
  assert (Hs : exists p, e - -51 - -1074 = Z.pos p /\ 51 <= Z.pos p <= 52).
  { destruct (e - -51 - -1074) as [|p|p] eqn:E; try lia. exists p. lia. }
  destruct Hs as (p & -> & Hp).
  rewrite Z.shiftl_mul_pow2 by lia.
  pose proof (Z_div_mod (Z.pos m * 2 ^ Z.pos p) 4503599627370496 eq_refl) as DM.
  destruct (Z.div_eucl (Z.pos m * 2 ^ Z.pos p) 4503599627370496) as [q r].
  assert (Hq : 0 <= q < 2 ^ 53).
  { assert (P : 2 ^ Z.pos p <= 2 ^ 52) by (apply Z.pow_le_mono_r; lia).
    change (2 ^ 52) with 4503599627370496 in P.
    assert (0 < 2 ^ Z.pos p) by (apply Z.pow_pos_nonneg; lia).
    nia. }
  generalize (new_location 4503599627370496 r). intro l.
  unfold binary_round_aux, shr_fexp.
  pose proof (Zdigits2_le q 53 ltac:(lia) Hq) as Dq.
  assert (N1 : fexp prec emax (Zdigits2 q + -1074) - -1074 = 0)
    by (unfold fexp, emin, prec, emax; lia).
  rewrite N1. cbn [shr].
  assert (L : loc_of_shr_record (shr_record_of_loc q l) = l) by (destruct l as [|[]]; reflexivity).
  assert (M : shr_m (shr_record_of_loc q l) = q) by (destruct l as [|[]]; reflexivity).
  rewrite L, M.
  pose proof (round_nearest_even_bounds q l) as B.
  set (mr := round_nearest_even q l) in *.
  pose proof (Zdigits2_le mr 54 ltac:(lia) ltac:(lia)) as Dr.
  assert (N2 : fexp prec emax (Zdigits2 mr + -1074) - -1074 <= 1)
    by (unfold fexp, emin, prec, emax; lia).
  destruct (fexp prec emax (Zdigits2 mr + -1074) - -1074) as [|n2|n2] eqn:E2; cbn [shr].
  - cbn [shr_record_of_loc shr_m]. destruct mr; cbn; auto; try lia.
  - destruct (shr_m (iter_pos shr_1 n2 (shr_record_of_loc mr loc_Exact))); auto.
    destruct (-1074 + Z.pos n2 <=? emax - prec) eqn:Le; [lia|].
    apply Z.leb_gt in Le. unfold emax, prec in Le. lia.
  - cbn [shr_record_of_loc shr_m]. destruct mr; cbn; auto; try lia.
Qed.

Lemma at_floor_not_gt (a : float) : Spec.at_floor (Prim2SF a) -> gt a alpha_min = false.
Proof.
  unfold gt. rewrite FloatAxioms.ltb_spec, Prim2SF_alpha_min. unfold SFltb.
  destruct (Prim2SF a) as [s|s| |s m e]; cbn [Spec.at_floor SFcompare]; try reflexivity.
  - intros ->. reflexivity.
  - intros [->|He]; [reflexivity|].
    destruct s; [reflexivity|].
    destruct (Z.compare_spec (-72) e); lia.
Qed.

(** Half of a NaN, of a zero or of a negative is not above [alpha_min]. *)
Lemma halve_nonpositive (a : float) :
  match Prim2SF a with
  | S754_infinity s | S754_finite s _ _ => s = true
  | _ => True
  end ->
  Spec.at_floor (Prim2SF (halve a)).
Proof.
  rewrite halve_div, FloatAxioms.div_spec, Prim2SF_two.
  unfold FloatAxioms.SF64div, SFdiv.
  destruct (Prim2SF a) as [s|s| |s m e]; cbn [Spec.at_floor]; auto.
  - intros ->. reflexivity.
  - intros ->. cbn [xorb].
    destruct (SFdiv_core_binary prec emax (Z.pos m) e 4503599627370496 (-51)) as [[mz ez] lz].
    pose proof (binary_round_aux_sign true mz ez lz) as S.
    destruct (binary_round_aux prec emax true mz ez lz);
      cbn [Spec.has_sign Spec.at_floor] in *; auto.
Qed.

(** So is half of a positive number whose exponent is that of [alpha_min] or
    less. *)
Lemma halve_small (a : float) (m : positive) (e : Z) :
  Prim2SF a = S754_finite false m e -> e <= -72 -> Spec.at_floor (Prim2SF (halve a)).
Proof.
  intros Ha He. rewrite halve_div.
  destruct (Z_le_gt_dec e (-1073)) as [Ht|Hn].
  - pose proof (halve_tiny a false m e Ha Ht) as T.
    destruct (Prim2SF (a / 2)%float) as [s'|s'| |s' m' e']; cbn [Spec.at_floor];
      [exact I|contradiction|exact I|right; lia].
  - destruct (valid_normal a false m e Ha) as (_ & Hd & _).
    rewrite (halve_normal a false m e Ha (Hd ltac:(lia)) ltac:(lia)).
    cbn [Spec.at_floor]. right. lia.
Qed.

Lemma halvings_reach_floor_from (n : nat) :
  forall (a : float) (m : positive) (e : Z),
    Prim2SF a = S754_finite false m e -> e <= -72 + Z.of_nat n ->
    exists k, (1 <= k <= S n)%nat /\ gt (halvings k a) alpha_min = false.
Proof.
  induction n as [|n IH]; intros a m e Ha He.
  - exists 1%nat. split; [lia|]. apply at_floor_not_gt, (halve_small a m e Ha). lia.
  - destruct (Z_le_gt_dec e (-72 + Z.of_nat n)) as [Hs|Hb].
    + destruct (IH a m e Ha Hs) as (k & Hk & G). exists k. split; [lia|exact G].
    + destruct (valid_normal a false m e Ha) as (_ & Hd & _).
      pose proof (halve_normal a false m e Ha (Hd ltac:(lia)) ltac:(lia)) as Hh.
      rewrite <- halve_div in Hh.
      destruct (IH (halve a) m (e - 1) Hh ltac:(lia)) as (k & Hk & G).
      exists (S k). split; [lia|exact G].
Qed.

(** Every step length but [+infinity] fails [alpha > alpha_min] after 1044
    halvings at most. *)
Lemma halvings_reach_floor (a : float) :
  (a =? infinity)%float = false ->
  exists k, (1 <= k <= 1044)%nat /\ gt (halvings k a) alpha_min = false.
Proof.
  rewrite FloatAxioms.eqb_spec, Prim2SF_infinity. unfold SFeqb. intro Hinf.
  destruct (Prim2SF a) as [s|s| |s m e] eqn:Ha.
  - exists 1%nat. split; [lia|]. apply at_floor_not_gt, halve_nonpositive. rewrite Ha. exact I.
  - destruct s; [|discriminate].
    exists 1%nat. split; [lia|]. apply at_floor_not_gt, halve_nonpositive. rewrite Ha.
    reflexivity.
  - exists 1%nat. split; [lia|]. apply at_floor_not_gt, halve_nonpositive. rewrite Ha. exact I.
  - destruct s.
    + exists 1%nat. split; [lia|]. apply at_floor_not_gt, halve_nonpositive. rewrite Ha.
      reflexivity.
    + destruct (valid_normal a false m e Ha) as (Hr & _ & _).
      destruct (halvings_reach_floor_from (Z.to_nat (e + 72)) a m e Ha ltac:(lia))
        as (k & Hk & G).
      exists k. split; [lia|exact G].
Qed.

(** Halving [+infinity] leaves it where it is. *)
Lemma halvings_infinity (k : nat) : halvings k infinity = infinity.
Proof. induction k as [|k IH]; [reflexivity|]. cbn [halvings]. exact IH. Qed.

(** *** Scaling by two commutes with rounding *)

Lemma shr_fexp_shift (m e : Z) (l : location) :
  -1021 <= e ->
  shr_fexp prec emax m (e + 1) l =
  (fst (shr_fexp prec emax m e l), snd (shr_fexp prec emax m e l) + 1).
Proof.
  intro He. unfold shr_fexp.
  pose proof (Zdigits2_nonneg m) as D.
  replace (fexp prec emax (Zdigits2 m + (e + 1)) - (e + 1))
    with (fexp prec emax (Zdigits2 m + e) - e)
    by (unfold fexp, emin, prec, emax; lia).
  unfold shr. destruct (fexp prec emax (Zdigits2 m + e) - e); cbn [fst snd]; f_equal; lia.
Qed.

Lemma shr_fexp_exp_ge (m e : Z) (l : location) : e <= snd (shr_fexp prec emax m e l).
Proof.
  unfold shr_fexp, shr.
  destruct (fexp prec emax (Zdigits2 m + e) - e); cbn [snd]; lia.
Qed.

Lemma binary_round_aux_shift (s : bool) (m e : Z) (l : location) :
  -1021 <= e ->
  binary_round_aux prec emax s m (e + 1) l
  = Spec.exp_succ (binary_round_aux prec emax s m e l).
Proof.
  intro He. unfold binary_round_aux.
  rewrite shr_fexp_shift by exact He.
  pose proof (shr_fexp_exp_ge m e l) as G1.
  destruct (shr_fexp prec emax m e l) as [r1 e1]. cbn [fst snd] in *.
  rewrite shr_fexp_shift by lia.
  destruct (shr_fexp prec emax _ e1 loc_Exact) as [r2 e2]. cbn [fst snd].
  destruct (shr_m r2); cbn [Spec.exp_succ]; try reflexivity.
  change (emax - prec) with 971.
  destruct (e2 <=? 971) eqn:L2; cbn [Spec.exp_succ]; destruct (e2 + 1 <=? 971) eqn:L3;
    try reflexivity.
  apply Z.leb_le in L3. apply Z.leb_gt in L2. lia.
Qed.

Lemma binary_round_aux_exp_ge (s : bool) (m e : Z) (l : location) :
  match binary_round_aux prec emax s m e l with
  | S754_finite _ _ e' => e <= e'
  | _ => True
  end.
Proof.
  unfold binary_round_aux.
  pose proof (shr_fexp_exp_ge m e l) as G1.
  destruct (shr_fexp prec emax m e l) as [r1 e1]. cbn [snd] in G1.
  match goal with |- context [shr_fexp prec emax ?x e1 loc_Exact] =>
    pose proof (shr_fexp_exp_ge x e1 loc_Exact) as G2;
    destruct (shr_fexp prec emax x e1 loc_Exact) as [r2 e2] eqn:E2 end.
  cbn [snd] in G2.
  destruct (shr_m r2); auto. destruct (e2 <=? emax - prec); auto.
  exact (Z.le_trans _ _ _ G1 G2).
Qed.

Lemma SFdiv_shift (s1 s2 : bool) (m1 m2 : positive) (e1 e2 : Z) :
  Z.pos m1 < 2 ^ 53 -> Z.pos m2 < 2 ^ 53 -> -916 <= e1 - e2 ->
  SFdiv prec emax (S754_finite s1 m1 (e1 + 1)) (S754_finite s2 m2 e2) =
  Spec.exp_succ (SFdiv prec emax (S754_finite s1 m1 e1) (S754_finite s2 m2 e2)).
Proof.
  intros H1 H2 He. unfold SFdiv, SFdiv_core_binary.
  change IntDef.Z.min with Z.min.
  pose proof (Zdigits2_le (Z.pos m1) 53 ltac:(lia) ltac:(lia)) as D1.
  pose proof (Zdigits2_le (Z.pos m2) 53 ltac:(lia) ltac:(lia)) as D2.
  assert (P1 : 1 <= Zdigits2 (Z.pos m1)) by (cbn [Zdigits2]; lia).
  set (d1 := Zdigits2 (Z.pos m1)) in *. set (d2 := Zdigits2 (Z.pos m2)) in *.
  replace (Z.min (fexp prec emax (d1 + (e1 + 1) - (d2 + e2))) (e1 + 1 - e2))
    with (Z.min (fexp prec emax (d1 + e1 - (d2 + e2))) (e1 - e2) + 1)
    by (unfold fexp, emin, prec, emax; lia).
  set (e' := Z.min (fexp prec emax (d1 + e1 - (d2 + e2))) (e1 - e2)).
  assert (He' : -1021 <= e') by (unfold e', fexp, emin, prec, emax; lia).
  replace (e1 + 1 - e2 - (e' + 1)) with (e1 - e2 - e') by lia.
  destruct (IntDef.Z.div_eucl _ (Z.pos m2)) as [q r].
  apply binary_round_aux_shift. exact He'.
Qed.

Lemma SFdiv_exp_ge (s1 s2 : bool) (m1 m2 : positive) (e1 e2 : Z) :
  Z.pos m1 < 2 ^ 53 -> Z.pos m2 < 2 ^ 53 -> -916 <= e1 - e2 ->
  match SFdiv prec emax (S754_finite s1 m1 e1) (S754_finite s2 m2 e2) with
  | S754_finite _ _ e => -1021 <= e
  | _ => True
  end.
Proof.
  intros H1 H2 He. unfold SFdiv, SFdiv_core_binary.
  change IntDef.Z.min with Z.min.
  pose proof (Zdigits2_le (Z.pos m1) 53 ltac:(lia) ltac:(lia)) as D1.
  pose proof (Zdigits2_le (Z.pos m2) 53 ltac:(lia) ltac:(lia)) as D2.
  assert (P1 : 1 <= Zdigits2 (Z.pos m1)) by (cbn [Zdigits2]; lia).
  set (d1 := Zdigits2 (Z.pos m1)) in *. set (d2 := Zdigits2 (Z.pos m2)) in *.
  set (e' := Z.min (fexp prec emax (d1 + e1 - (d2 + e2))) (e1 - e2)).
  assert (He' : -1021 <= e') by (unfold e', fexp, emin, prec, emax; lia).
  destruct (IntDef.Z.div_eucl _ (Z.pos m2)) as [q r].
  pose proof (binary_round_aux_exp_ge (xorb s1 s2) q e' (new_location (Z.pos m2) r)) as G.
  destruct (binary_round_aux prec emax (xorb s1 s2) q e' (new_location (Z.pos m2) r)); auto.
  exact (Z.le_trans _ _ _ He' G).
Qed.

Lemma Prim2SF_200 : Prim2SF 200 = S754_finite false 7036874417766400 (-45).
Proof. reflexivity. Qed.

Lemma Prim2SF_100 : Prim2SF 100 = S754_finite false 7036874417766400 (-46).
Proof. reflexivity. Qed.

Lemma Prim2SF_1em100 : Prim2SF 1e-100 = S754_finite false 7880401239278896 (-385).
Proof. reflexivity. Qed.

Lemma Prim2SF_1e100 : Prim2SF 1e100 = S754_finite false 5147557589468029 280.
Proof. reflexivity. Qed.

(** With a tolerance of [1e-100] or more, an eigenvalue of magnitude [1e100]
    or less and a finite initial step [200 * tol / |lam|], half of the
    initial step is [100 * tol / |lam|]: [200 * tol] is [100 * tol] with the
    next exponent, so is the quotient, and the halving takes the exponent
    back. *)
Lemma half_of_initial_step (tol lam : float) :
  (1e-100 <=? tol)%float = true ->
  (abs lam <=? 1e100)%float = true ->
  (abs (200 * tol / abs lam) <? infinity)%float = true ->
  (200 * tol / abs lam / 2 = 100 * tol / abs lam)%float.
Proof.
  intros H1 H2 H3.
  apply FloatAxioms.Prim2SF_inj.
  pose proof (FloatAxioms.div_spec (200 * tol / abs lam) 2) as E2.
  pose proof (FloatAxioms.div_spec (200 * tol) (abs lam)) as EX.
  pose proof (FloatAxioms.div_spec (100 * tol) (abs lam)) as EQ.
  pose proof (FloatAxioms.mul_spec 200 tol) as E200.
  pose proof (FloatAxioms.mul_spec 100 tol) as E100.
  pose proof (FloatAxioms.abs_spec lam) as EL.
  rewrite Prim2SF_200 in E200. rewrite Prim2SF_100 in E100.
  rewrite Prim2SF_two in E2.
  rewrite FloatAxioms.leb_spec, Prim2SF_1em100 in H1.
  rewrite FloatAxioms.leb_spec, Prim2SF_1e100 in H2.
  rewrite FloatAxioms.ltb_spec, FloatAxioms.abs_spec, Prim2SF_infinity in H3.
  unfold SFleb, SFltb, FloatAxioms.SF64div, FloatAxioms.SF64mul in *.
  pose proof (valid_normal (100 * tol)) as V100.
  pose proof (valid_normal (abs lam)) as VL.
  pose proof (valid_normal (200 * tol / abs lam)) as VX.
  pose proof (halve_normal (200 * tol / abs lam)) as HX.
  set (X := Prim2SF (200 * tol / abs lam)) in *.
  set (Q := Prim2SF (100 * tol / abs lam)) in *.
  set (P := Prim2SF (100 * tol)) in *.
  set (P2 := Prim2SF (200 * tol)) in *.
  set (L := Prim2SF (abs lam)) in *.
  (* the tolerance is a positive number or +infinity *)
  destruct (Prim2SF tol) as [st|st| |st mt et] eqn:ET; cbn [SFcompare] in H1;
    try discriminate; (destruct st; [discriminate|]).
  - (* +infinity: the initial step is not finite *)
    cbn [SFmul xorb] in E200. rewrite E200 in EX.
    destruct (Prim2SF lam) as [sl|sl| |sl ml el]; cbn [SFabs] in EL; rewrite EL in *;
      cbn [SFdiv xorb] in EX; rewrite EX in H3; discriminate.
  - assert (Het : -385 <= et).
    { destruct (Z.compare_spec (-385) et); try lia; discriminate. }
    cbn [SFmul xorb] in E200, E100.
    replace (-45 + et) with (-46 + et + 1) in E200 by lia.
    rewrite binary_round_aux_shift in E200 by lia.
    rewrite <- E100 in E200.
    pose proof (binary_round_aux_exp_ge false (Z.pos (7036874417766400 * mt)) (-46 + et)
                  loc_Exact) as GP.
    rewrite <- E100 in GP. clear E100.
    rewrite E200 in EX. clear E200.
    (* the eigenvalue is a number of magnitude at most 1e100 *)
    destruct (Prim2SF lam) as [sl|sl| |sl ml el]; cbn [SFabs] in EL; rewrite EL in *;
      cbn [SFcompare] in H2; try discriminate.
    + (* zero: the initial step is not finite *)
      destruct P as [sp|sp| |sp mp ep]; cbn [Spec.exp_succ] in EX;
        try (destruct (ep + 1 <=? 971)); cbn [SFdiv] in EX; rewrite EX in H3; discriminate.
    + assert (Hel : el <= 280).
      { destruct (Z.compare_spec el 280); try lia; discriminate. }
      destruct (VL false ml el eq_refl) as (_ & _ & Hml).
      destruct P as [sp|sp| |sp mp ep]; cbn [Spec.exp_succ] in EX.
      * cbn [SFdiv] in EX, EQ. rewrite E2, EX, EQ. cbn [SFdiv].
        rewrite !xorb_false_r. reflexivity.
      * cbn [SFdiv] in EX. rewrite EX in H3. discriminate.
      * cbn [SFdiv] in EX. rewrite EX in H3. discriminate.
      * destruct (ep + 1 <=? 971) eqn:Lp;
          [|cbn [SFdiv] in EX; rewrite EX in H3; discriminate].
        destruct (V100 sp mp ep eq_refl) as (_ & _ & Hmp).
        rewrite SFdiv_shift in EX by (try assumption; lia).
        rewrite <- EQ in EX.
        pose proof (SFdiv_exp_ge sp false mp ml ep el Hmp Hml ltac:(lia)) as GQ.
        rewrite <- EQ in GQ. clear EQ.
        destruct Q as [sq|sq| |sq mq eq]; cbn [Spec.exp_succ] in EX.
        -- rewrite E2, EX. cbn [SFdiv]. rewrite !xorb_false_r. reflexivity.
        -- rewrite EX in H3. discriminate.
        -- rewrite EX in H3. discriminate.
        -- destruct (eq + 1 <=? 971) eqn:Lq; [|rewrite EX in H3; discriminate].
           destruct (VX sq mq (eq + 1) EX) as (_ & Hd & _).
           rewrite (HX sq mq (eq + 1) EX (Hd ltac:(lia)) ltac:(lia)).
           f_equal. lia.
Qed.

End FloatFacts.

(** ** The line search of [escape_saddle] *)

Section LineSearchFacts.

Variable norm : Matrix -> float.
Variable problem : SESyncProblem.
Variable rank : Z.
Variable Y : Matrix.
Variable v_min : Vector.
Variable gradient_tolerance : float.

(** The trial point for a step length, and the two tests of an iteration. *)
Let Ytest (a : float) : Matrix := trial problem rank Y v_min a.
Let ok (a : float) : bool := accepted norm problem rank Y gradient_tolerance (Ytest a).
Let retraction (a : float) : Matrix * Matrix :=
  (Y_augmented rank Y, scale a (Ydot rank Y v_min)).

Local Abbreviation goes_on :=
  (Search.goes_on norm problem rank Y v_min gradient_tolerance).

Lemma line_search_stops (n K : nat) :
  forall (a : float) (calls : list (Matrix * Matrix)),
    1 <= K <= n ->
    (forall j, 1 <= j < K -> goes_on (halvings j a) = true) ->
    goes_on (halvings K a) = false ->
    line_search norm problem rank Y v_min gradient_tolerance n a calls =
    Some {| escape_success := ok (halvings K a);
            Ytest_final := Ytest (halvings K a);
            retractions := calls ++ map (fun j => retraction (halvings j a)) (seq 1 K) |}.
Proof.
  revert K. induction n as [|n IH]; intros K a calls HK Hgo Hstop; [lia|].
  cbn [line_search].
  destruct (Nat.eq_dec K 1) as [->|HK1].
  - change (halvings 1 a) with (halve a) in *.
    unfold Search.goes_on in Hstop. rewrite Hstop. reflexivity.
  - assert (G1 : goes_on (halvings 1 a) = true) by (apply Hgo; lia).
    change (halvings 1 a) with (halve a) in G1.
    unfold Search.goes_on in G1. rewrite G1.
    destruct K as [|K]; [lia|].
    rewrite (IH K (halve a)).
    + change (halvings (S K) a) with (halvings K (halve a)).
      rewrite <- app_assoc. cbn [app].
      do 3 f_equal.
      change (seq 1 (S K)) with (1 :: seq 2 K).
      cbn [map]. change (halvings 1 a) with (halve a). f_equal.
      rewrite <- (seq_shift K 1), map_map. reflexivity.
    + lia.
    + intros j Hj. change (halvings j (halve a)) with (halvings (S j) a). apply Hgo. lia.
    + exact Hstop.
Qed.

Lemma line_search_inv (n : nat) :
  forall (a : float) (calls : list (Matrix * Matrix)) (ls : LineSearch),
    line_search norm problem rank Y v_min gradient_tolerance n a calls = Some ls ->
    exists K,
      1 <= K <= n /\
      (forall j, 1 <= j < K -> goes_on (halvings j a) = true) /\
      goes_on (halvings K a) = false /\
      ls = {| escape_success := ok (halvings K a);
              Ytest_final := Ytest (halvings K a);
              retractions := calls ++ map (fun j => retraction (halvings j a)) (seq 1 K) |}.
Proof.
  induction n as [|n IH]; intros a calls ls H; [discriminate|].
  cbn [line_search] in H.
  fold (Ytest (halve a)) in H. fold (ok (halve a)) in H.
  destruct (negb (ok (halve a)) && gt (halve a) alpha_min) eqn:G.
  - apply IH in H. destruct H as (K & HK & Hgo & Hstop & ->).
    exists (S K). split; [lia|]. split; [|split].
    + intros j Hj. destruct j as [|[|j]]; [lia|exact G|].
      change (halvings (S (S j)) a) with (halvings (S j) (halve a)). apply Hgo. lia.
    + exact Hstop.
    + change (halvings (S K) a) with (halvings K (halve a)).
      rewrite <- app_assoc. cbn [app].
      do 2 f_equal.
      change (seq 1 (S K)) with (1 :: seq 2 K).
      cbn [map]. change (halvings 1 a) with (halve a). f_equal.
      rewrite <- (seq_shift K 1), map_map. reflexivity.
  - exists 1. split; [lia|]. split; [intros j Hj; lia|]. split; [exact G|].
    inversion H. reflexivity.
Qed.

(** More iterations allowed, same answer. *)
Lemma line_search_mono (n m : nat) (a : float) (calls : list (Matrix * Matrix))
  (ls : LineSearch) :
  n <= m ->
  line_search norm problem rank Y v_min gradient_tolerance n a calls = Some ls ->
  line_search norm problem rank Y v_min gradient_tolerance m a calls = Some ls.
Proof.
  intros Hnm H. apply line_search_inv in H. destruct H as (K & HK & Hgo & Hstop & ->).
  apply line_search_stops; [lia|assumption|assumption].
Qed.

(** The search is over as soon as the step length fails [alpha > alpha_min]. *)
Lemma line_search_returns (n : nat) (a : float) (calls : list (Matrix * Matrix)) :
  (exists k, 1 <= k <= n /\ gt (halvings k a) alpha_min = false) ->
  exists ls, line_search norm problem rank Y v_min gradient_tolerance n a calls = Some ls.
Proof.
  revert a calls. induction n as [|n IH]; intros a calls (k & Hk & Hfloor); [lia|].
  cbn [line_search].
  destruct (negb _ && gt (halve a) alpha_min) eqn:G; [|eexists; reflexivity].
  apply IH. destruct k as [|[|k]]; [lia| |].
  - change (halvings 1 a) with (halve a) in Hfloor. rewrite Hfloor in G.
    rewrite andb_false_r in G. discriminate.
  - exists (S k). split; [lia|exact Hfloor].
Qed.

End LineSearchFacts.

Section EscapeSaddleFacts.

Variable norm : Matrix -> float.
Variable problem : SESyncProblem.
Variable rank : Z.
Variable Y : Matrix.
Variable lambda_min : float.
Variable v_min : Vector.
Variable gradient_tolerance : float.

(** The step length, the trial point and the outcome of the test at the
    [k]-th iteration of the line search (the first iteration is [k = 1]). *)
Let alpha (k : nat) : float := halvings k (alpha_init lambda_min gradient_tolerance).
Let Ytest (k : nat) : Matrix := trial problem rank Y v_min (alpha k).
Let accept (k : nat) : bool := accepted norm problem rank Y gradient_tolerance (Ytest k).

Lemma goes_on_split (k : nat) :
  Search.goes_on norm problem rank Y v_min gradient_tolerance (alpha k) = true <->
  accept k = false /\ gt (alpha k) alpha_min = true.
Proof.
  unfold Search.goes_on, accept, Ytest. rewrite andb_true_iff, negb_true_iff. tauto.
Qed.

(** C4, amended. [escape_saddle] starts from [alpha = 200 *
    gradient_tolerance / |lambda_min|] and halves [alpha] before each
    retraction, so that the first trial is made at half of that step and the
    [k]-th at [alpha] halved [k] times, from [Y_augmented] along [alpha *
    Ydot]. It returns [true], with [Yplus] the trial point, at the first
    iteration whose trial point has a smaller objective than [Y] and a
    gradient norm above the tolerance; it returns [false], leaving [Yplus] as
    it was, at the first iteration whose trial is rejected while [alpha >
    alpha_min] fails; and it returns in no other way. For a step length that
    is a number, [alpha > alpha_min] fails exactly when [alpha <= 1e-6]; a
    step length that is NaN fails it too. The first trial step is [100 *
    gradient_tolerance / |lambda_min|] when the tolerance is at least
    [1e-100], the eigenvalue at most [1e100] in magnitude and the initial
    step finite; outside this range the two can differ. Unless the initial
    step is [+infinity], [escape_saddle] returns within 1044 iterations. *)
Theorem escape_saddle_backtracking (n : nat) (Yplus : Matrix) :
  alpha 0 = (200 * gradient_tolerance / abs lambda_min)%float /\
  (forall k, alpha (S k) = (alpha k / 2)%float) /\
  Ytest 1 =
    retract problem rank (Y_augmented rank Y)
      (scale (200 * gradient_tolerance / abs lambda_min / 2)%float (Ydot rank Y v_min)) /\
  (forall K, 1 <= K <= n ->
     (forall j, 1 <= j < K -> accept j = false /\ gt (alpha j) alpha_min = true) ->
     accept K = true ->
     escape_saddle norm problem rank Y lambda_min v_min gradient_tolerance n Yplus
     = Some (true, Ytest K)) /\
  (forall K, 1 <= K <= n ->
     (forall j, 1 <= j < K -> accept j = false /\ gt (alpha j) alpha_min = true) ->
     accept K = false -> gt (alpha K) alpha_min = false ->
     escape_saddle norm problem rank Y lambda_min v_min gradient_tolerance n Yplus
     = Some (false, Yplus)) /\
  (forall b M,
     escape_saddle norm problem rank Y lambda_min v_min gradient_tolerance n Yplus
     = Some (b, M) ->
     exists K, 1 <= K <= n /\
       (forall j, 1 <= j < K -> accept j = false /\ gt (alpha j) alpha_min = true) /\
       (b = true /\ accept K = true /\ M = Ytest K \/
        b = false /\ accept K = false /\ gt (alpha K) alpha_min = false /\ M = Yplus)) /\
  (forall k, is_nan (alpha k) = false ->
     (gt (alpha k) alpha_min = false <-> (alpha k <=? 1e-6)%float = true)) /\
  ((1e-100 <=? gradient_tolerance)%float = true ->
   (abs lambda_min <=? 1e100)%float = true ->
   (abs (alpha 0) <? infinity)%float = true ->
   alpha 1 = (100 * gradient_tolerance / abs lambda_min)%float) /\
  ((alpha 0 =? infinity)%float = false -> 1044 <= n ->
   exists b M,
     escape_saddle norm problem rank Y lambda_min v_min gradient_tolerance n Yplus
     = Some (b, M)) /\
  (forall k,
     Ytest k = retract problem rank (Y_augmented rank Y) (scale (alpha k) (Ydot rank Y v_min))).
Proof.
  assert (A0 : alpha 0 = (200 * gradient_tolerance / abs lambda_min)%float).
  { unfold alpha, alpha_init. cbn [halvings]. rewrite FloatFacts.int_to_double_200. reflexivity. }
  assert (AS : forall k, alpha (S k) = (alpha k / 2)%float).
  { intro k. unfold alpha. rewrite FloatFacts.halvings_succ. unfold halve.
    rewrite FloatFacts.int_to_double_2. reflexivity. }
  split; [exact A0|]. split; [exact AS|].
  split; [|split; [|split; [|split; [|split; [|split; [|split]]]]]].
  - unfold Ytest, trial. rewrite AS, A0. reflexivity.
  - intros K HK Hgo HKok. unfold escape_saddle.
    rewrite (line_search_stops norm problem rank Y v_min gradient_tolerance n K).
    + cbn [escape_success Ytest_final]. fold (alpha K). fold (Ytest K). fold (accept K).
      rewrite HKok. reflexivity.
    + exact HK.
    + intros j Hj. apply goes_on_split, Hgo, Hj.
    + fold (alpha K). unfold Search.goes_on. fold (Ytest K). fold (accept K).
      rewrite HKok. reflexivity.
  - intros K HK Hgo HKok Hfloor. unfold escape_saddle.
    rewrite (line_search_stops norm problem rank Y v_min gradient_tolerance n K).
    + cbn [escape_success Ytest_final]. fold (alpha K). fold (Ytest K). fold (accept K).
      rewrite HKok. reflexivity.
    + exact HK.
    + intros j Hj. apply goes_on_split, Hgo, Hj.
    + fold (alpha K). unfold Search.goes_on. rewrite Hfloor. apply andb_false_r.
  - intros b M H. unfold escape_saddle in H.
    destruct (line_search _ _ _ _ _ _ n _ []) as [ls|] eqn:L; [|discriminate].
    apply line_search_inv in L. destruct L as (K & HK & Hgo & Hstop & ->).
    cbn [escape_success Ytest_final] in H. fold (alpha K) in H, Hstop.
    fold (Ytest K) in H. fold (accept K) in H.
    exists K. split; [exact HK|]. split.
    + intros j Hj. apply goes_on_split, Hgo, Hj.
    + unfold Search.goes_on in Hstop. fold (Ytest K) in Hstop. fold (accept K) in Hstop.
      destruct (accept K); inversion H; subst; [left; auto|right].
      cbn in Hstop. auto.
  - intros k Hk. apply FloatFacts.not_gt_iff_le; [exact Hk|reflexivity].
  - intros Htol Hlam Hfin. rewrite AS, A0. rewrite A0 in Hfin.
    apply FloatFacts.half_of_initial_step; assumption.
  - intros Hinf Hn.
    destruct (FloatFacts.halvings_reach_floor _ Hinf) as (k & Hk & Hfloor).
    destruct (line_search_returns norm problem rank Y v_min gradient_tolerance n
                (alpha_init lambda_min gradient_tolerance) [])
      as [ls Hls]; [exists k; split; [lia|exact Hfloor]|].
    unfold escape_saddle. rewrite Hls.
    destruct (escape_success ls); eexists; eexists; reflexivity.
  - intro k. reflexivity.
Qed.

(** C5. When the problem is at rank [rows Y + 1] and [v_min] has one entry
    per column of [Y], the base point of every retraction of the line search
    is [Y] with one row of zeros appended, and the tangent vector is the step
    length times the matrix that is zero but for its last row, which is
    [v_min]; both are matrices of [rows Y + 1] rows and [cols Y] columns.
    Every iteration of the line search, whether or not the search comes to an
    end, retracts from that point along that direction, with the same two
    matrices, and the point that [escape_saddle] hands back is such a
    retraction. *)
Theorem escape_saddle_augmented_point_and_direction :
  well_formed Y -> rank = (Z.of_nat (rows Y) + 1)%Z -> is_uint rank ->
  length v_min = cols Y ->
  let zero_row := repeat 0%float (cols Y) in
  let Yaug := mkMatrix (rows Y + 1) (cols Y) (coeff Y ++ [zero_row]) in
  let Yd := mkMatrix (rows Y + 1) (cols Y) (repeat zero_row (rows Y) ++ [v_min]) in
  Y_augmented rank Y = Yaug /\
  Ydot rank Y v_min = Yd /\
  (well_formed Yaug /\ well_formed Yd) /\
  (forall a, trial problem rank Y v_min a = retract problem rank Yaug (scale a Yd)) /\
  (forall n a calls,
     line_search norm problem rank Y v_min gradient_tolerance (S n) a calls =
     let Ytest := retract problem rank Yaug (scale (halve a) Yd) in
     let calls := calls ++ [(Yaug, scale (halve a) Yd)] in
     if negb (accepted norm problem rank Y gradient_tolerance Ytest) && gt (halve a) alpha_min
     then line_search norm problem rank Y v_min gradient_tolerance n (halve a) calls
     else Some {| escape_success := accepted norm problem rank Y gradient_tolerance Ytest;
                  Ytest_final := Ytest;
                  retractions := calls |}) /\
  (forall n a ls,
     line_search norm problem rank Y v_min gradient_tolerance n a [] = Some ls ->
     exists K, 1 <= K <= n /\
       retractions ls = map (fun k => (Yaug, scale (halvings k a) Yd)) (seq 1 K) /\
       Ytest_final ls = retract problem rank Yaug (scale (halvings K a) Yd)) /\
  (forall n Yplus M,
     escape_saddle norm problem rank Y lambda_min v_min gradient_tolerance n Yplus
     = Some (true, M) ->
     exists K, 1 <= K <= n /\
       M = retract problem rank Yaug
             (scale (halvings K (alpha_init lambda_min gradient_tolerance)) Yd)).
Proof.
  intros [Hlen Hrows] Hrank Huint Hv zero_row Yaug Yd.
  assert (Hr : Z.to_nat rank = rows Y + 1) by lia.
  assert (Hr1 : Z.to_nat (uint (rank - 1)) = rows Y).
  { unfold uint. unfold is_uint, UINT_MAX in Huint.
    rewrite Z.mod_small by lia. lia. }
  assert (Haug : Y_augmented rank Y = Yaug).
  { unfold Y_augmented, assign_topRows, Zero, Yaug. cbn [rows cols coeff].
    rewrite Hr, Hr1. f_equal.
    rewrite <- Hlen at 1. rewrite firstn_all. f_equal.
    rewrite repeat_app, skipn_app, repeat_length, Nat.sub_diag.
    rewrite skipn_all2 by (rewrite repeat_length; lia). reflexivity. }
  assert (Hdot : Ydot rank Y v_min = Yd).
  { unfold Ydot, assign_bottomRow, Zero, Yd. cbn [rows cols coeff].
    rewrite Hr, repeat_app. cbn [repeat].
    destruct (repeat (repeat 0%float (cols Y)) (rows Y) ++ [repeat 0%float (cols Y)]) eqn:E.
    - destruct (repeat (repeat 0%float (cols Y)) (rows Y)); discriminate.
    - rewrite <- E, removelast_last. reflexivity. }
  assert (Htrial : forall a, trial problem rank Y v_min a
                             = retract problem rank Yaug (scale a Yd)).
  { intro a. unfold trial. rewrite Haug, Hdot. reflexivity. }
  split; [exact Haug|]. split; [exact Hdot|].
  split; [|split; [exact Htrial|split; [|split]]].
  - split; split; unfold Yaug, Yd; cbn [rows cols coeff].
    + rewrite length_app, Hlen. reflexivity.
    + apply Forall_app. split; [exact Hrows|].
      constructor; [apply repeat_length|constructor].
    + rewrite length_app, repeat_length. reflexivity.
    + apply Forall_app. split.
      * apply Forall_forall. intros row HIn. apply repeat_spec in HIn. subst row.
        apply repeat_length.
      * constructor; [exact Hv|constructor].
  - intros n a calls. cbn [line_search]. rewrite Htrial, Haug, Hdot. reflexivity.
  - intros n a ls H. apply line_search_inv in H.
    destruct H as (K & HK & _ & _ & ->). exists K. split; [exact HK|].
    cbn [retractions Ytest_final app]. rewrite Haug, Hdot, Htrial. split; reflexivity.
  - intros n Yplus M H. unfold escape_saddle in H.
    destruct (line_search _ _ _ _ _ _ n _ []) as [ls|] eqn:L; [|discriminate].
    apply line_search_inv in L. destruct L as (K & HK & _ & _ & ->).
    cbn [escape_success Ytest_final] in H.
    destruct (accepted _ _ _ _ _ _); inversion H.
    exists K. split; [exact HK|]. apply Htrial.
Qed.

End EscapeSaddleFacts.

(** ** The staircase loop *)

Section StaircaseFacts.

Variable RelativePoseMeasurement : Type.
Variable world : Collaborators RelativePoseMeasurement.
Variable measurements : list RelativePoseMeasurement.
Variable options : SESyncOpts.
Variable n_search : nat.

Local Abbreviation tol := (min_eig_num_tol options).
Local Abbreviation the_problem := (problem RelativePoseMeasurement world measurements options).
Local Abbreviation level := (staircase_level RelativePoseMeasurement world measurements options n_search).
Local Abbreviation loop := (staircase RelativePoseMeasurement world measurements options n_search).
Local Abbreviation solve := (run_TNT RelativePoseMeasurement world measurements options).
Local Abbreviation certify := (min_eig RelativePoseMeasurement world measurements options).

Local Abbreviation traces_agree := Inv.traces_agree.
Local Abbreviation escapes_justified := (Inv.escapes_justified options).
Local Abbreviation running := (Inv.running options).
Local Abbreviation verdict := (Inv.verdict options).
Local Abbreviation stopped := (Inv.stopped options).
Local Abbreviation loop_call := Inv.loop_call.
Local Abbreviation staircase_calls := Inv.staircase_calls.

Lemma escapes_justified_cons (c : Call) (l : list Call) :
  Log.is_escape c = false -> escapes_justified l -> escapes_justified (c :: l).
Proof.
  intros Hc H rank Y lam v g ok [E|HIn].
  - subst c. discriminate.
  - destruct (H _ _ _ _ _ _ HIn) as (G & Hg & Hset & rk & Hrk).
    repeat split; auto; [right; exact Hset|exists rk; right; exact Hrk].
Qed.

Lemma running_stopped (s : State) : running s -> stopped s.
Proof.
  intros (St & Q & T & J). split; [|split]; auto. unfold Inv.verdict. rewrite St. exact Q.
Qed.

(** One level of the staircase keeps the invariant, or leaves the loop in a
    state that tells why. *)
Ltac traces :=
  unfold Inv.traces_agree, Log.count in *; cbn; rewrite ?length_app; cbn;
  repeat split; (lia || reflexivity).

Lemma staircase_level_sound (r : Z) (s : State) (fl : Flow) :
  running s -> level r s = Some fl ->
  match fl with
  | Next s' => running s' /\ relaxation_rank s' = uint (r + 1)
  | Break s' => stopped s' /\ status (SESyncResults s') <> RS_ITER_LIMIT
  end.
Proof.
  intros (St & Q & T & J) H.
  unfold staircase_level, run_TNT, min_eig in H.
  destruct (TNT_solve _ _ _ _ _ _ _ _ _) as [[T' N'] its'].
  cbn [SESyncResults calls relaxation_rank Y NablaF_Y record_TNT Yopt lambda_min v_min] in H.
  destruct (compute_S_minus_Lambda_min_eig _ _ _ _ _ _ _ _) as [[conv lam] v].
  destruct T as (T1 & T2 & T3 & T4 & T5 & T6 & T7).
  destruct conv; cbn [negb] in H.
  - cbn [SESyncResults calls relaxation_rank Y NablaF_Y with_results push_min_eig record_eig
         lambda_min] in H.
    destruct (gt lam (- tol)%float) eqn:G.
    + inversion H; subst fl; clear H. split; [|discriminate].
      split; [|split].
      * unfold Inv.verdict. cbn. eexists; split; [reflexivity|]. split; [exact G|]. exact Q.
      * traces.
      * cbn. do 2 (apply escapes_justified_cons; [reflexivity|]). exact J.
    + unfold escape, ascend in H.
      cbn [SESyncResults calls relaxation_rank Y NablaF_Y Yopt lambda_min v_min] in H.
      destruct (escape_saddle _ _ _ _ _ _ _ _ _) as [[ok Yplus]|]; [|discriminate].
      assert (J' : escapes_justified
                     (escape_saddle_ (uint (r + 1)) (TNT.x T') lam v (grad_norm_tol options) ok
                      :: set_relaxation_rank_ (uint (r + 1))
                      :: compute_S_minus_Lambda_min_eig_ (relaxation_rank s) (TNT.x T') true lam
                      :: TNT_ (relaxation_rank s) (Y s) (TNT.x T') :: calls s)).
      { intros rank Y1 lam1 v1 g1 ok1 [E|HIn].
        - inversion E; subst. split; [exact G|]. split; [reflexivity|].
          split; [right; left; reflexivity|].
          exists (relaxation_rank s). right; right; left; reflexivity.
        - assert (J3 : escapes_justified
                         (set_relaxation_rank_ (uint (r + 1))
                          :: compute_S_minus_Lambda_min_eig_ (relaxation_rank s) (TNT.x T') true lam
                          :: TNT_ (relaxation_rank s) (Y s) (TNT.x T') :: calls s))
            by (do 3 (apply escapes_justified_cons; [reflexivity|]); exact J).
          destruct (J3 _ _ _ _ _ _ HIn) as (G1 & Hg & Hset & rk & Hrk).
          split; [exact G1|]. split; [exact Hg|]. split; [right; exact Hset|].
          exists rk; right; exact Hrk. }
      destruct ok; inversion H; subst fl; clear H.
      * split; [|reflexivity].
        split; [exact St|]. split; [|split].
        -- cbn. unfold Log.quiet at 1. cbn -[gt]. rewrite G. exact Q.
        -- traces.
        -- exact J'.
      * split; [|discriminate].
        split; [|split].
        -- unfold Inv.verdict. cbn. eexists; split; [reflexivity|].
           unfold Log.quiet at 1. cbn -[gt]. rewrite G. exact Q.
        -- traces.
        -- exact J'.
  - inversion H; subst fl; clear H. split; [|discriminate].
    split; [|split].
    + unfold Inv.verdict. cbn. eexists; split; [reflexivity|]. exact Q.
    + traces.
    + cbn. do 2 (apply escapes_justified_cons; [reflexivity|]). exact J.
Qed.

(** The state in which the loop is left. *)
Lemma staircase_sound (levels : nat) :
  forall (r : Z) (s s' : State),
    running s -> relaxation_rank s = r -> loop levels r s = Some s' ->
    stopped s' /\
    (status (SESyncResults s') = RS_ITER_LIMIT -> (rmax options < relaxation_rank s')%Z).
Proof.
  induction levels as [|levels IH]; intros r s s' Hrun Hr H; cbn [staircase] in H.
  - destruct (r <=? rmax options)%Z eqn:E; [discriminate|].
    inversion H; subst s'. split; [apply running_stopped, Hrun|]. intros _. lia.
  - destruct (r <=? rmax options)%Z eqn:E.
    + destruct (level r s) as [[s1|s1]|] eqn:L; [| |discriminate].
      * destruct (staircase_level_sound _ _ _ Hrun L) as [Hrun1 Hr1].
        exact (IH _ _ _ Hrun1 Hr1 H).
      * destruct (staircase_level_sound _ _ _ Hrun L) as [Hst Hne].
        inversion H; subst s'. split; [exact Hst|]. intro C. contradiction.
    + inversion H; subst s'. split; [apply running_stopped, Hrun|]. intros _. lia.
Qed.


Lemma quiet_no_cause (l : list Call) :
  forallb (Log.quiet tol) l = true ->
  existsb Log.imprecise l = false /\
  existsb (Log.certificate tol) l = false /\
  existsb Log.failed_escape l = false /\
  Log.count Log.imprecise l = 0.
Proof.
  unfold Log.count.
  induction l as [|c l IH]; intro H; [repeat split|].
  cbn [forallb] in H. apply andb_true_iff in H. destruct H as [Hc Hl].
  destruct (IH Hl) as (I1 & I2 & I3 & I4).
  unfold Log.quiet in Hc. rewrite !andb_true_iff, !negb_true_iff in Hc.
  destruct Hc as [[C1 C2] C3].
  cbn [existsb filter]. rewrite C1, C2, C3, I1, I2, I3. cbn. auto.
Qed.

Lemma staircase_level_calls (r : Z) (s : State) (fl : Flow) :
  level r s = Some fl ->
  exists new x,
    calls (match fl with Next s' => s' | Break s' => s' end)
    = new ++ TNT_ (relaxation_rank s) (Y s) x :: calls s /\
    forallb loop_call new = true.
Proof.
  intro H.
  unfold staircase_level, run_TNT, min_eig in H.
  destruct (TNT_solve _ _ _ _ _ _ _ _ _) as [[T' N'] its'].
  cbn [SESyncResults calls relaxation_rank Y NablaF_Y record_TNT Yopt lambda_min v_min] in H.
  destruct (compute_S_minus_Lambda_min_eig _ _ _ _ _ _ _ _) as [[conv lam] v].
  destruct conv; cbn [negb] in H.
  - cbn [SESyncResults calls relaxation_rank Y NablaF_Y with_results push_min_eig record_eig
         lambda_min] in H.
    destruct (gt lam (- tol)%float).
    + inversion H; subst fl. cbn.
      exists [compute_S_minus_Lambda_min_eig_ (relaxation_rank s) (TNT.x T') true lam], (TNT.x T').
      split; reflexivity.
    + unfold escape, ascend in H.
      cbn [SESyncResults calls relaxation_rank Y NablaF_Y Yopt lambda_min v_min] in H.
      destruct (escape_saddle _ _ _ _ _ _ _ _ _) as [[ok Yplus]|]; [|discriminate].
      destruct ok; inversion H; subst fl; cbn;
        eexists [_; _; _], (TNT.x T'); split; reflexivity.
  - inversion H; subst fl. cbn.
    exists [compute_S_minus_Lambda_min_eig_ (relaxation_rank s) (TNT.x T') false lam], (TNT.x T').
    split; reflexivity.
Qed.

Lemma staircase_loop_calls (levels : nat) :
  forall (r : Z) (s s' : State), loop levels r s = Some s' -> staircase_calls s s'.
Proof.
  induction levels as [|levels IH]; intros r s s' H; cbn [staircase] in H.
  - destruct (r <=? rmax options)%Z; [discriminate|]. inversion H. left. reflexivity.
  - destruct (r <=? rmax options)%Z; [|inversion H; left; reflexivity].
    destruct (level r s) as [fl|] eqn:L; [|discriminate].
    destruct (staircase_level_calls _ _ _ L) as (new & x & E & F).
    destruct fl as [s1|s1].
    + destruct (IH _ _ _ H) as [E'|(new' & x' & E' & F')].
      * right. exists new, x. split; [congruence|exact F].
      * right. exists (new' ++ TNT_ (relaxation_rank s1) (Y s1) x' :: new), x.
        split.
        -- rewrite E', E, <- app_assoc. reflexivity.
        -- rewrite forallb_app, F'. cbn. exact F.
    + inversion H; subst s'. right. exists new, x. split; [exact E|exact F].
Qed.

End StaircaseFacts.

(** ** Complete runs of [SESync] *)

Section RunFacts.

Variable RelativePoseMeasurement : Type.
Variable world : Collaborators RelativePoseMeasurement.
Variable measurements : list RelativePoseMeasurement.
Variable options : SESyncOpts.
Variable Y0 : Matrix.
Variable n_search : nat.

Local Abbreviation tol := (min_eig_num_tol options).
Local Abbreviation the_problem := (problem RelativePoseMeasurement world measurements options).
Local Abbreviation start := (initialize RelativePoseMeasurement world measurements options Y0).
Local Abbreviation loop := (staircase RelativePoseMeasurement world measurements options n_search).
Local Abbreviation finish := (post_process RelativePoseMeasurement world measurements options).
Local Abbreviation run :=
  (SESync_run RelativePoseMeasurement world measurements options Y0 n_search).

Lemma initialize_rank : relaxation_rank start = r0 options.
Proof.
  unfold initialize.
  destruct (negb (size Y0 =? 0)%nat); [|destruct (use_chordal_initialization options)];
    reflexivity.
Qed.

Lemma initialize_running : Inv.running options start.
Proof.
  unfold initialize.
  destruct (negb (size Y0 =? 0)%nat); [|destruct (use_chordal_initialization options)];
    (split; [reflexivity|]; split; [reflexivity|]; split;
     [unfold Inv.traces_agree, Log.count; cbn; repeat split|]);
    intros rank Y lam v g ok HIn; cbn in HIn;
    repeat (destruct HIn as [HIn|HIn]; [discriminate|]); contradiction.
Qed.

Lemma SESync_run_inv (levels : nat) (s : State) :
  run levels = Some s ->
  exists s0, loop levels (r0 options) start = Some s0 /\ s = finish s0.
Proof.
  unfold SESync_run. destruct (staircase _ _ _ _ _ _ _ _) as [s0|]; [|discriminate].
  intro H. inversion H. exists s0. split; reflexivity.
Qed.

(** C1. Whenever [SESync] returns, the status of the result is one of the
    four values, and it is the one that the cause of the end of the loop
    dictates: EIG_IMPRECISION exactly when an eigenvalue computation did not
    converge, GLOBAL_OPT exactly when one converged to an eigenvalue above
    [-min_eig_num_tol], SADDLE_POINT exactly when a call of [escape_saddle]
    failed, and RS_ITER_LIMIT exactly when none of these happened, in which
    case the loop was left with the rank above [rmax]. In every case [Yopt]
    is the point returned by the last run of the solver, if there was one. *)
Theorem SESync_status_by_cause (levels : nat) (s : State) :
  run levels = Some s ->
  let R := SESyncResults s in
  In (status R) [GLOBAL_OPT; EIG_IMPRECISION; SADDLE_POINT; RS_ITER_LIMIT] /\
  (status R = EIG_IMPRECISION <-> existsb Log.imprecise (calls s) = true) /\
  (status R = GLOBAL_OPT <-> existsb (Log.certificate tol) (calls s) = true) /\
  (status R = SADDLE_POINT <-> existsb Log.failed_escape (calls s) = true) /\
  (status R = RS_ITER_LIMIT <->
     existsb Log.imprecise (calls s) = false /\
     existsb (Log.certificate tol) (calls s) = false /\
     existsb Log.failed_escape (calls s) = false) /\
  (status R = RS_ITER_LIMIT -> (rmax options < relaxation_rank s)%Z) /\
  Yopt R = match Log.last_solution (calls s) with Some x => x | None => empty end.
Proof.
  intros H R. subst R.
  destruct (SESync_run_inv _ _ H) as (s0 & L & ->).
  destruct (staircase_sound _ _ _ _ _ _ _ _ _
              initialize_running initialize_rank L) as [(V & T & _) Hlimit].
  destruct T as (_ & _ & _ & _ & _ & _ & T7).
  unfold post_process.
  cbn [SESyncResults calls relaxation_rank record_rounding status Yopt existsb
       Log.imprecise Log.certificate Log.failed_escape orb Log.last_solution].
  split; [destruct (status (SESyncResults s0)); cbn; tauto|].
  unfold Inv.verdict in V.
  destruct (status (SESyncResults s0)) eqn:St.
  - destruct V as (rest & E & G & Q). rewrite E in T7 |- *.
    destruct (quiet_no_cause options _ Q) as (Q1 & Q2 & Q3 & _).
    cbn [existsb Log.imprecise Log.certificate Log.failed_escape negb andb orb] in *.
    rewrite G, Q1, Q3. cbn [orb].
    repeat split; try discriminate; try reflexivity; try exact T7;
      intros (C1 & C2 & C3); discriminate.
  - destruct V as (rest & E & Q). rewrite E in T7 |- *.
    destruct (quiet_no_cause options _ Q) as (Q1 & Q2 & Q3 & _).
    cbn [existsb Log.imprecise Log.certificate Log.failed_escape negb andb orb] in *.
    rewrite Q2, Q3.
    repeat split; try discriminate; try reflexivity; try exact T7;
      intros (C1 & C2 & C3); discriminate.
  - destruct V as (rest & E & Q). rewrite E in T7 |- *.
    destruct (quiet_no_cause options _ Q) as (Q1 & Q2 & Q3 & _).
    cbn [existsb Log.imprecise Log.certificate Log.failed_escape negb andb orb] in *.
    rewrite Q1, Q2.
    repeat split; try discriminate; try reflexivity; try exact T7;
      intros (C1 & C2 & C3); discriminate.
  - destruct (quiet_no_cause options _ V) as (Q1 & Q2 & Q3 & _).
    rewrite Q1, Q2, Q3.
    repeat split; try discriminate; try reflexivity; try exact T7.
    intros _. apply Hlimit. reflexivity.
Qed.

(** C6. Whenever [SESync] returns, and whatever the status, [xhat] is
    [round_solution] of [Yopt], the point the last run of the solver returned,
    and [Fxhat] is the objective at [xhat], or at the block of [xhat] that
    starts at column [num_poses] and is [dimension] rows by [dimension *
    num_poses] columns under the Simplified formulation. *)
Theorem SESync_rounding (levels : nat) (s : State) :
  run levels = Some s ->
  let R := SESyncResults s in
  let d := dimension the_problem in
  let n := num_poses the_problem in
  xhat R = round_solution the_problem (relaxation_rank s) (Yopt R) /\
  Fxhat R = evaluate_objective the_problem (relaxation_rank s)
              match formulation options with
              | Simplified => block (xhat R) 0 n d (d * n)
              | Explicit => xhat R
              end /\
  Yopt R = match Log.last_solution (calls s) with Some x => x | None => empty end /\
  In (round_solution_ (relaxation_rank s) (Yopt R)) (calls s).
Proof.
  intros H R d n. subst R d n.
  destruct (SESync_run_inv _ _ H) as (s0 & L & ->).
  destruct (staircase_sound _ _ _ _ _ _ _ _ _
              initialize_running initialize_rank L) as [(_ & T & _) _].
  destruct T as (_ & _ & _ & _ & _ & _ & T7).
  unfold post_process.
  cbn [SESyncResults calls relaxation_rank record_rounding xhat Fxhat Yopt Log.last_solution].
  split; [reflexivity|]. split; [|split; [exact T7|left; reflexivity]].
  destruct (formulation options); reflexivity.
Qed.

Lemma first_iterate_app (new old : list Call) (rk : Z) (Yin x : Matrix) :
  Log.first_iterate old = None ->
  Log.first_iterate (new ++ TNT_ rk Yin x :: old) = Some Yin.
Proof.
  intro Hold. induction new as [|c new IH]; cbn [app Log.first_iterate].
  - rewrite Hold. reflexivity.
  - rewrite IH. reflexivity.
Qed.

Lemma loop_calls_not_initialization (new : list Call) :
  forallb Inv.loop_call new = true -> filter Log.is_initialization new = [].
Proof.
  induction new as [|c new IH]; [reflexivity|].
  cbn [forallb filter]. rewrite andb_true_iff. intros [Hc Hn].
  destruct c; try discriminate; cbn; apply IH, Hn.
Qed.

(** C7. The initial iterate is [Y0] when [Y0] is not empty, and then no
    initialization of the problem object is called; otherwise it is
    [chordal_initialization()] when [use_chordal_initialization] is set and
    [random_sample()] when it is not. The staircase starts from that
    iterate and calls no initialization itself. *)
Theorem SESync_initial_iterate :
  (size Y0 <> 0 ->
     Y start = Y0 /\ calls start = [set_relaxation_rank_ (r0 options)]) /\
  (size Y0 = 0 -> use_chordal_initialization options = true ->
     Y start = chordal_initialization the_problem (r0 options) /\
     calls start = [chordal_initialization_ (r0 options); set_relaxation_rank_ (r0 options)]) /\
  (size Y0 = 0 -> use_chordal_initialization options = false ->
     Y start = random_sample the_problem (r0 options) /\
     calls start = [random_sample_ (r0 options); set_relaxation_rank_ (r0 options)]) /\
  (forall levels s, run levels = Some s ->
     filter Log.is_initialization (calls s) = filter Log.is_initialization (calls start) /\
     (Log.first_iterate (calls s) = None \/ Log.first_iterate (calls s) = Some (Y start))).
Proof.
  split; [|split; [|split]].
  - intro Hsize. apply Nat.eqb_neq in Hsize. unfold initialize. rewrite Hsize.
    split; reflexivity.
  - intros Hsize Hc. apply Nat.eqb_eq in Hsize. unfold initialize. rewrite Hsize, Hc.
    split; reflexivity.
  - intros Hsize Hc. apply Nat.eqb_eq in Hsize. unfold initialize. rewrite Hsize, Hc.
    split; reflexivity.
  - intros levels s H.
    destruct (SESync_run_inv _ _ H) as (s0 & L & ->).
    assert (Hstart : Log.first_iterate (calls start) = None).
    { unfold initialize.
      destruct (negb (size Y0 =? 0)%nat); [|destruct (use_chordal_initialization options)];
        reflexivity. }
    unfold post_process. cbn [calls filter Log.is_initialization Log.first_iterate].
    destruct (staircase_loop_calls _ _ _ _ _ _ _ _ _ L) as [E|(new & x & E & F)].
    + rewrite E, Hstart. split; [reflexivity|left; reflexivity].
    + rewrite E, (first_iterate_app _ _ _ _ _ Hstart).
      split; [|right; reflexivity].
      rewrite filter_app, (loop_calls_not_initialization _ F). reflexivity.
Qed.


(** C9. Whenever [SESync] returns, the traces of the minimum eigenvalues and
    of their computation times have one entry per eigenvalue computation that
    converged, and the traces of the objective values, gradient norms and
    elapsed times one entry per run of the solver; the latter are one entry
    longer after EIG_IMPRECISION and as long after any other status. *)
Theorem SESync_trace_lengths (levels : nat) (s : State) :
  run levels = Some s ->
  let R := SESyncResults s in
  let solved := Log.count Log.is_TNT (calls s) in
  let converged := Log.count Log.converged (calls s) in
  length (minimum_eigenvalues R) = converged /\
  length (minimum_eigenvalue_computation_times R) = converged /\
  length (function_values R) = solved /\
  length (gradient_norms R) = solved /\
  length (elapsed_optimization_times R) = solved /\
  (status R = EIG_IMPRECISION -> solved = S converged) /\
  (status R <> EIG_IMPRECISION -> solved = converged).
Proof.
  intros H R solved converged. subst R solved converged.
  destruct (SESync_run_inv _ _ H) as (s0 & L & ->).
  destruct (staircase_sound _ _ _ _ _ _ _ _ _
              initialize_running initialize_rank L) as [(V & T & _) _].
  destruct T as (T1 & T2 & T3 & T4 & T5 & T6 & _).
  unfold post_process.
  cbn [SESyncResults calls record_rounding status minimum_eigenvalues
       minimum_eigenvalue_computation_times function_values gradient_norms
       elapsed_optimization_times].
  change (Log.count Log.is_TNT (round_solution_ (relaxation_rank s0) (Yopt (SESyncResults s0))
                                :: calls s0))
    with (Log.count Log.is_TNT (calls s0)).
  change (Log.count Log.converged (round_solution_ (relaxation_rank s0)
                                     (Yopt (SESyncResults s0)) :: calls s0))
    with (Log.count Log.converged (calls s0)).
  do 5 (split; [assumption|]).
  unfold Inv.verdict in V.
  destruct (status (SESyncResults s0)) eqn:St.
  - destruct V as (rest & E & _ & Q).
    destruct (quiet_no_cause options _ Q) as (_ & _ & _ & Q4).
    rewrite E in T6 |- *. unfold Log.count in *. cbn in T6 |- *.
    split; [discriminate|]. intros _. lia.
  - destruct V as (rest & E & Q).
    destruct (quiet_no_cause options _ Q) as (_ & _ & _ & Q4).
    rewrite E in T6 |- *. unfold Log.count in *. cbn in T6 |- *.
    split; [intros _; lia|]. intro C. contradiction.
  - destruct V as (rest & E & Q).
    destruct (quiet_no_cause options _ Q) as (_ & _ & _ & Q4).
    rewrite E in T6 |- *. unfold Log.count in *. cbn in T6 |- *.
    split; [discriminate|]. intros _. lia.
  - destruct (quiet_no_cause options _ V) as (_ & _ & _ & Q4).
    rewrite Q4 in T6.
    split; [discriminate|]. intros _. lia.
Qed.

(** Every call of [escape_saddle] of a run is justified by the eigenvalue
    computation before it. *)
Lemma SESync_escapes_justified (levels : nat) (s : State) :
  run levels = Some s -> Inv.escapes_justified options (calls s).
Proof.
  intro H.
  destruct (SESync_run_inv _ _ H) as (s0 & L & ->).
  destruct (staircase_sound _ _ _ _ _ _ _ _ _
              initialize_running initialize_rank L) as [(_ & _ & J) _].
  unfold post_process. cbn [calls].
  apply escapes_justified_cons; [reflexivity|exact J].
Qed.

End RunFacts.


(** ** One level of the staircase *)

Section LevelFacts.

Variable RelativePoseMeasurement : Type.
Variable world : Collaborators RelativePoseMeasurement.
Variable measurements : list RelativePoseMeasurement.
Variable options : SESyncOpts.
Variable n_search : nat.

Local Abbreviation tol := (min_eig_num_tol options).
Local Abbreviation the_problem := (problem RelativePoseMeasurement world measurements options).
Local Abbreviation level :=
  (staircase_level RelativePoseMeasurement world measurements options n_search).
Local Abbreviation loop := (staircase RelativePoseMeasurement world measurements options n_search).
Local Abbreviation solve := (run_TNT RelativePoseMeasurement world measurements options).
Local Abbreviation certify := (min_eig RelativePoseMeasurement world measurements options).

(** C3, amended. At a level where the eigenvalue computation converges to a
    [lambda_min] with [lambda_min > -min_eig_num_tol], the body of the loop
    ends in a [break] with status GLOBAL_OPT: the loop is left at this rank,
    [Yopt] is the point the solver returned at this level, and
    [escape_saddle] is not called. *)
Theorem certificate_above_threshold (r : Z) (s s2 : State) :
  certify (solve s) = (true, s2) ->
  gt (lambda_min (SESyncResults s2)) (- tol)%float = true ->
  exists s',
    level r s = Some (Break s') /\
    status (SESyncResults s') = GLOBAL_OPT /\
    Yopt (SESyncResults s') = Yopt (SESyncResults (solve s)) /\
    lambda_min (SESyncResults s') = lambda_min (SESyncResults s2) /\
    relaxation_rank s' = relaxation_rank s /\
    calls s' = calls s2 /\
    forall levels, (r <= rmax options)%Z -> loop (S levels) r s = Some s'.
Proof.
  intros Hc Hgt.
  assert (L : exists s', level r s = Some (Break s') /\
                status (SESyncResults s') = GLOBAL_OPT /\
                Yopt (SESyncResults s') = Yopt (SESyncResults (solve s)) /\
                lambda_min (SESyncResults s') = lambda_min (SESyncResults s2) /\
                relaxation_rank s' = relaxation_rank s /\
                calls s' = calls s2).
  { unfold staircase_level. rewrite Hc. cbn [negb].
    cbn [with_results SESyncResults push_min_eig lambda_min].
    rewrite Hgt. eexists. split; [reflexivity|].
    unfold min_eig in Hc.
    destruct (compute_S_minus_Lambda_min_eig _ _ _ _ _ _ _ _) as [[conv lam] v].
    inversion Hc; subst conv s2; clear Hc.
    unfold run_TNT. destruct (TNT_solve _ _ _ _ _ _ _ _ _) as [[T' N'] its'].
    cbn. repeat split. }
  destruct L as (s' & L & rest). exists s'. split; [exact L|].
  repeat (split; [apply rest|]).
  intros levels Hr. apply Z.leb_le in Hr.
  cbn [staircase]. rewrite Hr, L. reflexivity.
Qed.

(** C2, amended. At a level [r] where the eigenvalue computation converges
    to a [lambda_min] that fails [lambda_min > -min_eig_num_tol], the rank of
    the problem is set to [r + 1] before [escape_saddle] is called, and
    [escape_saddle] runs at that rank. When it succeeds, [Y] becomes the
    point it returned, the status is untouched and the loop goes on at level
    [r + 1]; when it fails, the status becomes SADDLE_POINT and the loop is
    left. The rank of the problem is [r + 1] afterwards in both cases. *)
Theorem saddle_escape_transition (r : Z) (s s2 : State) (ok : bool) (Yplus : Matrix) :
  let R2 := SESyncResults s2 in
  certify (solve s) = (true, s2) ->
  gt (lambda_min R2) (- tol)%float = false ->
  escape_saddle (norm world) the_problem (uint (r + 1)) (Yopt R2) (lambda_min R2)
    (v_min R2) (grad_norm_tol options) n_search empty = Some (ok, Yplus) ->
  exists s',
    level r s = Some (if ok then Next s' else Break s') /\
    relaxation_rank s' = uint (r + 1) /\
    calls s' =
      escape_saddle_ (uint (r + 1)) (Yopt R2) (lambda_min R2) (v_min R2)
        (grad_norm_tol options) ok
      :: set_relaxation_rank_ (uint (r + 1)) :: calls s2 /\
    (ok = true ->
       Y s' = Yplus /\
       status (SESyncResults s') = status (SESyncResults s) /\
       forall levels, (r <= rmax options)%Z ->
         loop (S levels) r s = loop levels (uint (r + 1)) s') /\
    (ok = false ->
       status (SESyncResults s') = SADDLE_POINT /\
       forall levels, (r <= rmax options)%Z -> loop (S levels) r s = Some s').
Proof.
  intros R2 Hc Hgt He. subst R2.
  assert (Hst : status (SESyncResults s2) = status (SESyncResults s)).
  { unfold min_eig in Hc.
    destruct (compute_S_minus_Lambda_min_eig _ _ _ _ _ _ _ _) as [[conv lam] v].
    inversion Hc; subst conv s2; clear Hc.
    unfold run_TNT. destruct (TNT_solve _ _ _ _ _ _ _ _ _) as [[T' N'] its'].
    reflexivity. }
  assert (L : exists s', level r s = Some (if ok then Next s' else Break s') /\
                relaxation_rank s' = uint (r + 1) /\
                calls s' =
                  escape_saddle_ (uint (r + 1)) (Yopt (SESyncResults s2))
                    (lambda_min (SESyncResults s2)) (v_min (SESyncResults s2))
                    (grad_norm_tol options) ok
                  :: set_relaxation_rank_ (uint (r + 1)) :: calls s2 /\
                (ok = true -> Y s' = Yplus /\
                              status (SESyncResults s') = status (SESyncResults s)) /\
                (ok = false -> status (SESyncResults s') = SADDLE_POINT)).
  { unfold staircase_level. rewrite Hc. cbn [negb].
    cbn [with_results SESyncResults push_min_eig lambda_min].
    rewrite Hgt. unfold escape, ascend.
    cbn [SESyncResults relaxation_rank calls Y NablaF_Y Yopt lambda_min v_min
         with_results push_min_eig].
    rewrite He.
    destruct ok; eexists; (split; [reflexivity|]); cbn; repeat split;
      try discriminate; try exact Hst. }
  destruct L as (s' & L & Hrank & Hcalls & Hok & Hfail).
  exists s'. split; [exact L|]. split; [exact Hrank|]. split; [exact Hcalls|]. split.
  - intro E. destruct (Hok E) as [HY HS]. split; [exact HY|]. split; [exact HS|].
    intros levels Hr. apply Z.leb_le in Hr. subst ok.
    cbn [staircase]. rewrite Hr, L. reflexivity.
  - intro E. split; [exact (Hfail E)|].
    intros levels Hr. apply Z.leb_le in Hr. subst ok.
    cbn [staircase]. rewrite Hr, L. reflexivity.
Qed.

(** An eigenvalue that is exactly [-min_eig_num_tol] fails the test. *)
Lemma boundary_eigenvalue_fails_test (eps : float) : gt (- eps)%float (- eps)%float = false.
Proof.
  unfold gt. rewrite FloatAxioms.ltb_spec. unfold SFltb.
  destruct (Prim2SF (- eps)) as [s0|s0| |s0 m e] eqn:E; cbn [SFcompare];
    try reflexivity; try (destruct s0; reflexivity).
  rewrite Z.compare_refl.
  change (PosDef.Pos.compare_cont Eq m m) with (Pos.compare_cont Eq m m).
  rewrite Pos.compare_cont_refl. destruct s0; reflexivity.
Qed.

End LevelFacts.

(** ** The divisor of the initial step length *)

(** C10, amended. [escape_saddle] divides by [|lambda_min|]. In a run with
    [min_eig_num_tol > 0], every call of [escape_saddle] is given the
    eigenvalue that a converged computation has just reported and that failed
    [lambda_min > -min_eig_num_tol], and that eigenvalue is not zero; when it
    is a number, it is at most [-min_eig_num_tol < 0] and [|lambda_min| > 0],
    and a NaN fails the test as well. With [min_eig_num_tol = 0], the
    eigenvalue [0] fails the test too, and the initial step is then [200 *
    gradient_tolerance / 0]. *)
Theorem escape_saddle_divisor :
  (forall (RelativePoseMeasurement : Type) (world : Collaborators RelativePoseMeasurement)
          (measurements : list RelativePoseMeasurement) (options : SESyncOpts)
          (Y0 : Matrix) (n_search levels : nat) (s : State),
     SESync_run RelativePoseMeasurement world measurements options Y0 n_search levels = Some s ->
     (0 <? min_eig_num_tol options)%float = true ->
     forall rank Y lam v g ok,
       In (escape_saddle_ rank Y lam v g ok) (calls s) ->
       (exists rk, In (compute_S_minus_Lambda_min_eig_ rk Y true lam) (calls s)) /\
       gt lam (- min_eig_num_tol options)%float = false /\
       (- min_eig_num_tol options <? 0)%float = true /\
       (abs lam =? 0)%float = false /\
       (is_nan lam = false ->
          (lam <=? - min_eig_num_tol options)%float = true /\ (0 <? abs lam)%float = true)) /\
  (gt 0%float (- 0)%float = false /\
   (abs 0 =? 0)%float = true /\
   forall g, alpha_init 0%float g = (200 * g / 0)%float).
Proof.
  split.
  - intros RPM world measurements options Y0 n_search levels s Hrun Htol
      rank Y lam v g ok HIn.
    destruct (SESync_escapes_justified _ _ _ _ _ _ _ _ Hrun _ _ _ _ _ _ HIn)
      as (G & _ & _ & rk & Hrk).
    split; [exists rk; exact Hrk|]. split; [exact G|].
    split; [apply FloatFacts.opp_positive, Htol|].
    split; [apply (FloatFacts.guard_excludes_zero _ _ Htol G)|].
    intro Hnan.
    assert (Hle : (lam <=? - min_eig_num_tol options)%float = true).
    { apply FloatFacts.not_gt_iff_le;
        [exact Hnan|apply FloatFacts.opp_positive_not_nan, Htol|exact G]. }
    split; [exact Hle|].
    apply (FloatFacts.below_threshold_divisor_positive _ _ Htol Hle).
  - split; [reflexivity|]. split; [reflexivity|].
    intro g. unfold alpha_init. rewrite FloatFacts.int_to_double_200. reflexivity.
Qed.

(** ** [SESync] returns *)

Section Progress.

Variable RelativePoseMeasurement : Type.
Variable world : Collaborators RelativePoseMeasurement.
Variable measurements : list RelativePoseMeasurement.
Variable options : SESyncOpts.
Variable Y0 : Matrix.
Variable n_search : nat.

Local Abbreviation tol := (min_eig_num_tol options).
Local Abbreviation the_problem := (problem RelativePoseMeasurement world measurements options).
Local Abbreviation level :=
  (staircase_level RelativePoseMeasurement world measurements options n_search).
Local Abbreviation loop := (staircase RelativePoseMeasurement world measurements options n_search).

Local Abbreviation steps_finite :=
  (Inv.steps_finite RelativePoseMeasurement world measurements options).

Lemma staircase_level_returns (r : Z) (s : State) :
  steps_finite -> 1044 <= n_search -> exists fl, level r s = Some fl.
Proof.
  intros HB Hn. unfold staircase_level, run_TNT, min_eig.
  destruct (TNT_solve _ _ _ _ _ _ _ _ _) as [[T' N'] its'].
  cbn [SESyncResults calls relaxation_rank Y NablaF_Y record_TNT Yopt lambda_min v_min].
  match goal with
  | |- context [compute_S_minus_Lambda_min_eig ?P ?rk ?Y ?l ?v _ _ _] =>
      specialize (HB rk Y l v)
  end.
  destruct (compute_S_minus_Lambda_min_eig _ _ _ _ _ _ _ _) as [[conv lam] v].
  destruct conv; cbn [negb]; [|eexists; reflexivity].
  cbn [SESyncResults calls relaxation_rank Y NablaF_Y with_results push_min_eig record_eig
       lambda_min].
  destruct (gt lam (- tol)%float) eqn:G; [eexists; reflexivity|].
  unfold escape, ascend.
  cbn [SESyncResults calls relaxation_rank Y NablaF_Y Yopt lambda_min v_min
       with_results push_min_eig record_eig record_TNT].
  unfold escape_saddle.
  destruct (FloatFacts.halvings_reach_floor _ (HB eq_refl eq_refl)) as (k & Hk & Hfloor).
  destruct (line_search_returns (norm world) the_problem (uint (r + 1)) (TNT.x T') v
              (grad_norm_tol options) n_search (alpha_init lam (grad_norm_tol options)) [])
    as [ls Hls]; [exists k; split; [lia|exact Hfloor]|].
  rewrite Hls. destruct (escape_success ls); eexists; reflexivity.
Qed.

Lemma staircase_returns (levels : nat) :
  steps_finite -> 1044 <= n_search -> (rmax options < UINT_MAX)%Z ->
  forall (r : Z) (s : State),
    (0 <= r)%Z -> (rmax options - r + 1 <= Z.of_nat levels)%Z ->
    exists s', loop levels r s = Some s'.
Proof.
  intros HB Hn Hmax. induction levels as [|levels IH]; intros r s Hr0 Hr; cbn [staircase].
  - destruct (r <=? rmax options)%Z eqn:E; [apply Z.leb_le in E; lia|eexists; reflexivity].
  - destruct (r <=? rmax options)%Z eqn:E; [|eexists; reflexivity].
    apply Z.leb_le in E.
    destruct (staircase_level_returns r s HB Hn) as [[s1|s1] L]; rewrite L;
      [|eexists; reflexivity].
    apply IH.
    + unfold uint. apply Z.mod_pos_bound. lia.
    + unfold uint. unfold UINT_MAX in Hmax. rewrite Z.mod_small by lia. lia.
Qed.


End Progress.

(** ** Runs in the small world *)

(** Two levels with a descent direction, then a certificate at rank 4. *)
Lemma SESync_status_by_cause_witness :
  exists s,
    SESync_run unit (Fixture.world (Fixture.saddle_below 4)) []
      (Fixture.options 2 5 1e-4) empty 30 10 = Some s /\
    status (SESyncResults s) = GLOBAL_OPT /\
    existsb (Log.certificate 1e-4) (calls s) = true.
Proof.
  eexists. split; [vm_compute; reflexivity|].
  split; [reflexivity|].
  eapply (proj1 (proj2 (proj2
    (SESync_status_by_cause unit (Fixture.world (Fixture.saddle_below 4)) []
       (Fixture.options 2 5 1e-4) empty 30 10 _ ltac:(vm_compute; reflexivity))))).
  reflexivity.
Defined.

(** The line search rejects every trial: the rank is 3 when [SESync]
    returns with SADDLE_POINT, although the saddle was met at rank 2. *)
Lemma failed_escape_leaves_rank_raised :
  exists s Ysaddle,
    SESync_run unit (Fixture.world (Fixture.no_descent (-1))) []
      (Fixture.options 2 5 1e-4) empty 30 10 = Some s /\
    In (compute_S_minus_Lambda_min_eig_ 2 Ysaddle true (-1)) (calls s) /\
    In (escape_saddle_ 3 Ysaddle (-1) [1%float; 1%float] 1e-2 false) (calls s) /\
    (forall r, In (set_relaxation_rank_ r) (calls s) -> r = 2%Z \/ r = 3%Z) /\
    status (SESyncResults s) = SADDLE_POINT /\
    relaxation_rank s = 3%Z /\
    relaxation_rank s <> 2%Z.
Proof.
  eexists. exists (Fixture.constant 2 2 1).
  split; [vm_compute; reflexivity|].
  cbn [calls SESyncResults status relaxation_rank].
  split; [right; right; right; left; reflexivity|].
  split; [right; left; reflexivity|].
  split.
  - intros r H. cbn in H.
    repeat (destruct H as [H|H]; [try discriminate; inversion H; auto|]).
    contradiction.
  - split; [reflexivity|]. split; [reflexivity|discriminate].
Qed.

(** The eigenvalue computation converges to [lambda_min = -min_eig_num_tol]
    at rank 2: the controller escapes the saddle instead of stopping with
    GLOBAL_OPT. *)
Lemma boundary_eigenvalue_not_certified :
  exists s Ysaddle,
    SESync_run unit (Fixture.world (Fixture.always_saddle (-1e-4))) []
      (Fixture.options 2 2 1e-4) empty 30 10 = Some s /\
    In (compute_S_minus_Lambda_min_eig_ 2 Ysaddle true (-1e-4)) (calls s) /\
    (- 1e-4 <=? -1e-4)%float = true /\
    In (escape_saddle_ 3 Ysaddle (-1e-4) [(-1)%float; (-1)%float] 1e-2 true) (calls s) /\
    status (SESyncResults s) = RS_ITER_LIMIT /\
    status (SESyncResults s) <> GLOBAL_OPT.
Proof.
  eexists. exists (Fixture.constant 2 2 1).
  split; [vm_compute; reflexivity|].
  cbn [calls SESyncResults status].
  split; [right; right; right; left; reflexivity|].
  split; [reflexivity|].
  split; [right; left; reflexivity|].
  split; [reflexivity|discriminate].
Qed.

Lemma certificate_above_threshold_witness :
  exists s',
    staircase_level unit (Fixture.world (Fixture.saddle_below 2)) []
      (Fixture.options 2 5 1e-4) 30 2 (Fixture.start_at_2 (Fixture.saddle_below 2) 1e-4)
    = Some (Break s') /\
    status (SESyncResults s') = GLOBAL_OPT /\
    lambda_min (SESyncResults s') = 0.5%float.
Proof.
  edestruct (certificate_above_threshold unit (Fixture.world (Fixture.saddle_below 2)) []
               (Fixture.options 2 5 1e-4) 30 2 (Fixture.start_at_2 (Fixture.saddle_below 2) 1e-4))
    as (s' & L & St & _ & Hl & _).
  - vm_compute. reflexivity.
  - vm_compute. reflexivity.
  - exists s'. split; [exact L|]. split; [exact St|]. rewrite Hl. reflexivity.
Defined.

Lemma saddle_escape_transition_witness :
  (exists s',
     staircase_level unit (Fixture.world (Fixture.always_saddle (-1))) []
       (Fixture.options 2 5 1e-4) 30 2 (Fixture.start_at_2 (Fixture.always_saddle (-1)) 1e-4)
     = Some (Next s') /\
     relaxation_rank s' = 3%Z /\
     Y s' = mkMatrix 3 2 [[1; 1]; [1; 1]; [-1; -1]]%float) /\
  (exists s',
     staircase_level unit (Fixture.world (Fixture.no_descent (-1))) []
       (Fixture.options 2 5 1e-4) 30 2 (Fixture.start_at_2 (Fixture.no_descent (-1)) 1e-4)
     = Some (Break s') /\
     relaxation_rank s' = 3%Z /\
     status (SESyncResults s') = SADDLE_POINT).
Proof.
  split.
  - edestruct (saddle_escape_transition unit (Fixture.world (Fixture.always_saddle (-1))) []
                 (Fixture.options 2 5 1e-4) 30 2 (Fixture.start_at_2 (Fixture.always_saddle (-1)) 1e-4))
      as (s' & L & Hr & _ & Hok & _).
    + vm_compute. reflexivity.
    + vm_compute. reflexivity.
    + vm_compute. reflexivity.
    + exists s'. split; [exact L|]. split; [exact Hr|]. apply (Hok eq_refl).
  - edestruct (saddle_escape_transition unit (Fixture.world (Fixture.no_descent (-1))) []
                 (Fixture.options 2 5 1e-4) 30 2 (Fixture.start_at_2 (Fixture.no_descent (-1)) 1e-4))
      as (s' & L & Hr & _ & _ & Hfail).
    + vm_compute. reflexivity.
    + vm_compute. reflexivity.
    + vm_compute. reflexivity.
    + exists s'. split; [exact L|]. split; [exact Hr|]. apply (Hfail eq_refl).
Defined.

(** A descent direction: the first trial, at half of the initial step, is
    accepted. An ascent direction: the twenty-first trial is the first whose
    step is not above [alpha_min], and the search fails there. *)
Lemma escape_saddle_backtracking_witness :
  escape_saddle Fixture.norm1 (Fixture.problem (Fixture.always_saddle (-1))) 3
    (Fixture.constant 2 2 1) (-1) [-1; -1]%float 1e-2 30 empty
  = Some (true, mkMatrix 3 2 [[1; 1]; [1; 1]; [-1; -1]]%float) /\
  escape_saddle Fixture.norm1 (Fixture.problem (Fixture.no_descent (-1))) 3
    (Fixture.constant 2 2 1) (-1) [1; 1]%float 1e-2 30 empty
  = Some (false, empty) /\
  gt (halvings 20 (alpha_init (-1) 1e-2)) alpha_min = true /\
  gt (halvings 21 (alpha_init (-1) 1e-2)) alpha_min = false /\
  halvings 1 (alpha_init (-1) 1e-2) = (100 * 1e-2 / abs (-1))%float.
Proof.
  split; [|split; [|split; [|split; [|
    apply (proj1 (proj2 (proj2 (proj2 (proj2 (proj2 (proj2 (proj2
      (escape_saddle_backtracking Fixture.norm1
         (Fixture.problem (Fixture.always_saddle (-1))) 3 (Fixture.constant 2 2 1) (-1)
         [-1; -1]%float 1e-2 30 empty)))))))));
    reflexivity]]]].
  - rewrite (proj1 (proj2 (proj2 (proj2
      (escape_saddle_backtracking Fixture.norm1 (Fixture.problem (Fixture.always_saddle (-1)))
         3 (Fixture.constant 2 2 1) (-1) [-1; -1]%float 1e-2 30 empty)))) 1).
    + vm_compute. reflexivity.
    + lia.
    + intros j Hj. lia.
    + vm_compute. reflexivity.
  - apply (proj1 (proj2 (proj2 (proj2 (proj2
      (escape_saddle_backtracking Fixture.norm1 (Fixture.problem (Fixture.no_descent (-1)))
         3 (Fixture.constant 2 2 1) (-1) [1; 1]%float 1e-2 30 empty))))) 21).
    + lia.
    + intros j Hj.
      assert (E : In j (seq 1 20)) by (apply in_seq; lia).
      cbn in E. repeat (destruct E as [<-|E]; [vm_compute; split; reflexivity|]).
      contradiction.
    + vm_compute. reflexivity.
    + vm_compute. reflexivity.
  - vm_compute. reflexivity.
  - vm_compute. reflexivity.
Defined.

Lemma escape_saddle_augmented_point_and_direction_witness :
  Y_augmented 3 (Fixture.constant 2 2 1) = mkMatrix 3 2 [[1; 1]; [1; 1]; [0; 0]]%float /\
  Ydot 3 (Fixture.constant 2 2 1) [-1; -1]%float
  = mkMatrix 3 2 [[0; 0]; [0; 0]; [-1; -1]]%float /\
  trial (Fixture.problem (Fixture.always_saddle (-1))) 3 (Fixture.constant 2 2 1)
    [-1; -1]%float 0.5
  = mkMatrix 3 2 [[1; 1]; [1; 1]; [-0.5; -0.5]]%float.
Proof.
  destruct (escape_saddle_augmented_point_and_direction Fixture.norm1
              (Fixture.problem (Fixture.always_saddle (-1))) 3 (Fixture.constant 2 2 1)
              (-1) [-1; -1]%float 1e-2) as (Ha & Hd & _ & Ht & _).
  - split; [reflexivity|]. repeat constructor.
  - reflexivity.
  - unfold is_uint, UINT_MAX. lia.
  - reflexivity.
  - split; [exact Ha|]. split; [exact Hd|]. rewrite Ht. vm_compute. reflexivity.
Defined.

Lemma SESync_rounding_witness :
  exists s,
    SESync_run unit (Fixture.world (Fixture.saddle_below 4)) []
      (Fixture.options 2 5 1e-4) empty 30 10 = Some s /\
    xhat (SESyncResults s) = mkMatrix 1 2 [[1; 1]]%float /\
    Fxhat (SESyncResults s) = 1%float.
Proof.
  eexists. split; [vm_compute; reflexivity|].
  destruct (SESync_rounding unit (Fixture.world (Fixture.saddle_below 4)) []
              (Fixture.options 2 5 1e-4) empty 30 10 _ ltac:(vm_compute; reflexivity))
    as (Hx & HF & _).
  split; [rewrite Hx|rewrite HF]; vm_compute; reflexivity.
Defined.


(** The eigenvalue routine gives up at the first level: one run of the
    solver is on record and no eigenvalue. *)
Lemma SESync_trace_lengths_witness :
  exists s,
    SESync_run unit (Fixture.world Fixture.no_convergence) []
      (Fixture.options 2 5 1e-4) empty 30 10 = Some s /\
    status (SESyncResults s) = EIG_IMPRECISION /\
    length (function_values (SESyncResults s)) = 1 /\
    length (minimum_eigenvalues (SESyncResults s)) = 0.
Proof.
  eexists. split; [vm_compute; reflexivity|].
  destruct (SESync_trace_lengths unit (Fixture.world Fixture.no_convergence) []
              (Fixture.options 2 5 1e-4) empty 30 10 _ ltac:(vm_compute; reflexivity))
    as (He & _ & Hf & _ & _ & _ & _).
  split; [reflexivity|]. split; [rewrite Hf|rewrite He]; reflexivity.
Defined.

Lemma escape_saddle_divisor_witness :
  exists s,
    SESync_run unit (Fixture.world (Fixture.saddle_below 4)) []
      (Fixture.options 2 5 1e-4) empty 30 10 = Some s /\
    In (escape_saddle_ 3 (Fixture.constant 2 2 1) (-1) [-1; -1]%float 1e-2 true) (calls s) /\
    (abs (-1) =? 0)%float = false.
Proof.
  eexists. split; [vm_compute; reflexivity|].
  split; [cbn; do 7 right; left; reflexivity|].
  eapply (proj1 escape_saddle_divisor unit (Fixture.world (Fixture.saddle_below 4)) []
            (Fixture.options 2 5 1e-4) empty 30 10 _ ltac:(vm_compute; reflexivity)
            ltac:(reflexivity) 3%Z (Fixture.constant 2 2 1) (-1)%float [-1; -1]%float
            1e-2%float true).
  cbn. do 7 right. left. reflexivity.
Defined.

(** A user-supplied [Y0]. *)
Lemma SESync_initial_iterate_witness :
  exists s,
    SESync_run unit (Fixture.world (Fixture.saddle_below 2)) []
      (Fixture.options 2 5 1e-4) (Fixture.constant 2 3 0.25) 30 10 = Some s /\
    filter Log.is_initialization (calls s) = [] /\
    Log.first_iterate (calls s) = Some (Fixture.constant 2 3 0.25).
Proof.
  eexists. split; [vm_compute; reflexivity|].
  destruct (SESync_initial_iterate unit (Fixture.world (Fixture.saddle_below 2)) []
              (Fixture.options 2 5 1e-4) (Fixture.constant 2 3 0.25) 30)
    as (Hgiven & _ & _ & Hrun).
  destruct (Hrun 10 _ ltac:(vm_compute; reflexivity)) as [Hinit _].
  split; [rewrite Hinit; reflexivity|reflexivity].
Defined.

(** Outside the range, with the eigenvalue [-1]. With a tolerance of
    [1e306], [200 * tol] overflows: the initial step is
    [+infinity] and so is the first trial step, while [100 * tol /
    |lambda_min|] is [1e308]. With the smallest positive tolerance and the
    eigenvalue [-3], the two differ by rounding. With a tolerance that is
    NaN the step length is NaN: [escape_saddle] fails at the first trial,
    where [alpha <= 1e-6] does not hold. *)
Lemma initial_step_overflow :
  (-1 =? 0)%float = false /\
  alpha_init (-1) 1e306 = infinity /\
  halvings 1 (alpha_init (-1) 1e306) = infinity /\
  (100 * 1e306 / abs (-1) = 1e308)%float /\
  (halvings 1 (alpha_init (-1) 1e306) =? 100 * 1e306 / abs (-1))%float = false /\
  trial (Fixture.problem (Fixture.no_descent (-1))) 3 (Fixture.constant 2 2 1) [1; 1]%float
    (halvings 1 (alpha_init (-1) 1e306))
  <> trial (Fixture.problem (Fixture.no_descent (-1))) 3 (Fixture.constant 2 2 1) [1; 1]%float
       (100 * 1e306 / abs (-1))%float /\
  (halvings 1 (alpha_init (-3) 5e-324) =? 100 * 5e-324 / abs (-3))%float = false /\
  escape_saddle Fixture.norm1 (Fixture.problem (Fixture.no_descent (-1))) 3
    (Fixture.constant 2 2 1) (-1) [1; 1]%float nan 1 empty = Some (false, empty) /\
  (halvings 1 (alpha_init (-1) nan) <=? 1e-6)%float = false.
Proof.
  repeat split; try (vm_compute; reflexivity).
  vm_compute. discriminate.
Qed.

(** A NaN for an eigenvalue. [min_eig_num_tol] is [1e-4], and the
    eigenvalue routine converges and reports NaN. NaN fails [lambda_min >
    -min_eig_num_tol], [escape_saddle] is called with it, and neither
    [lambda_min <= -min_eig_num_tol] nor [|lambda_min| > 0] holds. *)
Lemma nan_eigenvalue_reaches_escape_saddle :
  exists s,
    SESync_run unit (Fixture.world (Fixture.always_saddle nan)) []
      (Fixture.options 2 5 1e-4) empty 30 10 = Some s /\
    (0 <? min_eig_num_tol (Fixture.options 2 5 1e-4))%float = true /\
    In (compute_S_minus_Lambda_min_eig_ 2 (Fixture.constant 2 2 1) true nan) (calls s) /\
    In (escape_saddle_ 3 (Fixture.constant 2 2 1) nan [-1; -1]%float 1e-2 false) (calls s) /\
    (nan <=? - min_eig_num_tol (Fixture.options 2 5 1e-4))%float = false /\
    (0 <? abs nan)%float = false /\
    status (SESyncResults s) = SADDLE_POINT.
Proof.
  eexists. split; [vm_compute; reflexivity|].
  split; [reflexivity|].
  split; [cbn; do 3 right; left; reflexivity|].
  split; [cbn; right; left; reflexivity|].
  repeat split.
Qed.

(** With [min_eig_num_tol = 0] and [lambda_min = 0] the initial step is
    [+infinity], every trial point is made of NaN and of infinities, no trial
    is accepted, and the line search does not end. *)
Lemma zero_eigenvalue_search_diverges (n : nat) :
  gt 0%float (- 0)%float = false /\
  alpha_init 0 1e-2 = infinity /\
  escape_saddle Fixture.norm1 (Fixture.problem (Fixture.always_saddle 0)) 3
    (Fixture.constant 2 2 1) 0 [-1; -1]%float 1e-2 n empty = None.
Proof.
  split; [reflexivity|]. split; [reflexivity|].
  unfold escape_saddle.
  change (alpha_init 0 1e-2) with infinity.
  assert (H : forall calls,
             line_search Fixture.norm1 (Fixture.problem (Fixture.always_saddle 0)) 3
               (Fixture.constant 2 2 1) [-1; -1]%float 1e-2 n infinity calls = None).
  { induction n as [|n IH]; intro calls; [reflexivity|].
    cbn [line_search]. change (halve infinity) with infinity.
    replace (accepted Fixture.norm1 (Fixture.problem (Fixture.always_saddle 0)) 3
               (Fixture.constant 2 2 1) 1e-2
               (trial (Fixture.problem (Fixture.always_saddle 0)) 3 (Fixture.constant 2 2 1)
                  [-1; -1]%float infinity))
      with false by (vm_compute; reflexivity).
    change (gt infinity alpha_min) with true. cbn [negb andb]. apply IH. }
  rewrite H. reflexivity.
Qed.


(** ** The levels of a run, one after the other *)

Section Levels.

Variable RelativePoseMeasurement : Type.
Variable world : Collaborators RelativePoseMeasurement.
Variable measurements : list RelativePoseMeasurement.
Variable options : SESyncOpts.
Variable n_search : nat.

Local Abbreviation tol := (min_eig_num_tol options).
Local Abbreviation the_problem := (problem RelativePoseMeasurement world measurements options).
Local Abbreviation level :=
  (staircase_level RelativePoseMeasurement world measurements options n_search).
Local Abbreviation loop := (staircase RelativePoseMeasurement world measurements options n_search).

(** The four ways in which an iteration of the loop ends, and what each
    leaves behind. *)
Lemma staircase_level_cases (r : Z) (s : State) (fl : Flow) :
  level r s = Some fl ->
  exists (x : Matrix) (conv : bool) (lam : float) (v : Vector),
    let rk := relaxation_rank s in
    let up := uint (r + 1) in
    let g := grad_norm_tol options in
    let base := compute_S_minus_Lambda_min_eig_ rk x conv lam :: TNT_ rk (Y s) x :: calls s in
    let tr := minimum_eigenvalues (SESyncResults s) in
    let s' := match fl with Next s' => s' | Break s' => s' end in
    let R' := SESyncResults s' in
    Yopt R' = x /\ lambda_min R' = lam /\ v_min R' = v /\
    match fl with
    | Break _ =>
        (conv = false /\ status R' = EIG_IMPRECISION /\ calls s' = base /\
         relaxation_rank s' = rk /\ minimum_eigenvalues R' = tr) \/
        (conv = true /\ gt lam (- tol)%float = true /\ status R' = GLOBAL_OPT /\
         calls s' = base /\ relaxation_rank s' = rk /\ minimum_eigenvalues R' = tr ++ [lam]) \/
        (conv = true /\ gt lam (- tol)%float = false /\ status R' = SADDLE_POINT /\
         calls s' = escape_saddle_ up x lam v g false :: set_relaxation_rank_ up :: base /\
         relaxation_rank s' = up /\ minimum_eigenvalues R' = tr ++ [lam] /\
         escape_saddle (norm world) the_problem up x lam v g n_search empty
         = Some (false, empty))
    | Next _ =>
        conv = true /\ gt lam (- tol)%float = false /\
        status R' = status (SESyncResults s) /\
        calls s' = escape_saddle_ up x lam v g true :: set_relaxation_rank_ up :: base /\
        relaxation_rank s' = up /\ minimum_eigenvalues R' = tr ++ [lam] /\
        escape_saddle (norm world) the_problem up x lam v g n_search empty
        = Some (true, Y s')
    end.
Proof.
  intro H.
  unfold staircase_level, run_TNT, min_eig in H.
  destruct (TNT_solve _ _ _ _ _ _ _ _ _) as [[T' N'] its'].
  cbn [SESyncResults calls relaxation_rank Y NablaF_Y record_TNT Yopt lambda_min v_min] in H.
  destruct (compute_S_minus_Lambda_min_eig _ _ _ _ _ _ _ _) as [[conv lam] v].
  exists (TNT.x T'), conv, lam, v.
  destruct conv; cbn [negb] in H.
  - cbn [SESyncResults calls relaxation_rank Y NablaF_Y with_results push_min_eig record_eig
         lambda_min] in H.
    destruct (gt lam (- tol)%float) eqn:G.
    + inversion H; subst fl; clear H. cbn.
      split; [reflexivity|]. split; [reflexivity|]. split; [reflexivity|].
      right; left. repeat split.
    + unfold escape, ascend in H.
      cbn [SESyncResults calls relaxation_rank Y NablaF_Y Yopt lambda_min v_min] in H.
      destruct (escape_saddle _ _ _ _ _ _ _ _ _) as [[ok Yplus]|] eqn:E; [|discriminate].
      destruct ok; inversion H; subst fl; clear H; cbn.
      * split; [reflexivity|]. split; [reflexivity|]. split; [reflexivity|].
        repeat split. exact E.
      * split; [reflexivity|]. split; [reflexivity|]. split; [reflexivity|].
        right; right. repeat split.
        assert (HY : Yplus = empty).
        { pose proof E as E'. unfold escape_saddle in E'.
          destruct (line_search _ _ _ _ _ _ _ _ _) as [ls|]; [|discriminate].
          destruct (escape_success ls); inversion E'; reflexivity. }
        subst Yplus. exact E.
  - inversion H; subst fl; clear H. cbn.
    split; [reflexivity|]. split; [reflexivity|]. split; [reflexivity|].
    left. repeat split.
Qed.

(** The point of which an iteration records the eigenvalue is the one the
    solver returned when run from the incoming iterate. *)
Lemma staircase_level_solution (r : Z) (s : State) (fl : Flow) :
  level r s = Some fl ->
  Yopt (SESyncResults match fl with Next s' => s' | Break s' => s' end)
  = TNT.x (fst (fst (TNT_solve world the_problem (relaxation_rank s) (Y s) (NablaF_Y s)
                       (iterates (SESyncResults s)) (has_precon options) (params options)
                       (log_iterates options)))).
Proof.
  intro H.
  unfold staircase_level, run_TNT, min_eig in H.
  destruct (TNT_solve _ _ _ _ _ _ _ _ _) as [[T' N'] its'].
  cbn [SESyncResults calls relaxation_rank Y NablaF_Y record_TNT Yopt lambda_min v_min] in H.
  destruct (compute_S_minus_Lambda_min_eig _ _ _ _ _ _ _ _) as [[conv' lam'] v'].
  cbn [fst].
  destruct conv'; cbn [negb] in H.
  - cbn [SESyncResults calls relaxation_rank Y NablaF_Y with_results push_min_eig record_eig
         lambda_min] in H.
    destruct (gt lam' (- tol)%float).
    + inversion H; subst fl. reflexivity.
    + unfold escape, ascend in H.
      cbn [SESyncResults calls relaxation_rank Y NablaF_Y Yopt lambda_min v_min] in H.
      destruct (escape_saddle _ _ _ _ _ _ _ _ _) as [[ok Yplus]|]; [|discriminate].
      destruct ok; inversion H; subst fl; reflexivity.
  - inversion H; subst fl. reflexivity.
Qed.

(** Induction on the iterations of the loop. *)
Lemma staircase_rule (P : Z -> State -> Prop) (Q : State -> Prop) :
  (forall r s, P r s -> (rmax options < r)%Z -> Q s) ->
  (forall r s s', P r s -> (r <= rmax options)%Z -> level r s = Some (Break s') -> Q s') ->
  (forall r s s', P r s -> (r <= rmax options)%Z -> level r s = Some (Next s') ->
     P (uint (r + 1)) s') ->
  forall levels r s s', P r s -> loop levels r s = Some s' -> Q s'.
Proof.
  intros Hexit Hbreak Hnext.
  induction levels as [|levels IH]; intros r s s' HP H; cbn [staircase] in H.
  - destruct (r <=? rmax options)%Z eqn:E; [discriminate|].
    apply Z.leb_gt in E. inversion H; subst s'. exact (Hexit _ _ HP E).
  - destruct (r <=? rmax options)%Z eqn:E.
    + apply Z.leb_le in E.
      destruct (level r s) as [[s1|s1]|] eqn:L; [| |discriminate].
      * exact (IH _ _ _ (Hnext _ _ _ HP E L) H).
      * inversion H; subst s'. exact (Hbreak _ _ _ HP E L).
    + apply Z.leb_gt in E. inversion H; subst s'. exact (Hexit _ _ HP E).
Qed.

End Levels.

(** ** The ranks of a run *)

Section Ranks.

Variable RelativePoseMeasurement : Type.
Variable world : Collaborators RelativePoseMeasurement.
Variable measurements : list RelativePoseMeasurement.
Variable options : SESyncOpts.
Variable Y0 : Matrix.
Variable n_search : nat.

Local Abbreviation start := (initialize RelativePoseMeasurement world measurements options Y0).
Local Abbreviation level :=
  (staircase_level RelativePoseMeasurement world measurements options n_search).
Local Abbreviation loop := (staircase RelativePoseMeasurement world measurements options n_search).
Local Abbreviation run :=
  (SESync_run RelativePoseMeasurement world measurements options Y0 n_search).

Lemma solver_ranks_length (l : list Call) :
  length (Trace.solver_ranks l) = Log.count Log.is_TNT l.
Proof.
  unfold Log.count. induction l as [|c l IH]; [reflexivity|].
  destruct c; cbn [Trace.solver_ranks filter Log.is_TNT]; try exact IH.
  rewrite length_app, IH. cbn. lia.
Qed.

Lemma ranks_from_succ (r : Z) (k : nat) :
  Trace.ranks_from r (S k) = Trace.ranks_from r k ++ [(r + Z.of_nat k)%Z].
Proof.
  unfold Trace.ranks_from. rewrite seq_S, map_app. reflexivity.
Qed.

Lemma ranks_from_length (r : Z) (k : nat) : length (Trace.ranks_from r k) = k.
Proof. unfold Trace.ranks_from. rewrite length_map, length_seq. reflexivity. Qed.

Lemma initialize_status : status (SESyncResults start) = RS_ITER_LIMIT.
Proof.
  unfold initialize.
  destruct (negb (size Y0 =? 0)%nat); [|destruct (use_chordal_initialization options)];
    reflexivity.
Qed.

Lemma initialize_no_solver : Trace.solver_ranks (calls start) = [].
Proof.
  unfold initialize.
  destruct (negb (size Y0 =? 0)%nat); [|destruct (use_chordal_initialization options)];
    reflexivity.
Qed.

(** The state in which the loop is left, when no rank wraps around. *)
Lemma staircase_ranks (levels : nat) (s : State) :
  is_uint (r0 options) -> (rmax options < UINT_MAX)%Z ->
  loop levels (r0 options) start = Some s ->
  let n := Log.count Log.is_TNT (calls s) in
  let k := Z.of_nat n in
  Trace.solver_ranks (calls s) = Trace.ranks_from (r0 options) n /\
  (k <= Z.max 0 (rmax options - r0 options + 1))%Z /\
  match status (SESyncResults s) with
  | GLOBAL_OPT | EIG_IMPRECISION =>
      (1 <= k)%Z /\ relaxation_rank s = (r0 options + k - 1)%Z
  | SADDLE_POINT => (1 <= k)%Z /\ relaxation_rank s = (r0 options + k)%Z
  | RS_ITER_LIMIT =>
      relaxation_rank s = (r0 options + k)%Z /\
      k = Z.max 0 (rmax options - r0 options + 1)
  end.
Proof.
  intros [Hr0 Hr0'] Hmax H.
  pose (P := fun (r : Z) (s : State) =>
    relaxation_rank s = r /\ status (SESyncResults s) = RS_ITER_LIMIT /\
    (r0 options <= r <= Z.max (r0 options) (rmax options + 1))%Z /\
    Trace.solver_ranks (calls s) = Trace.ranks_from (r0 options) (Z.to_nat (r - r0 options))).
  pose (Q := fun (s : State) =>
    let n := Log.count Log.is_TNT (calls s) in
    let k := Z.of_nat n in
    Trace.solver_ranks (calls s) = Trace.ranks_from (r0 options) n /\
    (k <= Z.max 0 (rmax options - r0 options + 1))%Z /\
    match status (SESyncResults s) with
    | GLOBAL_OPT | EIG_IMPRECISION =>
        (1 <= k)%Z /\ relaxation_rank s = (r0 options + k - 1)%Z
    | SADDLE_POINT => (1 <= k)%Z /\ relaxation_rank s = (r0 options + k)%Z
    | RS_ITER_LIMIT =>
        relaxation_rank s = (r0 options + k)%Z /\
        k = Z.max 0 (rmax options - r0 options + 1)
    end).
  change (Q s).
  apply (staircase_rule RelativePoseMeasurement world measurements options n_search P Q)
    with (levels := levels) (r := r0 options) (s := start); [| | | |exact H]; subst P Q;
    cbn beta zeta.
  - intros r s1 (Hrk & Hst & Hr & Hranks) Hexit.
    rewrite <- solver_ranks_length, Hranks, ranks_from_length, Hst.
    split; [reflexivity|]. lia.
  - intros r s1 s' (Hrk & Hst & Hr & Hranks) Hle L.
    destruct (staircase_level_cases _ _ _ _ _ _ _ _ L) as (x & conv & lam & v & Hc).
    cbn zeta in Hc. destruct Hc as (_ & _ & _ & Hc).
    assert (Hup : uint (r + 1) = (r + 1)%Z).
    { unfold uint. unfold UINT_MAX in Hmax. apply Z.mod_small. lia. }
    assert (Hn : Trace.solver_ranks (calls s') =
                 Trace.ranks_from (r0 options) (S (Z.to_nat (r - r0 options)))).
    { rewrite ranks_from_succ, <- Hranks, Z2Nat.id by lia.
      replace (r0 options + (r - r0 options))%Z with r by lia.
      destruct Hc as [(_ & _ & E & _)|[(_ & _ & _ & E & _)|(_ & _ & _ & E & _)]];
        rewrite E, Hrk; reflexivity. }
    rewrite <- solver_ranks_length, Hn, ranks_from_length.
    split; [reflexivity|]. split; [lia|].
    destruct Hc as [(_ & St & _ & Rk & _)|[(_ & _ & St & _ & Rk & _)|(_ & _ & St & _ & Rk & _)]];
      rewrite St, Rk; lia.
  - intros r s1 s' (Hrk & Hst & Hr & Hranks) Hle L.
    destruct (staircase_level_cases _ _ _ _ _ _ _ _ L) as (x & conv & lam & v & Hc).
    cbn zeta in Hc. destruct Hc as (_ & _ & _ & _ & _ & St & E & Rk & _).
    assert (Hup : uint (r + 1) = (r + 1)%Z).
    { unfold uint. unfold UINT_MAX in Hmax. apply Z.mod_small. lia. }
    rewrite Hup in *.
    split; [exact Rk|]. split; [congruence|]. split; [lia|].
    rewrite E. cbn [Trace.solver_ranks]. rewrite Hranks, Hrk.
    replace (Z.to_nat (r + 1 - r0 options)) with (S (Z.to_nat (r - r0 options))) by lia.
    rewrite ranks_from_succ, Z2Nat.id by lia.
    replace (r0 options + (r - r0 options))%Z with r by lia. reflexivity.
  - split; [apply initialize_rank|]. split; [apply initialize_status|].
    split; [lia|]. rewrite Z.sub_diag. apply initialize_no_solver.
Qed.

(** X2. When [rmax] is below [UINT_MAX], the solver is run at the ranks [r0],
    [r0 + 1], ... in this order, once at each, and never above [rmax]: a run
    has at most [rmax - r0 + 1] levels. *)
Theorem SESync_solver_ranks (levels : nat) (s : State) :
  is_uint (r0 options) -> (rmax options < UINT_MAX)%Z ->
  run levels = Some s ->
  let n := Log.count Log.is_TNT (calls s) in
  Trace.solver_ranks (calls s) = Trace.ranks_from (r0 options) n /\
  (Z.of_nat n <= Z.max 0 (rmax options - r0 options + 1))%Z /\
  Forall (fun rank => (r0 options <= rank <= rmax options)%Z) (Trace.solver_ranks (calls s)).
Proof.
  intros Hr0 Hmax H.
  destruct (SESync_run_inv _ _ _ _ _ _ _ _ H) as (s0 & L & ->).
  destruct (staircase_ranks _ _ Hr0 Hmax L) as (Hranks & Hk & _).
  unfold post_process. cbn [calls Trace.solver_ranks].
  change (Log.count Log.is_TNT (round_solution_ (relaxation_rank s0) (Yopt (SESyncResults s0))
                                :: calls s0))
    with (Log.count Log.is_TNT (calls s0)).
  cbn zeta. split; [exact Hranks|]. split; [exact Hk|].
  rewrite Hranks. unfold Trace.ranks_from. apply Forall_forall.
  intros rank Hin. apply in_map_iff in Hin. destruct Hin as (i & <- & Hi).
  apply in_seq in Hi. lia.
Qed.

(** X3. When [rmax] is below [UINT_MAX], the rank of the problem at the return,
    which is the rank at which the solution was rounded, is the rank of the
    last run of the solver after GLOBAL_OPT and EIG_IMPRECISION, and one above
    it after SADDLE_POINT and after RS_ITER_LIMIT; RS_ITER_LIMIT is returned
    after [rmax - r0 + 1] levels exactly (none when [rmax < r0]). *)
Theorem SESync_rank_at_return (levels : nat) (s : State) :
  is_uint (r0 options) -> (rmax options < UINT_MAX)%Z ->
  run levels = Some s ->
  let R := SESyncResults s in
  let k := Z.of_nat (Log.count Log.is_TNT (calls s)) in
  hd_error (calls s) = Some (round_solution_ (relaxation_rank s) (Yopt R)) /\
  match status R with
  | GLOBAL_OPT | EIG_IMPRECISION =>
      (1 <= k)%Z /\ relaxation_rank s = (r0 options + k - 1)%Z
  | SADDLE_POINT => (1 <= k)%Z /\ relaxation_rank s = (r0 options + k)%Z
  | RS_ITER_LIMIT =>
      relaxation_rank s = (r0 options + k)%Z /\
      k = Z.max 0 (rmax options - r0 options + 1)
  end.
Proof.
  intros Hr0 Hmax H.
  destruct (SESync_run_inv _ _ _ _ _ _ _ _ H) as (s0 & L & ->).
  destruct (staircase_ranks _ _ Hr0 Hmax L) as (_ & _ & Hst).
  unfold post_process.
  cbn [calls SESyncResults relaxation_rank record_rounding status Yopt hd_error].
  change (Log.count Log.is_TNT (round_solution_ (relaxation_rank s0) (Yopt (SESyncResults s0))
                                :: calls s0))
    with (Log.count Log.is_TNT (calls s0)).
  cbn zeta. split; [reflexivity|exact Hst].
Qed.

(** X4. When [rmax] is [UINT_MAX], the test of the loop never fails: the level
    after [UINT_MAX] is 0, and no run returns RS_ITER_LIMIT. *)
Theorem SESync_no_iteration_limit (levels : nat) (s : State) :
  is_uint (r0 options) -> (UINT_MAX <= rmax options)%Z ->
  run levels = Some s ->
  status (SESyncResults s) <> RS_ITER_LIMIT /\
  (1 <= Log.count Log.is_TNT (calls s)) /\
  forall n s0,
    loop (S n) UINT_MAX s0 =
    match level UINT_MAX s0 with
    | Some (Next s1) => loop n 0%Z s1
    | Some (Break s1) => Some s1
    | None => None
    end.
Proof.
  intros Hr0 Hmax H.
  destruct (SESync_run_inv _ _ _ _ _ _ _ _ H) as (s0 & L & ->).
  unfold post_process. cbn [SESyncResults record_rounding status calls].
  change (Log.count Log.is_TNT (round_solution_ (relaxation_rank s0) (Yopt (SESyncResults s0))
                                :: calls s0))
    with (Log.count Log.is_TNT (calls s0)).
  rewrite <- and_assoc. split.
  - pose (P := fun (r : Z) (_ : State) => is_uint r).
    pose (Q := fun (s : State) =>
      status (SESyncResults s) <> RS_ITER_LIMIT /\ 1 <= Log.count Log.is_TNT (calls s)).
    change (Q s0).
    apply (staircase_rule RelativePoseMeasurement world measurements options n_search P Q)
      with (levels := levels) (r := r0 options) (s := start); [| | |exact Hr0|exact L];
      subst P Q; cbn beta.
    + intros r s1 [_ Hr] Hexit. lia.
    + intros r s1 s' _ _ L1.
      destruct (staircase_level_cases _ _ _ _ _ _ _ _ L1) as (x & conv & lam & v & Hc).
      cbn zeta in Hc. destruct Hc as (_ & _ & _ & Hc).
      destruct Hc as [(_ & St & E & _)|[(_ & _ & St & E & _)|(_ & _ & St & E & _)]];
        rewrite St, E; (split; [discriminate|]); unfold Log.count; cbn; lia.
    + intros r s1 s' _ _ _. unfold is_uint, uint, UINT_MAX.
      pose proof (Z.mod_pos_bound (r + 1) (2 ^ 32) ltac:(lia)). lia.
  - intros n s1. cbn [staircase].
    replace (UINT_MAX <=? rmax options)%Z with true by (symmetry; apply Z.leb_le; exact Hmax).
    destruct (level UINT_MAX s1) as [[s2|s2]|]; reflexivity.
Qed.

End Ranks.

(** The point that [escape_saddle] returns has passed the test of the line
    search. *)
Lemma escape_saddle_accepts (norm : Matrix -> float) (problem : SESyncProblem) (rank : Z)
  (Y : Matrix) (lambda_min : float) (v_min : Vector) (gradient_tolerance : float)
  (n : nat) (Yplus M : Matrix) :
  escape_saddle norm problem rank Y lambda_min v_min gradient_tolerance n Yplus
  = Some (true, M) ->
  (evaluate_objective problem rank M <? evaluate_objective problem rank Y)%float = true /\
  gt (norm (Riemannian_gradient problem rank M)) gradient_tolerance = true.
Proof.
  unfold escape_saddle. intro H.
  destruct (line_search _ _ _ _ _ _ _ _ _) as [ls|] eqn:L; [|discriminate].
  apply line_search_inv in L. destruct L as (K & _ & _ & _ & ->).
  cbn [escape_success Ytest_final] in H.
  destruct (accepted _ _ _ _ _ _) eqn:A; inversion H; subst M.
  unfold accepted in A. apply andb_true_iff in A. exact A.
Qed.

(** The point that [escape_saddle] returns is a trial point of the line
    search. *)
Lemma escape_saddle_trial_point (norm : Matrix -> float) (problem : SESyncProblem) (rank : Z)
  (Y : Matrix) (lambda_min : float) (v_min : Vector) (gradient_tolerance : float)
  (n : nat) (Yplus M : Matrix) :
  escape_saddle norm problem rank Y lambda_min v_min gradient_tolerance n Yplus
  = Some (true, M) ->
  exists a, M = trial problem rank Y v_min a.
Proof.
  unfold escape_saddle. intro H.
  destruct (line_search _ _ _ _ _ _ _ _ _) as [ls|] eqn:L; [|discriminate].
  apply line_search_inv in L. destruct L as (K & _ & _ & _ & ->).
  cbn [escape_success Ytest_final] in H.
  destruct (accepted _ _ _ _ _ _); inversion H.
  eexists. reflexivity.
Qed.

(** ** The order of the calls *)

Section Order.

Variable RelativePoseMeasurement : Type.
Variable world : Collaborators RelativePoseMeasurement.
Variable measurements : list RelativePoseMeasurement.
Variable options : SESyncOpts.
Variable Y0 : Matrix.
Variable n_search : nat.

Local Abbreviation tol := (min_eig_num_tol options).
Local Abbreviation the_problem := (problem RelativePoseMeasurement world measurements options).
Local Abbreviation start := (initialize RelativePoseMeasurement world measurements options Y0).
Local Abbreviation level :=
  (staircase_level RelativePoseMeasurement world measurements options n_search).
Local Abbreviation loop := (staircase RelativePoseMeasurement world measurements options n_search).
Local Abbreviation run :=
  (SESync_run RelativePoseMeasurement world measurements options Y0 n_search).
Local Abbreviation link :=
  (Trace.link RelativePoseMeasurement world measurements options Y0 n_search).
Local Abbreviation chained :=
  (Trace.chained RelativePoseMeasurement world measurements options Y0 n_search).

Lemma chained_app (newer older : list Call) : chained (newer ++ older) -> chained older.
Proof.
  induction newer as [|c newer IH]; [trivial|].
  cbn [app Trace.chained]. intros (_ & _ & H). exact (IH H).
Qed.

Lemma chained_link (l newer older : list Call) (c : Call) :
  chained l -> l = newer ++ c :: older -> link c older.
Proof.
  intros H E. rewrite E in H. apply chained_app in H. apply H.
Qed.

Lemma chained_next (l newer older : list Call) (c p : Call) :
  chained l -> l = newer ++ c :: p :: older -> Trace.next c (p :: older).
Proof.
  intros H E. rewrite E in H. apply chained_app in H. apply H.
Qed.

(** The iterate with which the loop is entered at level [r]. *)
Let entry (r : Z) (s : State) : Prop :=
  (calls s = calls start /\ Y s = Y start /\ r = r0 options) \/
  (exists Ys lam v g rest,
     calls s = escape_saddle_ r Ys lam v g true :: rest /\
     escape_saddle (norm world) the_problem r Ys lam v g n_search empty = Some (true, Y s)).

Let no_solver_ahead (l : list Call) : Prop :=
  match l with
  | TNT_ _ _ _ :: _ => False
  | _ => True
  end.

Lemma entry_no_solver_ahead (r : Z) (s : State) : entry r s -> no_solver_ahead (calls s).
Proof.
  intros [(E & _)|(Ys & lam & v & g & rest & E & _)]; rewrite E; [|exact I].
  unfold initialize.
  destruct (negb (size Y0 =? 0)%nat); [|destruct (use_chordal_initialization options)];
    exact I.
Qed.

Lemma no_solver_ahead_next (c : Call) (l : list Call) : no_solver_ahead l -> Trace.next c l.
Proof.
  destruct l as [|[] l]; cbn; trivial. contradiction.
Qed.

Lemma initialize_chained : chained (calls start).
Proof.
  unfold initialize.
  destruct (negb (size Y0 =? 0)%nat); [|destruct (use_chordal_initialization options)];
    cbn; repeat split; auto.
Qed.

Lemma staircase_chained (levels : nat) (s : State) :
  loop levels (r0 options) start = Some s ->
  chained (calls s) /\ no_solver_ahead (calls s).
Proof.
  intro H.
  pose (P := fun (r : Z) (s : State) =>
    relaxation_rank s = r /\ chained (calls s) /\ entry r s).
  pose (Q := fun (s : State) => chained (calls s) /\ no_solver_ahead (calls s)).
  change (Q s).
  apply (staircase_rule RelativePoseMeasurement world measurements options n_search P Q)
    with (levels := levels) (r := r0 options) (s := start); [| | | |exact H]; subst P Q;
    cbn beta.
  - intros r s1 (_ & Hch & Hen) _. split; [exact Hch|exact (entry_no_solver_ahead _ _ Hen)].
  - intros r s1 s' (Hrk & Hch & Hen) _ L.
    destruct (staircase_level_cases _ _ _ _ _ _ _ _ L) as (x & conv & lam & v & Hc).
    cbn zeta in Hc. destruct Hc as (_ & _ & _ & Hc).
    assert (Hsolver : link (TNT_ (relaxation_rank s1) (Y s1) x) (calls s1)).
    { rewrite Hrk. destruct Hen as [(E & EY & Er)|(Ys & lam1 & v1 & g & rest & E & Esc)].
      - left. auto.
      - right. exists Ys, lam1, v1, g, rest. auto. }
    pose proof (no_solver_ahead_next (TNT_ (relaxation_rank s1) (Y s1) x) _
                  (entry_no_solver_ahead _ _ Hen)) as Hnext.
    destruct Hc as [(_ & _ & E & _)|[(_ & _ & _ & E & _)|(-> & G & _ & E & _)]];
      rewrite E; (split; [|exact I]); cbn [Trace.chained Trace.link Trace.next].
    + split; [eexists; eexists; reflexivity|]. split; [eexists; eexists; reflexivity|].
      split; [exact Hsolver|]. split; [exact Hnext|exact Hch].
    + split; [eexists; eexists; reflexivity|]. split; [eexists; eexists; reflexivity|].
      split; [exact Hsolver|]. split; [exact Hnext|exact Hch].
    + split; [do 3 eexists; split; [reflexivity|]; rewrite Hrk; auto|].
      split; [exact I|].
      split; [right; do 4 eexists; split; [reflexivity|]; rewrite Hrk; auto|].
      split; [exact I|].
      split; [eexists; eexists; reflexivity|]. split; [eexists; eexists; reflexivity|].
      split; [exact Hsolver|]. split; [exact Hnext|exact Hch].
  - intros r s1 s' (Hrk & Hch & Hen) _ L.
    destruct (staircase_level_cases _ _ _ _ _ _ _ _ L) as (x & conv & lam & v & Hc).
    cbn zeta in Hc. destruct Hc as (_ & _ & _ & -> & G & _ & E & Rk & _ & Esc).
    assert (Hsolver : link (TNT_ (relaxation_rank s1) (Y s1) x) (calls s1)).
    { rewrite Hrk. destruct Hen as [(E1 & EY & Er)|(Ys & lam1 & v1 & g & rest & E1 & Esc1)].
      - left. auto.
      - right. exists Ys, lam1, v1, g, rest. auto. }
    pose proof (no_solver_ahead_next (TNT_ (relaxation_rank s1) (Y s1) x) _
                  (entry_no_solver_ahead _ _ Hen)) as Hnext.
    split; [exact Rk|]. split.
    + rewrite E. cbn [Trace.chained Trace.link Trace.next].
      split; [do 3 eexists; split; [reflexivity|]; rewrite Hrk; auto|].
      split; [exact I|].
      split; [right; do 4 eexists; split; [reflexivity|]; rewrite Hrk; auto|].
      split; [exact I|].
      split; [eexists; eexists; reflexivity|]. split; [eexists; eexists; reflexivity|].
      split; [exact Hsolver|]. split; [exact Hnext|exact Hch].
    + right. do 5 eexists. split; [exact E|exact Esc].
  - split; [apply initialize_rank|]. split; [apply initialize_chained|].
    left. auto.
Qed.

(** The log of a run is chained, and its newest call is the rounding. *)
Lemma SESync_chained (levels : nat) (s : State) :
  run levels = Some s ->
  chained (calls s) /\
  exists older, calls s = round_solution_ (relaxation_rank s) (Yopt (SESyncResults s)) :: older.
Proof.
  intro H.
  destruct (SESync_run_inv _ _ _ _ _ _ _ _ H) as (s0 & L & ->).
  destruct (staircase_chained _ _ L) as [Hch Hno].
  unfold post_process. cbn [calls relaxation_rank SESyncResults record_rounding Yopt].
  split; [|eexists; reflexivity].
  cbn [Trace.chained Trace.link]. split; [exact I|].
  split; [apply no_solver_ahead_next, Hno|exact Hch].
Qed.

(** X5. In every run, each eigenvalue computation comes right after a run of the
    solver: it is made at the rank of that run and at the point the solver
    returned. Conversely each run of the solver is followed at once by an
    eigenvalue computation at its rank and at the point it returned. *)
Theorem SESync_certificate_at_solution (levels : nat) (s : State) :
  run levels = Some s ->
  (forall newer older rank Y conv lam,
     calls s = newer ++ compute_S_minus_Lambda_min_eig_ rank Y conv lam :: older ->
     exists Yin rest, older = TNT_ rank Yin Y :: rest) /\
  (forall newer older rank Yin x,
     calls s = newer ++ TNT_ rank Yin x :: older ->
     exists newer' conv lam,
       newer = newer' ++ [compute_S_minus_Lambda_min_eig_ rank x conv lam]).
Proof.
  intro H. destruct (SESync_chained _ _ H) as [Hch (tail & Hhd)]. split.
  - intros newer older rank Y conv lam E.
    exact (chained_link _ _ _ _ Hch E).
  - intros newer older rank Yin x E.
    destruct newer as [|c0 newer0] eqn:En; [rewrite Hhd in E; discriminate|].
    rewrite <- En in *.
    destruct (exists_last (l := newer)) as (newer' & c & Ec); [subst newer; discriminate|].
    rewrite Ec, <- app_assoc in E. cbn [app] in E.
    destruct (chained_next _ _ _ _ _ Hch E) as (conv & lam & ->).
    exists newer', conv, lam. exact Ec.
Qed.

(** X6. In every run, each call of [escape_saddle] comes right after the rank
    was raised, which itself comes right after a converged eigenvalue
    computation whose eigenvalue failed [lambda_min > -min_eig_num_tol]:
    [escape_saddle] is given that eigenvalue, the point at which it was
    computed, which is the point the solver returned, and [grad_norm_tol],
    and it runs at the rank above the one of the solver. *)
Theorem SESync_escape_after_saddle (levels : nat) (s : State) :
  run levels = Some s ->
  forall newer older rank Y lam v g ok,
    calls s = newer ++ escape_saddle_ rank Y lam v g ok :: older ->
    exists rk Yin rest,
      older = set_relaxation_rank_ rank
              :: compute_S_minus_Lambda_min_eig_ rk Y true lam
              :: TNT_ rk Yin Y :: rest /\
      rank = uint (rk + 1) /\
      gt lam (- tol)%float = false /\
      g = grad_norm_tol options.
Proof.
  intros H newer older rank Y lam v g ok E.
  destruct (SESync_chained _ _ H) as [Hch _].
  exact (chained_link _ _ _ _ Hch E).
Qed.

(** X7. In every run, the solver starts either from the initial iterate, at rank
    [r0] and before any other call of the loop, or from the point that a
    successful [escape_saddle] has just returned, at the rank at which
    [escape_saddle] ran; at that rank this point has a smaller objective than
    the point [escape_saddle] was given, and a gradient norm above
    [grad_norm_tol]. *)
Theorem SESync_solver_warm_start (levels : nat) (s : State) :
  run levels = Some s ->
  forall newer older rank Yin x,
    calls s = newer ++ TNT_ rank Yin x :: older ->
    (older = calls start /\ Yin = Y start /\ rank = r0 options) \/
    (exists Y lam v rest,
       older = escape_saddle_ rank Y lam v (grad_norm_tol options) true :: rest /\
       escape_saddle (norm world) the_problem rank Y lam v (grad_norm_tol options)
         n_search empty = Some (true, Yin) /\
       (evaluate_objective the_problem rank Yin <? evaluate_objective the_problem rank Y)%float
       = true /\
       gt (norm world (Riemannian_gradient the_problem rank Yin)) (grad_norm_tol options)
       = true).
Proof.
  intros H newer older rank Yin x E.
  destruct (SESync_chained _ _ H) as [Hch _].
  rewrite E in Hch. apply chained_app in Hch.
  destruct Hch as (Hlink & _ & Hold).
  destruct Hlink as [Hfirst|(Ys & lam & v & g & rest & Eold & Esc)]; [left; exact Hfirst|].
  right. rewrite Eold in Hold. destruct Hold as ((rk & Yin' & rest' & _ & _ & _ & Hg) & _).
  subst g. exists Ys, lam, v, rest.
  split; [exact Eold|]. split; [exact Esc|].
  exact (escape_saddle_accepts _ _ _ _ _ _ _ _ _ _ Esc).
Qed.

(** X8. When the solver returns a point with as many rows as its starting
    point, a retraction has as many rows as its base point, the first
    iterate has [r0] rows and [rmax] is below [UINT_MAX], the solver is run
    at every level on a point with as many rows as the rank, and every call
    of [escape_saddle] is made with the problem at rank [rows Y + 1], [Y]
    being the point it is given. *)
Theorem SESync_escape_rank (levels : nat) (s : State) :
  (forall rank Yin NablaF_Y iterates,
     rows (TNT.x (fst (fst (TNT_solve world the_problem rank Yin NablaF_Y iterates
                              (has_precon options) (params options)
                              (log_iterates options)))))
     = rows Yin) ->
  (forall rank M V, rows (retract the_problem rank M V) = rows M) ->
  Z.of_nat (rows (Y start)) = r0 options ->
  (rmax options < UINT_MAX)%Z ->
  run levels = Some s ->
  (forall rank Yin x,
     In (TNT_ rank Yin x) (calls s) -> rank = Z.of_nat (rows Yin) /\ rows x = rows Yin) /\
  (forall rank Y lam v g ok,
     In (escape_saddle_ rank Y lam v g ok) (calls s) -> rank = (Z.of_nat (rows Y) + 1)%Z).
Proof.
  intros Hsolver Hretract Hstart Hmax H.
  destruct (SESync_run_inv _ _ _ _ _ _ _ _ H) as (s0 & L & ->).
  pose (good := fun (l : list Call) =>
    (forall rank Yin x,
       In (TNT_ rank Yin x) l -> rank = Z.of_nat (rows Yin) /\ rows x = rows Yin) /\
    (forall rank Y lam v g ok,
       In (escape_saddle_ rank Y lam v g ok) l -> rank = (Z.of_nat (rows Y) + 1)%Z)).
  pose (P := fun (r : Z) (s : State) =>
    relaxation_rank s = r /\ Z.of_nat (rows (Y s)) = r /\ good (calls s)).
  pose (Q := fun (s : State) => good (calls s)).
  assert (Hlevel : forall r s1 fl,
            P r s1 -> (r <= rmax options)%Z ->
            staircase_level RelativePoseMeasurement world measurements options n_search r s1
            = Some fl ->
            match fl with
            | Break s' => Q s'
            | Next s' => P (uint (r + 1)) s'
            end).
  { subst P Q. cbn beta. intros r s1 fl (Hrk & HY & GT & GE) Hle L1.
    pose proof (staircase_level_solution _ _ _ _ _ _ _ _ L1) as Hx.
    destruct (staircase_level_cases _ _ _ _ _ _ _ _ L1) as (x & conv & lam & v & Hc).
    cbn zeta in Hc. destruct Hc as (Ex & _ & _ & Hc).
    rewrite Ex in Hx.
    assert (Hrows : rows x = rows (Y s1)) by (rewrite Hx; apply Hsolver).
    assert (Hup : uint (r + 1) = (Z.of_nat (rows x) + 1)%Z).
    { unfold uint. unfold UINT_MAX in Hmax. rewrite Z.mod_small by lia. lia. }
    assert (Hbase : good (compute_S_minus_Lambda_min_eig_ (relaxation_rank s1) x conv lam
                            :: TNT_ (relaxation_rank s1) (Y s1) x :: calls s1)).
    { split.
      - intros rank Yin x1 HIn. cbn [In] in HIn.
        destruct HIn as [HIn|[HIn|HIn]]; [discriminate| |exact (GT _ _ _ HIn)].
        inversion HIn; subst. split; [lia|exact Hrows].
      - intros rank Y1 lam1 v1 g1 ok1 HIn. cbn [In] in HIn.
        destruct HIn as [HIn|[HIn|HIn]]; [discriminate|discriminate|].
        exact (GE _ _ _ _ _ _ HIn). }
    assert (Hesc : forall ok,
              good (escape_saddle_ (uint (r + 1)) x lam v (grad_norm_tol options) ok
                      :: set_relaxation_rank_ (uint (r + 1))
                      :: compute_S_minus_Lambda_min_eig_ (relaxation_rank s1) x conv lam
                      :: TNT_ (relaxation_rank s1) (Y s1) x :: calls s1)).
    { intro ok. destruct Hbase as [BT BE]. split.
      - intros rank Yin x1 HIn. cbn [In] in HIn.
        destruct HIn as [HIn|[HIn|HIn]]; [discriminate|discriminate|].
        exact (BT _ _ _ HIn).
      - intros rank Y1 lam1 v1 g1 ok1 HIn. cbn [In] in HIn.
        destruct HIn as [HIn|[HIn|HIn]]; [|discriminate|exact (BE _ _ _ _ _ _ HIn)].
        inversion HIn; subst. exact Hup. }
    destruct fl as [s'|s'].
    - destruct Hc as (_ & _ & _ & E & Rk & _ & Esc).
      split; [exact Rk|]. split; [|rewrite E; apply Hesc].
      destruct (escape_saddle_trial_point _ _ _ _ _ _ _ _ _ _ Esc) as (a & ->).
      unfold trial. rewrite Hretract.
      unfold Y_augmented, assign_topRows, Zero. cbn [rows]. lia.
    - destruct Hc as [(_ & _ & E & _)|[(_ & _ & _ & E & _)|(_ & _ & _ & E & _)]]; rewrite E;
        [exact Hbase|exact Hbase|apply Hesc]. }
  assert (HQ : Q s0).
  { apply (staircase_rule RelativePoseMeasurement world measurements options n_search P Q)
      with (levels := levels) (r := r0 options) (s := start); [| | | |exact L].
    - subst P Q. cbn beta. intros r s1 (_ & _ & G) _. exact G.
    - intros r s1 s' HP Hle L1. exact (Hlevel _ _ _ HP Hle L1).
    - intros r s1 s' HP Hle L1. exact (Hlevel _ _ _ HP Hle L1).
    - subst P. cbn beta. split; [apply initialize_rank|]. split; [exact Hstart|].
      subst good. cbn beta. unfold initialize.
      destruct (negb (size Y0 =? 0)%nat); [|destruct (use_chordal_initialization options)];
        (split; [intros rank Yin x HIn|intros rank Y1 lam1 v1 g1 ok1 HIn]);
        cbn in HIn; repeat (destruct HIn as [HIn|HIn]; [discriminate|]); contradiction. }
  destruct HQ as [QT QE]. split.
  - intros rank Yin x HIn. unfold post_process in HIn. cbn [calls In] in HIn.
    destruct HIn as [HIn|HIn]; [discriminate|]. exact (QT _ _ _ HIn).
  - intros rank Y1 lam1 v1 g1 ok1 HIn. unfold post_process in HIn. cbn [calls In] in HIn.
    destruct HIn as [HIn|HIn]; [discriminate|]. exact (QE _ _ _ _ _ _ HIn).
Qed.

End Order.

(** ** The trace of the minimum eigenvalues *)

Section EigenvalueTrace.

Variable RelativePoseMeasurement : Type.
Variable world : Collaborators RelativePoseMeasurement.
Variable measurements : list RelativePoseMeasurement.
Variable options : SESyncOpts.
Variable Y0 : Matrix.
Variable n_search : nat.

Local Abbreviation tol := (min_eig_num_tol options).
Local Abbreviation start := (initialize RelativePoseMeasurement world measurements options Y0).
Local Abbreviation loop := (staircase RelativePoseMeasurement world measurements options n_search).
Local Abbreviation run :=
  (SESync_run RelativePoseMeasurement world measurements options Y0 n_search).

(** The eigenvalue sends the controller to [escape_saddle]. *)
Let fails (lam : float) : Prop := gt lam (- tol)%float = false.

Lemma Forall_removelast (A : Type) (P : A -> Prop) (l : list A) :
  Forall P l -> Forall P (removelast l).
Proof.
  induction 1 as [|a l Ha Hl IH]; [constructor|].
  cbn [removelast]. destruct l; [constructor|]. constructor; assumption.
Qed.

Lemma initialize_no_eigenvalue :
  minimum_eigenvalues (SESyncResults start) = [] /\ Trace.eigenvalues (calls start) = [].
Proof.
  unfold initialize.
  destruct (negb (size Y0 =? 0)%nat); [|destruct (use_chordal_initialization options)];
    split; reflexivity.
Qed.

Lemma staircase_eigenvalues (levels : nat) (s : State) :
  loop levels (r0 options) start = Some s ->
  let R := SESyncResults s in
  let tr := minimum_eigenvalues R in
  tr = Trace.eigenvalues (calls s) /\
  Forall fails (removelast tr) /\
  (status R = GLOBAL_OPT ->
     exists front, tr = front ++ [lambda_min R] /\ gt (lambda_min R) (- tol)%float = true) /\
  (status R = SADDLE_POINT ->
     exists front, tr = front ++ [lambda_min R] /\ fails (lambda_min R)) /\
  (status R = RS_ITER_LIMIT ->
     Forall fails tr /\ (tr = [] \/ exists front, tr = front ++ [lambda_min R])) /\
  (status R = EIG_IMPRECISION -> Forall fails tr).
Proof.
  intro H.
  pose (P := fun (_ : Z) (s : State) =>
    let R := SESyncResults s in
    let tr := minimum_eigenvalues R in
    status R = RS_ITER_LIMIT /\
    tr = Trace.eigenvalues (calls s) /\
    Forall fails tr /\ (tr = [] \/ exists front, tr = front ++ [lambda_min R])).
  pose (Q := fun (s : State) =>
    let R := SESyncResults s in
    let tr := minimum_eigenvalues R in
    tr = Trace.eigenvalues (calls s) /\
    Forall fails (removelast tr) /\
    (status R = GLOBAL_OPT ->
       exists front, tr = front ++ [lambda_min R] /\ gt (lambda_min R) (- tol)%float = true) /\
    (status R = SADDLE_POINT ->
       exists front, tr = front ++ [lambda_min R] /\ fails (lambda_min R)) /\
    (status R = RS_ITER_LIMIT ->
       Forall fails tr /\ (tr = [] \/ exists front, tr = front ++ [lambda_min R])) /\
    (status R = EIG_IMPRECISION -> Forall fails tr)).
  change (Q s).
  apply (staircase_rule RelativePoseMeasurement world measurements options n_search P Q)
    with (levels := levels) (r := r0 options) (s := start); [| | | |exact H]; subst P Q;
    cbn beta zeta.
  - intros r s1 (St & Etr & Hf & Hlast) _.
    split; [exact Etr|]. split; [apply Forall_removelast, Hf|].
    rewrite St. repeat split; try discriminate; auto.
  - intros r s1 s' (St & Etr & Hf & Hlast) _ L.
    destruct (staircase_level_cases _ _ _ _ _ _ _ _ L) as (x & conv & lam & v & Hc).
    cbn zeta in Hc. destruct Hc as (_ & El & _ & Hc).
    destruct Hc as [(-> & St' & E & _ & Etr')|[(-> & G & St' & E & _ & Etr')
                                              |(-> & G & St' & E & _ & Etr' & _)]];
      rewrite St', E, Etr', El; cbn [Trace.eigenvalues]; rewrite <- ?Etr.
    + split; [reflexivity|]. split; [apply Forall_removelast, Hf|].
      repeat split; try discriminate. intros _. exact Hf.
    + split; [reflexivity|]. rewrite removelast_last. split; [exact Hf|].
      repeat split; try discriminate. intros _. exists (minimum_eigenvalues (SESyncResults s1)).
      split; [reflexivity|exact G].
    + split; [reflexivity|]. rewrite removelast_last. split; [exact Hf|].
      repeat split; try discriminate. intros _. exists (minimum_eigenvalues (SESyncResults s1)).
      split; [reflexivity|exact G].
  - intros r s1 s' (St & Etr & Hf & Hlast) _ L.
    destruct (staircase_level_cases _ _ _ _ _ _ _ _ L) as (x & conv & lam & v & Hc).
    cbn zeta in Hc. destruct Hc as (_ & El & _ & -> & G & St' & E & _ & Etr' & _).
    rewrite St', E, Etr', El. cbn [Trace.eigenvalues]. rewrite <- Etr.
    split; [exact St|]. split; [reflexivity|]. split.
    + apply Forall_app. split; [exact Hf|]. constructor; [exact G|constructor].
    + right. eexists. reflexivity.
  - destruct initialize_no_eigenvalue as [E1 E2]. rewrite E1, E2.
    split; [apply initialize_status|]. split; [reflexivity|]. split; [constructor|].
    left. reflexivity.
Qed.

(** X9. Whenever [SESync] returns, the trace of the minimum eigenvalues holds the
    eigenvalues that the converged computations reported, in the order of the
    levels. Every entry but the last failed [lambda_min > -min_eig_num_tol].
    After GLOBAL_OPT the last entry is [lambda_min] and passes the test; after
    SADDLE_POINT it is [lambda_min] and fails it; after RS_ITER_LIMIT and
    EIG_IMPRECISION every entry fails it. *)
Theorem SESync_eigenvalue_trace (levels : nat) (s : State) :
  run levels = Some s ->
  let R := SESyncResults s in
  let tr := minimum_eigenvalues R in
  tr = Trace.eigenvalues (calls s) /\
  Forall (fun lam => gt lam (- tol)%float = false) (removelast tr) /\
  (status R = GLOBAL_OPT ->
     exists front, tr = front ++ [lambda_min R] /\ gt (lambda_min R) (- tol)%float = true) /\
  (status R = SADDLE_POINT ->
     exists front, tr = front ++ [lambda_min R] /\ gt (lambda_min R) (- tol)%float = false) /\
  (status R = RS_ITER_LIMIT ->
     Forall (fun lam => gt lam (- tol)%float = false) tr /\
     (tr = [] \/ exists front, tr = front ++ [lambda_min R])) /\
  (status R = EIG_IMPRECISION -> Forall (fun lam => gt lam (- tol)%float = false) tr).
Proof.
  intro H.
  destruct (SESync_run_inv _ _ _ _ _ _ _ _ H) as (s0 & L & ->).
  exact (staircase_eigenvalues _ _ L).
Qed.

End EigenvalueTrace.

(** ** Step lengths that are not numbers *)

Lemma is_nan_true (x : float) : is_nan x = true -> x = nan.
Proof.
  intro H. apply Prim2SF_inj. change (Prim2SF nan) with S754_nan.
  destruct (Prim2SF x) eqn:E; try reflexivity;
    (assert (C : is_nan x = false) by (apply FloatFacts.is_nan_spec; rewrite E; discriminate));
    congruence.
Qed.

Lemma mul_nan_r (x : float) : (x * nan)%float = nan.
Proof.
  apply Prim2SF_inj. rewrite mul_spec. change (Prim2SF nan) with S754_nan.
  destruct (Prim2SF x); reflexivity.
Qed.

Lemma div_nan_l (x : float) : (nan / x)%float = nan.
Proof. apply Prim2SF_inj. rewrite div_spec. reflexivity. Qed.

Lemma div_nan_r (x : float) : (x / nan)%float = nan.
Proof.
  apply Prim2SF_inj. rewrite div_spec. change (Prim2SF nan) with S754_nan.
  destruct (Prim2SF x); reflexivity.
Qed.

Lemma not_gt_nan (x : float) : gt x nan = false.
Proof. unfold gt. rewrite FloatAxioms.ltb_spec. reflexivity. Qed.

Lemma abs_opp (x : float) : abs (- x) = abs x.
Proof.
  apply Prim2SF_inj. rewrite !abs_spec, opp_spec.
  destruct (Prim2SF x); reflexivity.
Qed.

(** A positive number divided by a zero of positive sign. *)
Lemma div_positive_by_zero (x lam : float) :
  (0 <? x)%float = true -> (abs lam =? 0)%float = true -> (x / abs lam)%float = infinity.
Proof.
  intros Hx Hz. apply Prim2SF_inj. rewrite div_spec, abs_spec.
  rewrite FloatAxioms.ltb_spec in Hx. rewrite FloatAxioms.eqb_spec, abs_spec in Hz.
  change (Prim2SF 0) with (S754_zero false) in *.
  change (Prim2SF infinity) with (S754_infinity false).
  destruct (Prim2SF lam) as [sl|sl| |sl ml el]; try discriminate.
  destruct (Prim2SF x) as [sx|sx| |sx mx ex]; try discriminate;
    destruct sx; try discriminate; reflexivity.
Qed.

Section EscapeSaddleEdges.

Variable norm : Matrix -> float.
Variable problem : SESyncProblem.
Variable rank : Z.
Variable Y : Matrix.
Variable lambda_min : float.
Variable v_min : Vector.
Variable gradient_tolerance : float.

Local Abbreviation search :=
  (line_search norm problem rank Y v_min gradient_tolerance).
Local Abbreviation Ytest := (trial problem rank Y v_min).
Local Abbreviation ok := (accepted norm problem rank Y gradient_tolerance).

Lemma line_search_infinity (n : nat) :
  ok (Ytest infinity) = false -> forall calls, search n infinity calls = None.
Proof.
  intro Hrej. induction n as [|n IH]; intro calls; [reflexivity|].
  cbn [line_search]. change (halve infinity) with infinity.
  rewrite Hrej. change (gt infinity alpha_min) with true. cbn [negb andb]. apply IH.
Qed.

(** X10. When the eigenvalue is a zero and [200 * gradient_tolerance] is
    positive, the initial step is [+infinity]. When the initial step is
    [+infinity], be it so or by overflow, every step is, and if the trial
    point at that step is rejected the line search never ends:
    [escape_saddle] does not return. *)
Theorem escape_saddle_infinite_step :
  ok (Ytest infinity) = false ->
  ((abs lambda_min =? 0)%float = true -> (0 <? 200 * gradient_tolerance)%float = true ->
   alpha_init lambda_min gradient_tolerance = infinity) /\
  (forall k, halvings k infinity = infinity) /\
  (alpha_init lambda_min gradient_tolerance = infinity ->
   forall n Yplus,
     escape_saddle norm problem rank Y lambda_min v_min gradient_tolerance n Yplus = None).
Proof.
  intro Hrej. split; [|split].
  - intros Hz Hpos. unfold alpha_init. rewrite FloatFacts.int_to_double_200.
    apply div_positive_by_zero; assumption.
  - apply FloatFacts.halvings_infinity.
  - intros Hinf n Yplus. unfold escape_saddle. rewrite Hinf.
    rewrite (line_search_infinity n Hrej). reflexivity.
Qed.

(** X11. When the eigenvalue or the tolerance is a NaN, so is the initial step.
    When the initial step is a NaN, [escape_saddle] makes one retraction, with
    a tangent vector scaled by NaN, and returns: [true] with the trial point
    if it is accepted, [false] otherwise. When the tolerance is a NaN it
    returns [false]. *)
Theorem escape_saddle_nan_step (n : nat) (Yplus : Matrix) :
  1 <= n ->
  (is_nan lambda_min = true \/ is_nan gradient_tolerance = true ->
   is_nan (alpha_init lambda_min gradient_tolerance) = true) /\
  (is_nan (alpha_init lambda_min gradient_tolerance) = true ->
   search n (alpha_init lambda_min gradient_tolerance) []
   = Some {| escape_success := ok (Ytest nan);
             Ytest_final := Ytest nan;
             retractions := [(Y_augmented rank Y, scale nan (Ydot rank Y v_min))] |} /\
   escape_saddle norm problem rank Y lambda_min v_min gradient_tolerance n Yplus
   = Some (if ok (Ytest nan) then (true, Ytest nan) else (false, Yplus))) /\
  (is_nan gradient_tolerance = true ->
   escape_saddle norm problem rank Y lambda_min v_min gradient_tolerance n Yplus
   = Some (false, Yplus)).
Proof.
  intro Hn.
  assert (Hinit : is_nan lambda_min = true \/ is_nan gradient_tolerance = true ->
                  is_nan (alpha_init lambda_min gradient_tolerance) = true).
  { unfold alpha_init. intros [H|H]; apply is_nan_true in H; rewrite H.
    - change (abs nan) with nan. rewrite div_nan_r. reflexivity.
    - rewrite mul_nan_r, div_nan_l. reflexivity. }
  assert (Hone : is_nan (alpha_init lambda_min gradient_tolerance) = true ->
                 search n (alpha_init lambda_min gradient_tolerance) []
                 = Some {| escape_success := ok (Ytest nan);
                           Ytest_final := Ytest nan;
                           retractions :=
                             [(Y_augmented rank Y, scale nan (Ydot rank Y v_min))] |}).
  { intro H. apply is_nan_true in H. rewrite H.
    destruct n as [|n']; [lia|]. cbn [line_search].
    change (halve nan) with nan. change (gt nan alpha_min) with false.
    rewrite andb_false_r. reflexivity. }
  split; [exact Hinit|]. split.
  - intro H. split; [exact (Hone H)|].
    unfold escape_saddle. rewrite (Hone H). cbn [escape_success Ytest_final].
    destruct (ok (Ytest nan)); reflexivity.
  - intro H. unfold escape_saddle. rewrite (Hone (Hinit (or_intror H))).
    cbn [escape_success Ytest_final].
    unfold accepted. apply is_nan_true in H. rewrite H, not_gt_nan, andb_false_r.
    reflexivity.
Qed.

(** X12. [escape_saddle] reads the eigenvalue through its absolute value only:
    the sign of [lambda_min] changes nothing. *)
Theorem escape_saddle_sign_of_eigenvalue (n : nat) (Yplus : Matrix) :
  alpha_init (- lambda_min) gradient_tolerance = alpha_init lambda_min gradient_tolerance /\
  escape_saddle norm problem rank Y (- lambda_min) v_min gradient_tolerance n Yplus
  = escape_saddle norm problem rank Y lambda_min v_min gradient_tolerance n Yplus.
Proof.
  assert (H : alpha_init (- lambda_min) gradient_tolerance
              = alpha_init lambda_min gradient_tolerance).
  { unfold alpha_init. rewrite abs_opp. reflexivity. }
  split; [exact H|]. unfold escape_saddle. rewrite H. reflexivity.
Qed.

End EscapeSaddleEdges.

(** ** The console *)

Section ConsoleFacts.

Variable RelativePoseMeasurement : Type.
Variable world : Collaborators RelativePoseMeasurement.
Variable measurements : list RelativePoseMeasurement.
Variable options : SESyncOpts.
Variable Y0 : Matrix.
Variable n_search : nat.
Variable problem_construction_elapsed_time : float.
Variable chordal_init_elapsed_time : float.
Variable rounding_elapsed_time : float.

Local Abbreviation tol := (min_eig_num_tol options).
Local Abbreviation start := (initialize RelativePoseMeasurement world measurements options Y0).
Local Abbreviation level :=
  (staircase_level RelativePoseMeasurement world measurements options n_search).
Local Abbreviation loop := (staircase RelativePoseMeasurement world measurements options n_search).
Local Abbreviation run :=
  (SESync_run RelativePoseMeasurement world measurements options Y0 n_search).
Local Abbreviation when_verbose := (Console.when_verbose options).
Local Abbreviation level_output :=
  (Console.level_output RelativePoseMeasurement world measurements options n_search).
Local Abbreviation staircase_output :=
  (Console.staircase_output RelativePoseMeasurement world measurements options n_search).
Local Abbreviation settings := (Console.settings options).
Local Abbreviation initialization :=
  (Console.initialization RelativePoseMeasurement world measurements options Y0
     problem_construction_elapsed_time chordal_init_elapsed_time).
Local Abbreviation post_processing :=
  (Console.post_processing RelativePoseMeasurement world measurements options
     rounding_elapsed_time).
Local Abbreviation SESync_output :=
  (Console.SESync_output RelativePoseMeasurement world measurements options Y0 n_search
     problem_construction_elapsed_time chordal_init_elapsed_time rounding_elapsed_time).

(** What an iteration of the loop writes, by the way it ends. *)
Lemma level_output_cases (r : Z) (s : State) (fl : Flow) :
  level r s = Some fl ->
  exists F t lam e,
    level_output r s =
    Some ((when_verbose (Console.level_header r)
           ++ when_verbose (Console.critical_point_found F t))
          ++ match fl with
             | Next _ => when_verbose (Console.saddle_detected lam e)
             | Break s' =>
                 match status (SESyncResults s') with
                 | EIG_IMPRECISION => Console.eigenvalue_warning
                 | GLOBAL_OPT => when_verbose (Console.optimum_found lam e)
                 | SADDLE_POINT =>
                     when_verbose (Console.saddle_detected lam e)
                     ++ Console.line_search_warning
                 | RS_ITER_LIMIT => []
                 end
             end).
Proof.
  intro H.
  unfold staircase_level in H. unfold Console.level_output.
  unfold run_TNT, min_eig in *.
  destruct (TNT_solve _ _ _ _ _ _ _ _ _) as [[T' N'] its'].
  cbn [SESyncResults calls relaxation_rank Y NablaF_Y record_TNT Yopt lambda_min v_min SDPval]
    in *.
  destruct (compute_S_minus_Lambda_min_eig _ _ _ _ _ _ _ _) as [[conv lam] v].
  destruct conv; cbn [negb] in *.
  - cbn [SESyncResults calls relaxation_rank Y NablaF_Y with_results push_min_eig record_eig
         lambda_min Yopt v_min record_TNT] in *.
    destruct (gt lam (- tol)%float) eqn:G.
    + inversion H; subst fl; clear H. cbn [SESyncResults with_results set_status status].
      do 4 eexists. reflexivity.
    + unfold escape, ascend in H.
      cbn [SESyncResults calls relaxation_rank Y NablaF_Y Yopt lambda_min v_min] in H.
      destruct (escape_saddle _ _ _ _ _ _ _ _ _) as [[ok Yplus]|]; [|discriminate].
      destruct ok; inversion H; subst fl; clear H;
        cbn [SESyncResults with_results set_status status]; do 4 eexists; reflexivity.
  - inversion H; subst fl; clear H. cbn [SESyncResults with_results set_status status].
    exists (TNT.f T'), (TNT.elapsed_time T'), lam, lam. reflexivity.
Qed.

(** Induction on the iterations of the loop, for what it writes. *)
Lemma staircase_output_rule (P : Z -> State -> Prop)
  (Q : Z -> State -> list Console.Item -> State -> Prop) :
  (forall r s, P r s -> (rmax options < r)%Z -> Q r s [] s) ->
  (forall r s s' out, P r s -> (r <= rmax options)%Z ->
     level r s = Some (Break s') -> level_output r s = Some out -> Q r s out s') ->
  (forall r s s' out, P r s -> (r <= rmax options)%Z ->
     level r s = Some (Next s') -> level_output r s = Some out ->
     P (uint (r + 1)) s' /\
     forall out' s'', Q (uint (r + 1)) s' out' s'' -> Q r s (out ++ out') s'') ->
  forall levels r s s', P r s -> loop levels r s = Some s' ->
    exists out, staircase_output levels r s = Some out /\ Q r s out s'.
Proof.
  intros Hexit Hbreak Hnext.
  induction levels as [|levels IH]; intros r s s' HP H;
    cbn [staircase Console.staircase_output] in *.
  - destruct (r <=? rmax options)%Z eqn:E; [discriminate|].
    apply Z.leb_gt in E. inversion H; subst s'. exists []. split; [reflexivity|].
    exact (Hexit _ _ HP E).
  - destruct (r <=? rmax options)%Z eqn:E.
    + apply Z.leb_le in E.
      destruct (level r s) as [[s1|s1]|] eqn:L; [| |discriminate].
      * destruct (level_output_cases _ _ _ L) as (F & t & lam & e & O).
        rewrite O. destruct (Hnext _ _ _ _ HP E L O) as [HP1 Hcomp].
        destruct (IH _ _ _ HP1 H) as (out' & O' & HQ).
        rewrite O'. eexists. split; [reflexivity|]. exact (Hcomp _ _ HQ).
      * destruct (level_output_cases _ _ _ L) as (F & t & lam & e & O).
        rewrite O. inversion H; subst s'. eexists. split; [reflexivity|].
        exact (Hbreak _ _ _ _ HP E L O).
    + apply Z.leb_gt in E. inversion H; subst s'. exists []. split; [reflexivity|].
      exact (Hexit _ _ HP E).
Qed.

Lemma level_keeps_status (r : Z) (s s' : State) :
  level r s = Some (Next s') -> status (SESyncResults s') = status (SESyncResults s).
Proof.
  intro L.
  destruct (staircase_level_cases _ _ _ _ _ _ _ _ L) as (x & conv & lam & v & Hc).
  cbn zeta in Hc. apply Hc.
Qed.

(** X13. Without [verbose], [SESync] writes nothing but the warning of the
    eigenvalue computation that did not converge, when it returns
    EIG_IMPRECISION, and the warning of the line search that failed, when it
    returns SADDLE_POINT. *)
Theorem SESync_output_not_verbose (levels : nat) (s : State) :
  verbose options = false ->
  run levels = Some s ->
  SESync_output levels =
  Some match status (SESyncResults s) with
       | EIG_IMPRECISION => Console.eigenvalue_warning
       | SADDLE_POINT => Console.line_search_warning
       | GLOBAL_OPT | RS_ITER_LIMIT => []
       end.
Proof.
  intros Hv H.
  destruct (SESync_run_inv _ _ _ _ _ _ _ _ H) as (s0 & L & ->).
  assert (Hq : forall out, when_verbose out = []).
  { intro out. unfold Console.when_verbose. rewrite Hv. reflexivity. }
  pose (P := fun (_ : Z) (s : State) => status (SESyncResults s) = RS_ITER_LIMIT).
  pose (Q := fun (_ : Z) (_ : State) (out : list Console.Item) (s' : State) =>
    out = match status (SESyncResults s') with
          | EIG_IMPRECISION => Console.eigenvalue_warning
          | SADDLE_POINT => Console.line_search_warning
          | GLOBAL_OPT | RS_ITER_LIMIT => []
          end).
  destruct (staircase_output_rule P Q) with (levels := levels) (r := r0 options)
    (s := start) (s' := s0) as (out & O & HQ); subst P Q; cbn beta in *.
  - intros r s1 St _. rewrite St. reflexivity.
  - intros r s1 s' out _ _ L1 O.
    destruct (level_output_cases _ _ _ L1) as (F & t & lam & e & O').
    rewrite O' in O. inversion O. rewrite !Hq.
    destruct (status (SESyncResults s')); reflexivity.
  - intros r s1 s' out St _ L1 O.
    destruct (level_output_cases _ _ _ L1) as (F & t & lam & e & O').
    rewrite O' in O. inversion O. rewrite !Hq.
    split; [rewrite (level_keeps_status _ _ _ L1); exact St|].
    intros out' s'' HQ. exact HQ.
  - apply initialize_status.
  - exact L.
  - unfold Console.SESync_output. rewrite O, L.
    unfold Console.settings, Console.initialization, Console.post_processing.
    rewrite !Hq.
    destruct (negb (size Y0 =? 0)%nat); [|destruct (use_chordal_initialization options)];
      cbn [app]; rewrite app_nil_r; rewrite HQ; reflexivity.
Qed.

Lemma settings_verbose :
  verbose options = true ->
  filter Console.is_status_message settings = [] /\
  filter Console.is_warning settings = [] /\
  forall B, Console.levels_announced (settings ++ B) = Console.levels_announced B.
Proof.
  intro Hv. unfold Console.settings, Console.when_verbose. rewrite Hv.
  destruct (formulation options), (use_Cholesky options), (use_chordal_initialization options),
    (log_iterates options), (precon options); repeat split.
Qed.

Lemma initialization_verbose :
  verbose options = true ->
  filter Console.is_status_message initialization = [] /\
  filter Console.is_warning initialization = [] /\
  forall B, Console.levels_announced (initialization ++ B) = Console.levels_announced B.
Proof.
  intro Hv. unfold Console.initialization, Console.when_verbose. rewrite Hv.
  destruct (negb (size Y0 =? 0)%nat); [|destruct (use_chordal_initialization options)];
    repeat split.
Qed.

Lemma post_processing_verbose (s : State) :
  verbose options = true ->
  filter Console.is_status_message (post_processing s)
  = [Console.text (Console.status_message (status (SESyncResults s)))] /\
  filter Console.is_warning (post_processing s) = [] /\
  Console.levels_announced (post_processing s) = [].
Proof.
  intro Hv. unfold Console.post_processing, Console.when_verbose. rewrite Hv.
  destruct (status (SESyncResults s)); repeat split.
Qed.

Lemma level_output_verbose (r : Z) (s : State) (fl : Flow) (out : list Console.Item) :
  verbose options = true ->
  level r s = Some fl -> level_output r s = Some out ->
  filter Console.is_status_message out = [] /\
  filter Console.is_warning out =
    match fl with
    | Next _ => []
    | Break s' =>
        match status (SESyncResults s') with
        | EIG_IMPRECISION => [Console.text Console.eigenvalue_warning_text]
        | SADDLE_POINT => [Console.text Console.line_search_warning_text]
        | GLOBAL_OPT | RS_ITER_LIMIT => []
        end
    end /\
  forall B, Console.levels_announced (out ++ B) = r :: Console.levels_announced B.
Proof.
  intros Hv L O.
  destruct (level_output_cases _ _ _ L) as (F & t & lam & e & O').
  rewrite O' in O. inversion O. unfold Console.when_verbose. rewrite Hv.
  destruct fl as [s'|s']; [|destruct (status (SESyncResults s'))]; repeat split.
Qed.

(** X14. With [verbose], the output holds one sentence on the status, the one of
    the status returned; it holds the warning of the eigenvalue computation
    exactly when EIG_IMPRECISION is returned and the warning of the line
    search exactly when SADDLE_POINT is; and the levels that the banners
    announce are the ranks at which the solver was run, in this order. *)
Theorem SESync_output_verbose (levels : nat) (s : State) :
  verbose options = true ->
  run levels = Some s ->
  exists out,
    SESync_output levels = Some out /\
    filter Console.is_status_message out
    = [Console.text (Console.status_message (status (SESyncResults s)))] /\
    filter Console.is_warning out
    = match status (SESyncResults s) with
      | EIG_IMPRECISION => [Console.text Console.eigenvalue_warning_text]
      | SADDLE_POINT => [Console.text Console.line_search_warning_text]
      | GLOBAL_OPT | RS_ITER_LIMIT => []
      end /\
    Console.levels_announced out = Trace.solver_ranks (calls s).
Proof.
  intros Hv H.
  destruct (SESync_run_inv _ _ _ _ _ _ _ _ H) as (s0 & L & ->).
  pose (P := fun (r : Z) (s : State) =>
    relaxation_rank s = r /\ status (SESyncResults s) = RS_ITER_LIMIT).
  pose (Q := fun (_ : Z) (s : State) (out : list Console.Item) (s' : State) =>
    filter Console.is_status_message out = [] /\
    filter Console.is_warning out
    = match status (SESyncResults s') with
      | EIG_IMPRECISION => [Console.text Console.eigenvalue_warning_text]
      | SADDLE_POINT => [Console.text Console.line_search_warning_text]
      | GLOBAL_OPT | RS_ITER_LIMIT => []
      end /\
    exists ranks,
      Trace.solver_ranks (calls s') = Trace.solver_ranks (calls s) ++ ranks /\
      forall B, Console.levels_announced (out ++ B) = ranks ++ Console.levels_announced B).
  destruct (staircase_output_rule P Q) with (levels := levels) (r := r0 options)
    (s := start) (s' := s0) as (out & O & HQ); subst P Q; cbn beta in *.
  - intros r s1 [_ St] _. rewrite St. split; [reflexivity|]. split; [reflexivity|].
    exists []. split; [rewrite app_nil_r; reflexivity|]. intro B. reflexivity.
  - intros r s1 s' out [Hrk _] _ L1 O.
    destruct (level_output_verbose _ _ _ _ Hv L1 O) as (F1 & F2 & F3).
    split; [exact F1|]. split; [exact F2|].
    exists [r]. split; [|exact F3].
    destruct (staircase_level_cases _ _ _ _ _ _ _ _ L1) as (x & conv & lam & v & Hc).
    cbn zeta in Hc. destruct Hc as (_ & _ & _ & Hc).
    destruct Hc as [(_ & _ & E & _)|[(_ & _ & _ & E & _)|(_ & _ & _ & E & _)]];
      rewrite E, Hrk; reflexivity.
  - intros r s1 s' out [Hrk St] _ L1 O.
    destruct (level_output_verbose _ _ _ _ Hv L1 O) as (F1 & F2 & F3).
    destruct (staircase_level_cases _ _ _ _ _ _ _ _ L1) as (x & conv & lam & v & Hc).
    cbn zeta in Hc. destruct Hc as (_ & _ & _ & _ & _ & St' & E & Rk & _).
    split; [split; [exact Rk|congruence]|].
    intros out' s'' (G1 & G2 & ranks & G3 & G4).
    rewrite !filter_app, F1, F2, G1, G2.
    split; [reflexivity|]. split; [reflexivity|].
    exists (r :: ranks). split.
    + rewrite G3, E, Hrk. cbn [Trace.solver_ranks]. rewrite <- app_assoc. reflexivity.
    + intro B. rewrite <- app_assoc, F3, G4. reflexivity.
  - split; [apply initialize_rank|apply initialize_status].
  - exact L.
  - destruct HQ as (G1 & G2 & ranks & G3 & G4).
    destruct (settings_verbose Hv) as (S1 & S2 & S3).
    destruct (initialization_verbose Hv) as (I1 & I2 & I3).
    destruct (post_processing_verbose s0 Hv) as (P1 & P2 & P3).
    eexists. split; [unfold Console.SESync_output; rewrite O, L; reflexivity|].
    rewrite !filter_app, S1, S2, I1, I2, G1, G2, P1, P2, S3, I3, G4, P3, !app_nil_r.
    unfold post_process. cbn [SESyncResults record_rounding status calls Trace.solver_ranks].
    rewrite G3, initialize_no_solver.
    split; [reflexivity|]. split; [|reflexivity].
    destruct (status (SESyncResults s0)); reflexivity.
Qed.

End ConsoleFacts.

(** ** The end of a run *)

Section LastCall.

Variable RelativePoseMeasurement : Type.
Variable world : Collaborators RelativePoseMeasurement.
Variable measurements : list RelativePoseMeasurement.
Variable options : SESyncOpts.
Variable Y0 : Matrix.
Variable n_search : nat.

Local Abbreviation tol := (min_eig_num_tol options).
Local Abbreviation the_problem := (problem RelativePoseMeasurement world measurements options).
Local Abbreviation start := (initialize RelativePoseMeasurement world measurements options Y0).
Local Abbreviation level :=
  (staircase_level RelativePoseMeasurement world measurements options n_search).
Local Abbreviation loop := (staircase RelativePoseMeasurement world measurements options n_search).
Local Abbreviation run :=
  (SESync_run RelativePoseMeasurement world measurements options Y0 n_search).

(** The loop is entered at level [r] before any call of its own, or right
    after [escape_saddle] has succeeded at the point, the eigenvalue and the
    eigenvector that the results hold. *)
Let handed_over (r : Z) (s : State) : Prop :=
  let R := SESyncResults s in
  (calls s = calls start /\ r = r0 options) \/
  (exists rest,
     calls s = escape_saddle_ r (Yopt R) (lambda_min R) (v_min R) (grad_norm_tol options) true
               :: rest /\
     escape_saddle (norm world) the_problem r (Yopt R) (lambda_min R) (v_min R)
       (grad_norm_tol options) n_search empty = Some (true, Y s)).

Lemma staircase_handed_over (levels : nat) (s : State) :
  loop levels (r0 options) start = Some s ->
  status (SESyncResults s) = RS_ITER_LIMIT ->
  (rmax options < relaxation_rank s)%Z /\ handed_over (relaxation_rank s) s.
Proof.
  intro H.
  pose (P := fun (r : Z) (s : State) => relaxation_rank s = r /\ handed_over r s).
  pose (Q := fun (s : State) =>
    status (SESyncResults s) = RS_ITER_LIMIT ->
    (rmax options < relaxation_rank s)%Z /\ handed_over (relaxation_rank s) s).
  change (Q s).
  apply (staircase_rule RelativePoseMeasurement world measurements options n_search P Q)
    with (levels := levels) (r := r0 options) (s := start); [| | | |exact H]; subst P Q;
    cbn beta.
  - intros r s1 [Hrk Hh] Hexit _. rewrite Hrk. split; [exact Hexit|exact Hh].
  - intros r s1 s' _ _ L St.
    destruct (staircase_level_cases _ _ _ _ _ _ _ _ L) as (x & conv & lam & v & Hc).
    cbn zeta in Hc. destruct Hc as (_ & _ & _ & Hc).
    destruct Hc as [(_ & St' & _)|[(_ & _ & St' & _)|(_ & _ & St' & _)]]; congruence.
  - intros r s1 s' _ _ L.
    destruct (staircase_level_cases _ _ _ _ _ _ _ _ L) as (x & conv & lam & v & Hc).
    cbn zeta in Hc. destruct Hc as (Ex & El & Ev & _ & _ & _ & E & Rk & _ & Esc).
    split; [exact Rk|]. right. unfold handed_over. rewrite Ex, El, Ev.
    eexists. split; [exact E|exact Esc].
  - split; [apply initialize_rank|]. left. split; reflexivity.
Qed.

(** X16. Whenever [SESync] returns, the call made right before the rounding
    tells the status. After GLOBAL_OPT and EIG_IMPRECISION it is the
    eigenvalue computation, converged or not, at [Yopt], which reported
    [lambda_min]. After SADDLE_POINT it is the call of [escape_saddle] that
    failed, made at [Yopt] with [lambda_min] and [v_min]. After RS_ITER_LIMIT
    either [rmax < r0] and the loop made no call, or it is a call of
    [escape_saddle] that succeeded, made at [Yopt] with [lambda_min] and
    [v_min]: the point it returned is left in [Y] and is not returned, [Yopt]
    is the saddle point it was given. *)
Theorem SESync_last_call (levels : nat) (s : State) :
  run levels = Some s ->
  let R := SESyncResults s in
  let rank := relaxation_rank s in
  exists older,
    calls s = round_solution_ rank (Yopt R) :: older /\
    match status R with
    | GLOBAL_OPT =>
        exists rest,
          older = compute_S_minus_Lambda_min_eig_ rank (Yopt R) true (lambda_min R) :: rest
    | EIG_IMPRECISION =>
        exists rest,
          older = compute_S_minus_Lambda_min_eig_ rank (Yopt R) false (lambda_min R) :: rest
    | SADDLE_POINT =>
        exists rest,
          older = escape_saddle_ rank (Yopt R) (lambda_min R) (v_min R)
                    (grad_norm_tol options) false :: rest
    | RS_ITER_LIMIT =>
        (older = calls start /\ (rmax options < r0 options)%Z) \/
        (exists rest,
           older = escape_saddle_ rank (Yopt R) (lambda_min R) (v_min R)
                     (grad_norm_tol options) true :: rest /\
           escape_saddle (norm world) the_problem rank (Yopt R) (lambda_min R) (v_min R)
             (grad_norm_tol options) n_search empty = Some (true, Y s))
    end.
Proof.
  intro H.
  destruct (SESync_run_inv _ _ _ _ _ _ _ _ H) as (s0 & L & ->).
  destruct (staircase_sound _ _ _ _ _ _ _ _ _
              (initialize_running _ _ _ _ _) (initialize_rank _ _ _ _ _) L)
    as [(V & _ & _) _].
  pose proof (staircase_handed_over _ _ L) as Hh.
  unfold post_process.
  cbn [SESyncResults calls relaxation_rank record_rounding status Yopt lambda_min v_min Y].
  cbn zeta. eexists. split; [reflexivity|].
  unfold Inv.verdict in V.
  destruct (status (SESyncResults s0)) eqn:St.
  - destruct V as (rest & E & _). exists rest. exact E.
  - destruct V as (rest & E & _). exists rest. exact E.
  - destruct V as (rest & E & _). exists rest. exact E.
  - destruct (Hh eq_refl) as [Hexit [(E & Er)|(rest & E & Esc)]].
    + left. split; [exact E|]. rewrite <- Er. exact Hexit.
    + right. exists rest. split; [exact E|exact Esc].
Qed.

Lemma staircase_level_gradnorm (r : Z) (s : State) (fl : Flow) :
  level r s = Some fl ->
  let s' := match fl with Next s' => s' | Break s' => s' end in
  gradnorm (SESyncResults s')
  = norm world (Riemannian_gradient the_problem (relaxation_rank s) (Yopt (SESyncResults s'))) /\
  Trace.last_rank (calls s') = Some (relaxation_rank s).
Proof.
  intro H.
  unfold staircase_level, run_TNT, min_eig in H.
  destruct (TNT_solve _ _ _ _ _ _ _ _ _) as [[T' N'] its'].
  cbn [SESyncResults calls relaxation_rank Y NablaF_Y record_TNT Yopt lambda_min v_min] in H.
  destruct (compute_S_minus_Lambda_min_eig _ _ _ _ _ _ _ _) as [[conv lam] v].
  destruct conv; cbn [negb] in H.
  - cbn [SESyncResults calls relaxation_rank Y NablaF_Y with_results push_min_eig record_eig
         lambda_min] in H.
    destruct (gt lam (- tol)%float).
    + inversion H; subst fl. split; reflexivity.
    + unfold escape, ascend in H.
      cbn [SESyncResults calls relaxation_rank Y NablaF_Y Yopt lambda_min v_min] in H.
      destruct (escape_saddle _ _ _ _ _ _ _ _ _) as [[ok Yplus]|]; [|discriminate].
      destruct ok; inversion H; subst fl; split; reflexivity.
  - inversion H; subst fl. split; reflexivity.
Qed.

(** X17. Whenever [SESync] returns after at least one level, [gradnorm] is
    the norm of the Riemannian gradient at [Yopt] taken at the rank of the
    last run of the solver, which after SADDLE_POINT and RS_ITER_LIMIT is not
    the rank of the problem at the return. *)
Theorem SESync_gradnorm (levels : nat) (s : State) :
  run levels = Some s ->
  let R := SESyncResults s in
  match Trace.last_rank (calls s) with
  | Some rank =>
      gradnorm R = norm world (Riemannian_gradient the_problem rank (Yopt R)) /\
      Log.last_solution (calls s) = Some (Yopt R)
  | None => Log.count Log.is_TNT (calls s) = 0
  end.
Proof.
  intro H.
  destruct (SESync_run_inv _ _ _ _ _ _ _ _ H) as (s0 & L & ->).
  unfold post_process.
  cbn [SESyncResults calls record_rounding gradnorm Yopt Trace.last_rank Log.last_solution].
  change (Log.count Log.is_TNT (round_solution_ (relaxation_rank s0) (Yopt (SESyncResults s0))
                                :: calls s0))
    with (Log.count Log.is_TNT (calls s0)).
  cbn zeta.
  pose (I := fun (s : State) =>
    match Trace.last_rank (calls s) with
    | Some rank =>
        gradnorm (SESyncResults s)
        = norm world (Riemannian_gradient the_problem rank (Yopt (SESyncResults s))) /\
        Log.last_solution (calls s) = Some (Yopt (SESyncResults s))
    | None => Log.count Log.is_TNT (calls s) = 0
    end).
  change (I s0).
  apply (staircase_rule RelativePoseMeasurement world measurements options n_search
           (fun _ s => I s) I)
    with (levels := levels) (r := r0 options) (s := start); [| | | |exact L]; subst I;
    cbn beta.
  - intros r s1 HI _. exact HI.
  - intros r s1 s' _ _ L1.
    destruct (staircase_level_gradnorm _ _ _ L1) as [Hg Hl]. cbn zeta in Hg, Hl.
    rewrite Hl. split; [exact Hg|].
    destruct (staircase_level_cases _ _ _ _ _ _ _ _ L1) as (x & conv & lam & v & Hc).
    cbn zeta in Hc. destruct Hc as (Ex & _ & _ & Hc). rewrite Ex.
    destruct Hc as [(_ & _ & E & _)|[(_ & _ & _ & E & _)|(_ & _ & _ & E & _)]];
      rewrite E; reflexivity.
  - intros r s1 s' _ _ L1.
    destruct (staircase_level_gradnorm _ _ _ L1) as [Hg Hl]. cbn zeta in Hg, Hl.
    rewrite Hl. split; [exact Hg|].
    destruct (staircase_level_cases _ _ _ _ _ _ _ _ L1) as (x & conv & lam & v & Hc).
    cbn zeta in Hc. destruct Hc as (Ex & _ & _ & _ & _ & _ & E & _). rewrite Ex, E.
    reflexivity.
  - unfold initialize.
    destruct (negb (size Y0 =? 0)%nat); [|destruct (use_chordal_initialization options)];
      reflexivity.
Qed.

Lemma gt_numbers (a b : float) : gt a b = true -> is_nan a = false /\ is_nan b = false.
Proof.
  unfold gt. rewrite FloatAxioms.ltb_spec. unfold SFltb. intro H.
  split; apply FloatFacts.is_nan_spec; intro E; rewrite E in H;
    [destruct (Prim2SF b)|]; discriminate.
Qed.

Lemma opp_nan (x : float) : is_nan (- x) = false -> is_nan x = false.
Proof.
  rewrite !FloatFacts.is_nan_spec, opp_spec. intros H E. apply H. rewrite E. reflexivity.
Qed.

Lemma escape_saddle_nan_tolerance (norm : Matrix -> float) (P : SESyncProblem) (rank : Z)
  (Ys : Matrix) (lam : float) (v : Vector) (g : float) (n : nat) (Yplus M : Matrix) :
  is_nan g = true -> escape_saddle norm P rank Ys lam v g n Yplus <> Some (true, M).
Proof.
  intros Hg E. apply escape_saddle_accepts in E. destruct E as [_ E].
  apply gt_numbers in E. destruct E as [_ E]. congruence.
Qed.

(** X20. A NaN among the tolerances. GLOBAL_OPT is returned only when
    [lambda_min] and [min_eig_num_tol] are numbers: with a NaN for
    [min_eig_num_tol] no eigenvalue passes the test. With a NaN for
    [grad_norm_tol] no call of [escape_saddle] succeeds: the solver is run
    once at most, and RS_ITER_LIMIT is returned only when [rmax < r0]. *)
Theorem SESync_nan_tolerances (levels : nat) (s : State) :
  run levels = Some s ->
  let R := SESyncResults s in
  (status R = GLOBAL_OPT -> is_nan (lambda_min R) = false /\ is_nan tol = false) /\
  (is_nan tol = true -> status R <> GLOBAL_OPT) /\
  (is_nan (grad_norm_tol options) = true ->
   Log.count Log.is_TNT (calls s) <= 1 /\
   (status R = RS_ITER_LIMIT -> (rmax options < r0 options)%Z)).
Proof.
  intro H. cbn zeta.
  destruct (SESync_run_inv _ _ _ _ _ _ _ _ H) as (s0 & L & ->).
  unfold post_process. cbn [SESyncResults calls record_rounding status lambda_min].
  change (Log.count Log.is_TNT (round_solution_ (relaxation_rank s0) (Yopt (SESyncResults s0))
                                :: calls s0))
    with (Log.count Log.is_TNT (calls s0)).
  assert (Hopt : status (SESyncResults s0) = GLOBAL_OPT ->
                 is_nan (lambda_min (SESyncResults s0)) = false /\ is_nan tol = false).
  { intro St.
    destruct (staircase_eigenvalues _ _ _ _ _ _ _ _ L) as (_ & _ & Hg & _).
    destruct (Hg St) as (front & _ & G).
    apply gt_numbers in G. destruct G as [G1 G2]. split; [exact G1|exact (opp_nan _ G2)]. }
  split; [exact Hopt|]. split.
  - intros Hn St. destruct (Hopt St) as [_ C]. congruence.
  - intro Hg. split.
    + pose (I := fun (s : State) => Log.count Log.is_TNT (calls s) = 0).
      pose (Q := fun (s : State) => Log.count Log.is_TNT (calls s) <= 1).
      change (Q s0).
      apply (staircase_rule RelativePoseMeasurement world measurements options n_search
               (fun _ s => I s) Q)
        with (levels := levels) (r := r0 options) (s := start); [| | | |exact L]; subst I Q;
        cbn beta.
      * intros r s1 HI _. lia.
      * intros r s1 s' HI _ L1.
        destruct (staircase_level_cases _ _ _ _ _ _ _ _ L1) as (x & conv & lam & v & Hc).
        cbn zeta in Hc. destruct Hc as (_ & _ & _ & Hc). unfold Log.count in *.
        destruct Hc as [(_ & _ & E & _)|[(_ & _ & _ & E & _)|(_ & _ & _ & E & _)]];
          rewrite E; cbn [filter Log.is_TNT length]; lia.
      * intros r s1 s' _ _ L1.
        destruct (staircase_level_cases _ _ _ _ _ _ _ _ L1) as (x & conv & lam & v & Hc).
        cbn zeta in Hc. destruct Hc as (_ & _ & _ & _ & _ & _ & _ & _ & _ & Esc).
        exfalso. exact (escape_saddle_nan_tolerance _ _ _ _ _ _ _ _ _ _ Hg Esc).
      * unfold initialize.
        destruct (negb (size Y0 =? 0)%nat); [|destruct (use_chordal_initialization options)];
          reflexivity.
    + intro St. destruct (staircase_handed_over _ _ L St) as [Hexit [(_ & Er)|(rest & _ & Esc)]].
      * rewrite <- Er. exact Hexit.
      * exfalso. exact (escape_saddle_nan_tolerance _ _ _ _ _ _ _ _ _ _ Hg Esc).
Qed.

Let is_set_rank (c : Call) : bool :=
  match c with set_relaxation_rank_ _ => true | _ => false end.

(** X18. Whenever [SESync] returns, the rank of the problem has been set
    once at its construction and once before each call of [escape_saddle],
    and at no other time; and [escape_saddle] has been called once for each
    converged eigenvalue computation, the last one excepted after
    GLOBAL_OPT. *)
Theorem SESync_rank_changes (levels : nat) (s : State) :
  run levels = Some s ->
  Log.count (fun c => match c with set_relaxation_rank_ _ => true | _ => false end) (calls s)
  = S (Log.count Log.is_escape (calls s)) /\
  Log.count Log.converged (calls s)
  = Log.count Log.is_escape (calls s)
    + match status (SESyncResults s) with GLOBAL_OPT => 1 | _ => 0 end.
Proof.
  intro H.
  destruct (SESync_run_inv _ _ _ _ _ _ _ _ H) as (s0 & L & ->).
  unfold post_process. cbn [SESyncResults calls record_rounding status].
  change (Log.count is_set_rank (round_solution_ (relaxation_rank s0) (Yopt (SESyncResults s0))
                                 :: calls s0)
          = S (Log.count Log.is_escape
                 (round_solution_ (relaxation_rank s0) (Yopt (SESyncResults s0)) :: calls s0)) /\
          Log.count Log.converged
            (round_solution_ (relaxation_rank s0) (Yopt (SESyncResults s0)) :: calls s0)
          = Log.count Log.is_escape
              (round_solution_ (relaxation_rank s0) (Yopt (SESyncResults s0)) :: calls s0)
            + match status (SESyncResults s0) with GLOBAL_OPT => 1 | _ => 0 end).
  unfold Log.count. cbn [filter is_set_rank Log.is_escape Log.converged].
  pose (P := fun (_ : Z) (s : State) =>
    status (SESyncResults s) = RS_ITER_LIMIT /\
    length (filter is_set_rank (calls s)) = S (length (filter Log.is_escape (calls s))) /\
    length (filter Log.converged (calls s)) = length (filter Log.is_escape (calls s))).
  pose (Q := fun (s : State) =>
    length (filter is_set_rank (calls s)) = S (length (filter Log.is_escape (calls s))) /\
    length (filter Log.converged (calls s))
    = length (filter Log.is_escape (calls s))
      + match status (SESyncResults s) with GLOBAL_OPT => 1 | _ => 0 end).
  change (Q s0).
  apply (staircase_rule RelativePoseMeasurement world measurements options n_search P Q)
    with (levels := levels) (r := r0 options) (s := start); [| | | |exact L]; subst P Q;
    cbn beta.
  - intros r s1 (St & H1 & H2) _. rewrite St. split; [exact H1|]. lia.
  - intros r s1 s' (St & H1 & H2) _ L1.
    destruct (staircase_level_cases _ _ _ _ _ _ _ _ L1) as (x & conv & lam & v & Hc).
    cbn zeta in Hc. destruct Hc as (_ & _ & _ & Hc).
    destruct Hc as [(-> & St' & E & _)|[(-> & _ & St' & E & _)|(-> & _ & St' & E & _)]];
      rewrite St', E; cbn [filter is_set_rank Log.is_escape Log.converged length]; lia.
  - intros r s1 s' (St & H1 & H2) _ L1.
    destruct (staircase_level_cases _ _ _ _ _ _ _ _ L1) as (x & conv & lam & v & Hc).
    cbn zeta in Hc. destruct Hc as (_ & _ & _ & -> & _ & St' & E & _).
    rewrite St', E. cbn [filter is_set_rank Log.is_escape Log.converged length].
    split; [exact St|]. lia.
  - split; [apply initialize_status|]. unfold initialize.
    destruct (negb (size Y0 =? 0)%nat); [|destruct (use_chordal_initialization options)];
      split; reflexivity.
Qed.

End LastCall.

(** ** The objective at the rounded solution *)

Lemma block_right_columns (X : Matrix) (n q : nat) :
  well_formed X -> cols X = n + q ->
  block X 0 n (rows X) q = mkMatrix (rows X) q (map (skipn n) (coeff X)).
Proof.
  intros [Hlen Hrows] Hcols. unfold block. f_equal.
  cbn [skipn]. rewrite <- Hlen, firstn_all.
  apply map_ext_in. intros row Hin.
  rewrite Forall_forall in Hrows. specialize (Hrows row Hin).
  apply firstn_all2. rewrite length_skipn. lia.
Qed.

Section Rounding.

Variable RelativePoseMeasurement : Type.
Variable world : Collaborators RelativePoseMeasurement.
Variable measurements : list RelativePoseMeasurement.
Variable options : SESyncOpts.
Variable Y0 : Matrix.
Variable n_search : nat.

Local Abbreviation the_problem := (problem RelativePoseMeasurement world measurements options).
Local Abbreviation run :=
  (SESync_run RelativePoseMeasurement world measurements options Y0 n_search).

(** X19. Under the Simplified formulation, when [round_solution] answers a
    matrix of [dimension] rows and [num_poses + dimension * num_poses]
    columns, the translations in front of the rotations, [Fxhat] is the
    objective at the rotations alone: at [xhat] without its first [num_poses]
    columns. *)
Theorem SESync_Fxhat_rotations (levels : nat) (s : State) :
  formulation options = Simplified ->
  (forall rank M,
     let X := round_solution the_problem rank M in
     well_formed X /\ rows X = dimension the_problem /\
     cols X = num_poses the_problem + dimension the_problem * num_poses the_problem) ->
  run levels = Some s ->
  let R := SESyncResults s in
  let d := dimension the_problem in
  let n := num_poses the_problem in
  Fxhat R = evaluate_objective the_problem (relaxation_rank s)
              (mkMatrix d (d * n) (map (skipn n) (coeff (xhat R)))).
Proof.
  intros Hf Hshape H.
  destruct (SESync_run_inv _ _ _ _ _ _ _ _ H) as (s0 & L & ->).
  unfold post_process.
  cbn [SESyncResults relaxation_rank record_rounding Fxhat xhat]. cbn zeta.
  rewrite Hf.
  destruct (Hshape (relaxation_rank s0) (Yopt (SESyncResults s0))) as (Hwf & Hrows & Hcols).
  cbn zeta in Hwf, Hrows, Hcols.
  rewrite <- Hrows at 1. rewrite (block_right_columns _ _ _ Hwf Hcols), Hrows.
  reflexivity.
Qed.

End Rounding.

(** ** The step lengths are exact *)

Section ExactSteps.

Variable norm : Matrix -> float.
Variable problem : SESyncProblem.
Variable rank : Z.
Variable Y : Matrix.
Variable lambda_min : float.
Variable v_min : Vector.
Variable gradient_tolerance : float.

Local Open Scope Z_scope.

Lemma halvings_normal (k : nat) :
  forall (a : float) (s : bool) (m : positive) (e : Z),
    Prim2SF a = S754_finite s m e -> -1073 <= e - Z.of_nat k ->
    Prim2SF (halvings k a) = S754_finite s m (e - Z.of_nat k).
Proof.
  induction k as [|k IH]; intros a s m e Ha He.
  - cbn [halvings]. rewrite Ha. f_equal. lia.
  - cbn [halvings].
    destruct (FloatFacts.valid_normal a s m e Ha) as (_ & Hd & _).
    pose proof (FloatFacts.halve_normal a s m e Ha (Hd ltac:(lia)) ltac:(lia)) as Hh.
    rewrite <- FloatFacts.halve_div in Hh.
    rewrite (IH (halve a) s m (e - 1) Hh ltac:(lia)). f_equal. lia.
Qed.

Lemma SFltb_positive (m1 m2 : positive) (e1 e2 : Z) :
  SFltb (S754_finite false m1 e1) (S754_finite false m2 e2) = true <->
  e1 < e2 \/ (e1 = e2 /\ Z.pos m1 < Z.pos m2).
Proof.
  unfold SFltb. cbn [SFcompare].
  destruct (Z.compare_spec e1 e2) as [E|E|E].
  - subst e2.
    change (PosDef.Pos.compare_cont Eq m1 m2) with (Pos.compare m1 m2).
    destruct (Pos.compare_spec m1 m2) as [C|C|C]; split;
      try discriminate; try reflexivity; try lia.
  - split; [intros _; lia|reflexivity].
  - split; [discriminate|lia].
Qed.

Lemma gt_alpha_min_finite (a : float) (m : positive) (e : Z) :
  Prim2SF a = S754_finite false m e ->
  (gt a alpha_min = true <-> -72 < e \/ (e = -72 /\ 4722366482869645 < Z.pos m)).
Proof.
  intro Ha. unfold gt. rewrite FloatAxioms.ltb_spec, FloatFacts.Prim2SF_alpha_min, Ha.
  rewrite SFltb_positive. split; intros [H|[H1 H2]]; auto.
Qed.

(** X15. When the initial step of [escape_saddle] is a number [m * 2^e],
    no halving rounds as long as the step is normal: the step of the [k]-th
    trial is [m * 2^(e - k)] exactly. A positive step passes [alpha >
    alpha_min] exactly when its exponent is above -72, the exponent of
    [1e-6], or is -72 with a mantissa above the one of [1e-6]; so that
    [escape_saddle] returns within [e + 73] iterations, and within one when
    [e + 73] is not positive. *)
Theorem escape_saddle_exact_steps (s : bool) (m : positive) (e : Z) :
  Prim2SF (alpha_init lambda_min gradient_tolerance) = S754_finite s m e ->
  (forall k : nat,
     -1073 <= e - Z.of_nat k ->
     Prim2SF (halvings k (alpha_init lambda_min gradient_tolerance))
     = S754_finite s m (e - Z.of_nat k) /\
     (s = false ->
      (gt (halvings k (alpha_init lambda_min gradient_tolerance)) alpha_min = true <->
       -72 < e - Z.of_nat k \/ (e - Z.of_nat k = -72 /\ 4722366482869645 < Z.pos m)))) /\
  (s = false ->
   forall (n : nat) (Yplus : Matrix),
     1 <= Z.of_nat n -> e + 73 <= Z.of_nat n ->
     exists b M,
       escape_saddle norm problem rank Y lambda_min v_min gradient_tolerance n Yplus
       = Some (b, M)).
Proof.
  intro Ha. split.
  - intros k He.
    pose proof (halvings_normal k _ s m e Ha He) as Hk.
    split; [exact Hk|]. intros ->. apply gt_alpha_min_finite. exact Hk.
  - intros -> n Yplus Hn1 Hn.
    destruct (FloatFacts.halvings_reach_floor_from (Z.to_nat (e + 72)) _ m e Ha ltac:(lia))
      as (k & Hk & Hfloor).
    destruct (line_search_returns norm problem rank Y v_min gradient_tolerance n
                (alpha_init lambda_min gradient_tolerance) [])
      as [ls Hls]; [exists k; split; [lia|exact Hfloor]|].
    unfold escape_saddle. rewrite Hls.
    destruct (escape_success ls); eexists; eexists; reflexivity.
Qed.

End ExactSteps.

(** ** More runs in the small world *)

(** Three levels: the solver runs at ranks 2, 3 and 4. *)
Lemma SESync_solver_ranks_witness :
  exists s,
    SESync_run unit (Fixture.world (Fixture.saddle_below 4)) []
      (Fixture.options 2 5 1e-4) empty 30 10 = Some s /\
    Trace.solver_ranks (calls s) = [2; 3; 4]%Z.
Proof.
  eexists. split; [vm_compute; reflexivity|].
  destruct (SESync_solver_ranks unit (Fixture.world (Fixture.saddle_below 4)) []
              (Fixture.options 2 5 1e-4) empty 30 10 _
              ltac:(unfold is_uint, UINT_MAX; cbn; lia) ltac:(unfold UINT_MAX; cbn; lia)
              ltac:(vm_compute; reflexivity))
    as (Hr & _).
  rewrite Hr. reflexivity.
Defined.

(** The line search fails at the first level: the solver ran at rank 2 and
    the rounding is made at rank 3. *)
Lemma SESync_rank_at_return_witness :
  exists s,
    SESync_run unit (Fixture.world (Fixture.no_descent (-1))) []
      (Fixture.options 2 5 1e-4) empty 30 10 = Some s /\
    status (SESyncResults s) = SADDLE_POINT /\
    relaxation_rank s = (2 + 1)%Z.
Proof.
  eexists. split; [vm_compute; reflexivity|].
  split; [reflexivity|].
  apply (proj2 (SESync_rank_at_return unit (Fixture.world (Fixture.no_descent (-1))) []
                  (Fixture.options 2 5 1e-4) empty 30 10 _
                  ltac:(unfold is_uint, UINT_MAX; cbn; lia) ltac:(unfold UINT_MAX; cbn; lia)
                  ltac:(vm_compute; reflexivity))).
Defined.

(** [r0 = rmax = UINT_MAX], and a user-supplied [Y0]. *)
Lemma SESync_no_iteration_limit_witness :
  exists s,
    SESync_run unit (Fixture.world Fixture.no_convergence) []
      (Fixture.options 4294967295 4294967295 1e-4) (Fixture.constant 2 2 1) 30 10 = Some s /\
    status (SESyncResults s) <> RS_ITER_LIMIT.
Proof.
  eexists. split; [vm_compute; reflexivity|].
  apply (SESync_no_iteration_limit unit (Fixture.world Fixture.no_convergence) []
           (Fixture.options 4294967295 4294967295 1e-4) (Fixture.constant 2 2 1) 30 10 _
           ltac:(unfold is_uint, UINT_MAX; cbn; lia) ltac:(unfold UINT_MAX; cbn; lia)
           ltac:(vm_compute; reflexivity)).
Defined.

(** The eigenvalue computation at rank 3 comes right after the solver. *)
Lemma SESync_certificate_at_solution_witness :
  exists s Yin rest,
    SESync_run unit (Fixture.world (Fixture.saddle_below 3)) []
      (Fixture.options 2 5 1e-4) empty 30 10 = Some s /\
    skipn 2 (calls s) = TNT_ 3 Yin (mkMatrix 3 2 [[1; 1]; [1; 1]; [-1; -1]]%float) :: rest.
Proof.
  eexists.
  edestruct (proj1 (SESync_certificate_at_solution unit
                      (Fixture.world (Fixture.saddle_below 3)) []
                      (Fixture.options 2 5 1e-4) empty 30 10 _ ltac:(vm_compute; reflexivity))
               [round_solution_ 3 (mkMatrix 3 2 [[1; 1]; [1; 1]; [-1; -1]]%float)])
    as (Yin & rest & E); [cbn [app]; reflexivity|].
  exists Yin, rest. split; [vm_compute; reflexivity|exact E].
Defined.

(** The call of [escape_saddle] at rank 3 comes right after the rank was
    raised from 2. *)
Lemma SESync_escape_after_saddle_witness :
  exists s rk Yin rest,
    SESync_run unit (Fixture.world (Fixture.saddle_below 3)) []
      (Fixture.options 2 5 1e-4) empty 30 10 = Some s /\
    skipn 4 (calls s)
    = set_relaxation_rank_ 3
      :: compute_S_minus_Lambda_min_eig_ rk (Fixture.constant 2 2 1) true (-1)
      :: TNT_ rk Yin (Fixture.constant 2 2 1) :: rest /\
    3%Z = uint (rk + 1).
Proof.
  eexists.
  edestruct (SESync_escape_after_saddle unit (Fixture.world (Fixture.saddle_below 3)) []
               (Fixture.options 2 5 1e-4) empty 30 10 _ ltac:(vm_compute; reflexivity)
               [round_solution_ 3 (mkMatrix 3 2 [[1; 1]; [1; 1]; [-1; -1]]%float);
                compute_S_minus_Lambda_min_eig_ 3
                  (mkMatrix 3 2 [[1; 1]; [1; 1]; [-1; -1]]%float) true 0.5;
                TNT_ 3 (mkMatrix 3 2 [[1; 1]; [1; 1]; [-1; -1]]%float)
                  (mkMatrix 3 2 [[1; 1]; [1; 1]; [-1; -1]]%float)])
    as (rk & Yin & rest & E & Hrk & _); [cbn [app]; reflexivity|].
  exists rk, Yin, rest. split; [vm_compute; reflexivity|]. split; [exact E|exact Hrk].
Defined.

(** The solver starts at rank 3 from the point [escape_saddle] returned,
    where the objective is 2 instead of the 4 of the saddle. *)
Lemma SESync_solver_warm_start_witness :
  exists s,
    SESync_run unit (Fixture.world (Fixture.saddle_below 3)) []
      (Fixture.options 2 5 1e-4) empty 30 10 = Some s /\
    (Fixture.total (mkMatrix 3 2 [[1; 1]; [1; 1]; [-1; -1]]%float)
     <? Fixture.total (Fixture.constant 2 2 1))%float = true.
Proof.
  eexists. split; [vm_compute; reflexivity|].
  edestruct (SESync_solver_warm_start unit (Fixture.world (Fixture.saddle_below 3)) []
               (Fixture.options 2 5 1e-4) empty 30 10 _ ltac:(vm_compute; reflexivity)
               [round_solution_ 3 (mkMatrix 3 2 [[1; 1]; [1; 1]; [-1; -1]]%float);
                compute_S_minus_Lambda_min_eig_ 3
                  (mkMatrix 3 2 [[1; 1]; [1; 1]; [-1; -1]]%float) true 0.5])
    as [(E & _)|(Y & lam & v & rest & E & _ & Hdescent & _)]; [cbn [app]; reflexivity| |].
  - discriminate E.
  - inversion E; subst Y. exact Hdescent.
Defined.

(** The solver of the small world answers its starting point and the
    retraction is a sum: [escape_saddle] is called at rank 4 with a point of
    three rows, the one it returned at rank 3. *)
Lemma SESync_escape_rank_witness :
  exists s,
    SESync_run unit (Fixture.world (Fixture.saddle_below 4)) []
      (Fixture.options 2 5 1e-4) empty 30 10 = Some s /\
    In (escape_saddle_ 4 (mkMatrix 3 2 [[1; 1]; [1; 1]; [-1; -1]]%float) (-1) [-1; -1]%float
          1e-2 true) (calls s) /\
    4%Z = (Z.of_nat (rows (mkMatrix 3 2 [[1; 1]; [1; 1]; [-1; -1]]%float)) + 1)%Z.
Proof.
  eexists. split; [vm_compute; reflexivity|].
  match goal with
  | |- In ?c ?l /\ _ => assert (HIn : In c l) by (cbn; do 3 right; left; reflexivity)
  end.
  split; [exact HIn|].
  refine (proj2 (SESync_escape_rank unit (Fixture.world (Fixture.saddle_below 4)) []
                   (Fixture.options 2 5 1e-4) empty 30 10 _ _ _
                   ltac:(reflexivity) ltac:(unfold UINT_MAX; cbn; lia)
                   ltac:(vm_compute; reflexivity)) _ _ _ _ _ _ HIn).
  - intros rank Yin N its. reflexivity.
  - intros rank M V. reflexivity.
Defined.

(** A saddle at rank 2 and a certificate at rank 3. *)
Lemma SESync_eigenvalue_trace_witness :
  exists s,
    SESync_run unit (Fixture.world (Fixture.saddle_below 3)) []
      (Fixture.options 2 5 1e-4) empty 30 10 = Some s /\
    minimum_eigenvalues (SESyncResults s) = [-1; 0.5]%float /\
    minimum_eigenvalues (SESyncResults s) = Trace.eigenvalues (calls s).
Proof.
  eexists. split; [vm_compute; reflexivity|].
  split; [reflexivity|].
  apply (SESync_eigenvalue_trace unit (Fixture.world (Fixture.saddle_below 3)) []
           (Fixture.options 2 5 1e-4) empty 30 10 _ ltac:(vm_compute; reflexivity)).
Defined.

(** A zero eigenvalue: the trial point at the infinite step is made of NaN
    and of infinities, and it is rejected. *)
Lemma escape_saddle_infinite_step_witness :
  alpha_init 0 1e-2 = infinity /\
  escape_saddle Fixture.norm1 (Fixture.problem (Fixture.always_saddle 0)) 3
    (Fixture.constant 2 2 1) 0 [-1; -1]%float 1e-2 2000 empty = None.
Proof.
  destruct (escape_saddle_infinite_step Fixture.norm1
              (Fixture.problem (Fixture.always_saddle 0)) 3 (Fixture.constant 2 2 1) 0
              [-1; -1]%float 1e-2 ltac:(vm_compute; reflexivity))
    as (Hzero & _ & Hloop).
  split; [apply Hzero; reflexivity|].
  apply Hloop. apply Hzero; reflexivity.
Defined.

(** An eigenvalue that is a NaN: one retraction, rejected. *)
Lemma escape_saddle_nan_step_witness :
  escape_saddle Fixture.norm1 (Fixture.problem (Fixture.always_saddle nan)) 3
    (Fixture.constant 2 2 1) nan [-1; -1]%float 1e-2 1 empty = Some (false, empty).
Proof.
  destruct (escape_saddle_nan_step Fixture.norm1
              (Fixture.problem (Fixture.always_saddle nan)) 3 (Fixture.constant 2 2 1) nan
              [-1; -1]%float 1e-2 1 empty ltac:(lia))
    as (Hinit & Hone & _).
  destruct (Hone (Hinit (or_introl eq_refl))) as [_ H].
  rewrite H. vm_compute. reflexivity.
Defined.

(** The eigenvalue routine gives up: the warning is all that is written. *)
Lemma SESync_output_not_verbose_witness :
  Console.SESync_output unit (Fixture.world Fixture.no_convergence) []
    (Fixture.options 2 5 1e-4) empty 30 0 0 0 10
  = Some Console.eigenvalue_warning.
Proof.
  rewrite (SESync_output_not_verbose unit (Fixture.world Fixture.no_convergence) []
             (Fixture.options 2 5 1e-4) empty 30 0 0 0 10 _ eq_refl
             ltac:(vm_compute; reflexivity)).
  reflexivity.
Defined.

(** With [verbose], two levels are announced. *)
Lemma SESync_output_verbose_witness :
  exists out,
    Console.SESync_output unit (Fixture.world (Fixture.saddle_below 3)) []
      (Variant.verbose_options 2 5 1e-4) empty 30 0 0 0 10 = Some out /\
    Console.levels_announced out = [2; 3]%Z.
Proof.
  destruct (SESync_output_verbose unit (Fixture.world (Fixture.saddle_below 3)) []
              (Variant.verbose_options 2 5 1e-4) empty 30 0 0 0 10 _ eq_refl
              ltac:(vm_compute; reflexivity))
    as (out & O & _ & _ & Hl).
  exists out. split; [exact O|]. rewrite Hl. reflexivity.
Defined.

(** The eigenvalue routine gives up at the first level: the call before the
    rounding is the eigenvalue computation. *)
Lemma SESync_last_call_witness :
  exists s rest,
    SESync_run unit (Fixture.world Fixture.no_convergence) []
      (Fixture.options 2 5 1e-4) empty 30 10 = Some s /\
    skipn 1 (calls s)
    = compute_S_minus_Lambda_min_eig_ 2 (Fixture.constant 2 2 1) false 0 :: rest.
Proof.
  eexists.
  destruct (SESync_last_call unit (Fixture.world Fixture.no_convergence) []
              (Fixture.options 2 5 1e-4) empty 30 10 _ ltac:(vm_compute; reflexivity))
    as (older & E & Hm).
  hnf in Hm. destruct Hm as (rest & Eold).
  exists rest. split; [vm_compute; reflexivity|].
  inversion E as [E']. rewrite <- E' in Eold. exact Eold.
Defined.

(** The line search fails at rank 3: the gradient norm is the one at rank 2. *)
Lemma SESync_gradnorm_witness :
  exists s,
    SESync_run unit (Fixture.world (Fixture.no_descent (-1))) []
      (Fixture.options 2 5 1e-4) empty 30 10 = Some s /\
    relaxation_rank s = 3%Z /\
    gradnorm (SESyncResults s)
    = Fixture.norm1 (Riemannian_gradient (Fixture.problem (Fixture.no_descent (-1))) 2
                       (Yopt (SESyncResults s))).
Proof.
  eexists. split; [vm_compute; reflexivity|]. split; [reflexivity|].
  apply (SESync_gradnorm unit (Fixture.world (Fixture.no_descent (-1))) []
           (Fixture.options 2 5 1e-4) empty 30 10 _ ltac:(vm_compute; reflexivity)).
Defined.

(** From the initial step 2, the twentieth step is [2^-19] and passes the
    test; the twenty-first is [2^-20] and fails it. *)
Lemma escape_saddle_exact_steps_witness :
  Prim2SF (halvings 20 (alpha_init (-1) 1e-2)) = S754_finite false 4503599627370496 (-71) /\
  gt (halvings 20 (alpha_init (-1) 1e-2)) alpha_min = true /\
  Prim2SF (halvings 21 (alpha_init (-1) 1e-2)) = S754_finite false 4503599627370496 (-72) /\
  exists b M,
    escape_saddle Fixture.norm1 (Fixture.problem (Fixture.no_descent (-1))) 3
      (Fixture.constant 2 2 1) (-1) [1; 1]%float 1e-2 22 empty = Some (b, M).
Proof.
  destruct (escape_saddle_exact_steps Fixture.norm1
              (Fixture.problem (Fixture.no_descent (-1))) 3 (Fixture.constant 2 2 1) (-1)
              [1; 1]%float 1e-2 false 4503599627370496 (-51) ltac:(reflexivity))
    as [Hsteps Hreturns].
  destruct (Hsteps 20%nat ltac:(lia)) as [H20 G20].
  destruct (Hsteps 21%nat ltac:(lia)) as [H21 _].
  split; [exact H20|]. split; [apply (G20 eq_refl); left; lia|]. split; [exact H21|].
  apply (Hreturns eq_refl); lia.
Defined.

(** Two levels with a saddle, a certificate at the third: the rank is set
    three times and [escape_saddle] is called twice. *)
Lemma SESync_rank_changes_witness :
  exists s,
    SESync_run unit (Fixture.world (Fixture.saddle_below 4)) []
      (Fixture.options 2 5 1e-4) empty 30 10 = Some s /\
    Log.count Log.is_escape (calls s) = 2%nat /\
    Log.count (fun c => match c with set_relaxation_rank_ _ => true | _ => false end) (calls s)
    = 3%nat.
Proof.
  eexists. split; [vm_compute; reflexivity|]. split; [reflexivity|].
  rewrite (proj1 (SESync_rank_changes unit (Fixture.world (Fixture.saddle_below 4)) []
                    (Fixture.options 2 5 1e-4) empty 30 10 _ ltac:(vm_compute; reflexivity))).
  reflexivity.
Defined.

(** One pose in dimension one: [xhat] is [[t | R]] and [Fxhat] is [R]. *)
Lemma SESync_Fxhat_rotations_witness :
  exists s,
    SESync_run unit (Variant.pose_world (Fixture.saddle_below 2)) []
      (Fixture.options 2 5 1e-4) empty 30 10 = Some s /\
    xhat (SESyncResults s) = mkMatrix 1 2 [[4; 1]]%float /\
    Fxhat (SESyncResults s) = 1%float.
Proof.
  eexists. split; [vm_compute; reflexivity|]. split; [reflexivity|].
  rewrite (SESync_Fxhat_rotations unit (Variant.pose_world (Fixture.saddle_below 2)) []
             (Fixture.options 2 5 1e-4) empty 30 10 _ eq_refl).
  - reflexivity.
  - intros rank M. cbn. repeat split. repeat constructor.
  - vm_compute. reflexivity.
Defined.

(** A NaN for [grad_norm_tol]: the line search fails at the first level. *)
Lemma SESync_nan_tolerances_witness :
  exists s,
    SESync_run unit (Fixture.world (Fixture.always_saddle (-1))) []
      (Variant.nan_gradient_options 2 5 1e-4) empty 30 10 = Some s /\
    status (SESyncResults s) = SADDLE_POINT /\
    Log.count Log.is_TNT (calls s) <= 1.
Proof.
  eexists. split; [vm_compute; reflexivity|]. split; [reflexivity|].
  apply (proj2 (proj2 (SESync_nan_tolerances unit
                         (Fixture.world (Fixture.always_saddle (-1))) []
                         (Variant.nan_gradient_options 2 5 1e-4) empty 30 10 _
                         ltac:(vm_compute; reflexivity)))).
  reflexivity.
Defined.
